(** * bot.py: session engine, point ledger, card engine, puzzles, mood
      detector, debate runner

    A shallow embedding of the stateful core of [src/bot.py] and the
    properties of its behaviour.

    Conventions of the embedding
    - Python [int] is [Z]; counters that only count down to zero are [nat].
    - Python [str] is a list of characters; the character type and the
      Unicode-aware methods ([str.lower], [str.strip], [str.isalpha]) are
      section variables, instantiated at 8-bit ASCII for the examples.
    - A [dict] is a [gmap], a [set] is a [gset], a [list] is a [list].
    - [random.shuffle] is a section variable threading an explicit
      generator state; all that is assumed of it is that it permutes.
    - Module-level dictionaries of the script become fields of explicit
      state records that every operation takes and returns.
    - [save_game_data] and [save_mood_data] only write a snapshot to disk
      and swallow every failure: they leave the in-memory state alone and
      are not modelled.
    - A date key of [mood_data] is the ordinal of its day (1 for
      0001-01-01); the counters of a day are a record of five integers,
      as [record_mood] writes them.
    - A clock that is read more than once in a call is a function from
      the reading to its value; an exception is an outcome of its own or
      [None]. *)

From Stdlib Require Import ZArith Lia Ascii String.
From stdpp Require Import base decidable option list gmap strings.

(** ** Card engine ([Card], [Deck], [calculate_hand_value], [BlackjackGame]) *)

Module Cards.

Local Open Scope Z_scope.

(** [Card.SUITS] and [Card.RANKS]. *)
Inductive Suit := Spade | Heart | Diamond | Club.

Inductive Rank :=
  | R2 | R3 | R4 | R5 | R6 | R7 | R8 | R9 | R10 | RJ | RQ | RK | RA.

Record Card := mkCard { suit : Suit; rank : Rank }.

Definition SUITS : list Suit := [Spade; Heart; Diamond; Club].
Definition RANKS : list Rank :=
  [R2; R3; R4; R5; R6; R7; R8; R9; R10; RJ; RQ; RK; RA].

(** [int(self.rank)] on the number ranks. *)
Definition rank_number (r : Rank) : Z :=
  match r with
  | R2 => 2 | R3 => 3 | R4 => 4 | R5 => 5 | R6 => 6 | R7 => 7
  | R8 => 8 | R9 => 9 | R10 => 10
  | RJ | RQ | RK | RA => 0
  end.

(** [Card.value]. *)
Definition value (c : Card) : Z :=
  match rank c with
  | RJ | RQ | RK => 10
  | RA => 11
  | r => rank_number r
  end.

Definition is_ace (c : Card) : bool :=
  match rank c with RA => true | _ => false end.

(** The [for card in cards] loop of [calculate_hand_value]: the pair
    [(total, aces)] after the cards have been added up. *)
Definition sum_cards (cards : list Card) : Z * nat :=
  foldl (fun '(total, aces) card =>
           if is_ace card then (total + 11, S aces)
           else (total + value card, aces))
        (0, 0%nat) cards.

(** [while total > 21 and aces > 0: total -= 10; aces -= 1]. *)
Fixpoint adjust_aces (total : Z) (aces : nat) : Z * nat :=
  match aces with
  | O => (total, O)
  | S aces' =>
      if 21 <? total then adjust_aces (total - 10) aces' else (total, aces)
  end.

(** The state of [calculate_hand_value] just before [is_soft] is computed:
    the adjusted total and the number of aces still counted as 11. *)
Definition adjusted (cards : list Card) : Z * nat :=
  let '(total, aces) := sum_cards cards in adjust_aces total aces.

(** [calculate_hand_value]. *)
Definition calculate_hand_value (cards : list Card) : Z * bool :=
  let '(total, aces) := adjusted cards in
  let is_soft := (0 <? Z.of_nat aces) && (total + 10 <=? 21) in
  (total, is_soft).

Section Deck.

(** The state of Python's global random generator and [random.shuffle]. *)
Context {rng : Type}.
Variable random_shuffle : forall A : Type, rng -> list A -> list A * rng.

Record Deck := mkDeck { cards : list Card; gen : rng }.

Definition full_deck : list Card :=
  s ← SUITS; r ← RANKS; [mkCard s r].

(** [Deck.__init__]. *)
Definition new_deck (num_decks : nat) (g : rng) : Deck :=
  let '(cs, g') := random_shuffle Card g (mjoin (replicate num_decks full_deck)) in
  mkDeck cs g'.

(** [list.pop()]: the last element, [None] for the IndexError on []. *)
Definition pop (l : list Card) : option (Card * list Card) :=
  match last l with
  | Some c => Some (c, take (length l - 1)%nat l)
  | None => None
  end.

(** [Deck.draw]. *)
Definition draw (d : Deck) : option (Card * Deck) :=
  let d1 := if (length (cards d) <? 10)%nat then new_deck 1 (gen d) else d in
  match pop (cards d1) with
  | Some (c, rest) => Some (c, mkDeck rest (gen d1))
  | None => None
  end.

(** What [BlackjackGame.result] says, without the wording. *)
Inductive Outcome :=
  | PlayerBust
  | DealerBust (player_value : Z)
  | Win (player_value dealer_value : Z)
  | Lose (player_value dealer_value : Z)
  | Push (player_value dealer_value : Z)
  | PlayerBlackjack
  | DealerBlackjack.

Record BlackjackGame := mkGame {
  player_id : Z;
  deck : Deck;
  player_hand : list Card;
  dealer_hand : list Card;
  game_over : bool;
  result : option Outcome
}.

(** The [while] loop of [play_dealer]; one unit of fuel per card drawn.
    [None] when the fuel runs out or the deck raises. *)
Fixpoint dealer_draws (fuel : nat) (d : Deck) (hand : list Card)
  : option (Deck * list Card) :=
  let '(dealer_value, dealer_soft) := calculate_hand_value hand in
  if (dealer_value <? 17) || ((dealer_value =? 17) && dealer_soft) then
    match fuel with
    | O => None
    | S fuel' =>
        match draw d with
        | Some (c, d') => dealer_draws fuel' d' (hand ++ [c])
        | None => None
        end
    end
  else Some (d, hand).

(** The comparison that ends [play_dealer]. *)
Definition compare_hands (player dealer : list Card) : Outcome :=
  let dealer_value := (calculate_hand_value dealer).1 in
  let player_value := (calculate_hand_value player).1 in
  if 21 <? dealer_value then DealerBust player_value
  else if dealer_value <? player_value then Win player_value dealer_value
  else if player_value <? dealer_value then Lose player_value dealer_value
  else Push player_value dealer_value.

(** [BlackjackGame.play_dealer]. *)
Definition play_dealer (fuel : nat) (g : BlackjackGame) : option BlackjackGame :=
  match dealer_draws fuel (deck g) (dealer_hand g) with
  | Some (d, hand) =>
      Some (mkGame (player_id g) d (player_hand g) hand (game_over g)
              (Some (compare_hands (player_hand g) hand)))
  | None => None
  end.

(** [BlackjackGame.player_stand]. *)
Definition player_stand (fuel : nat) (g : BlackjackGame) : option BlackjackGame :=
  play_dealer fuel
    (mkGame (player_id g) (deck g) (player_hand g) (dealer_hand g) true (result g)).

(** [BlackjackGame.__init__]: a fresh single deck, two cards for the
    player, then two for the dealer. *)
Definition new_game (pid : Z) (g : rng) : option BlackjackGame :=
  let d := new_deck 1 g in
  '(p1, d) ← draw d;
  '(p2, d) ← draw d;
  '(d1, d) ← draw d;
  '(d2, d) ← draw d;
  Some (mkGame pid d [p1; p2] [d1; d2] false None).

(** [BlackjackGame.player_hit]: the card drawn and the game after it. *)
Definition player_hit (g : BlackjackGame) : option (Card * BlackjackGame) :=
  match draw (deck g) with
  | Some (card, d) =>
      let hand := player_hand g ++ [card] in
      let value := (calculate_hand_value hand).1 in
      if 21 <? value then
        Some (card, mkGame (player_id g) d hand (dealer_hand g) true (Some PlayerBust))
      else
        Some (card, mkGame (player_id g) d hand (dealer_hand g) (game_over g) (result g))
  | None => None
  end.

(** [BlackjackGame.check_blackjack]. *)
Definition check_blackjack (g : BlackjackGame) : bool * BlackjackGame :=
  let player_value := (calculate_hand_value (player_hand g)).1 in
  let dealer_value := (calculate_hand_value (dealer_hand g)).1 in
  if (player_value =? 21) && (length (player_hand g) =? 2)%nat then
    (true, mkGame (player_id g) (deck g) (player_hand g) (dealer_hand g) true
             (Some PlayerBlackjack))
  else if (dealer_value =? 21) && (length (dealer_hand g) =? 2)%nat then
    (true, mkGame (player_id g) (deck g) (player_hand g) (dealer_hand g) true
             (Some DealerBlackjack))
  else (false, g).

(** [qq_card_value] and [qq_hand_value]. *)
Definition qq_card_value (card : Card) : Z :=
  match rank card with
  | R10 | RJ | RQ | RK => 0
  | RA => 1
  | r => rank_number r
  end.

Definition qq_hand_value (cards : list Card) : Z :=
  let total := foldl Z.add 0 (qq_card_value <$> cards) in
  total `mod` 10.

(** [QQGame]: three cards each from a fresh single deck. *)
Inductive QQOutcome := QQWin | QQLose | QQTie.

Record QQGame := mkQQ {
  qq_player_id : Z;
  qq_deck : Deck;
  qq_player_hand : list Card;
  qq_dealer_hand : list Card;
  qq_player_value : Z;
  qq_dealer_value : Z;
  qq_result : QQOutcome
}.

(** [QQGame._resolve_result]. *)
Definition _resolve_result (player_value dealer_value : Z) : QQOutcome :=
  if dealer_value <? player_value then QQWin
  else if player_value <? dealer_value then QQLose
  else QQTie.

(** [QQGame.__init__]. *)
Definition qq_new_game (pid : Z) (g : rng) : option QQGame :=
  let d := new_deck 1 g in
  '(p1, d) ← draw d;
  '(p2, d) ← draw d;
  '(p3, d) ← draw d;
  '(d1, d) ← draw d;
  '(d2, d) ← draw d;
  '(d3, d) ← draw d;
  let player_hand := [p1; p2; p3] in
  let dealer_hand := [d1; d2; d3] in
  let pv := qq_hand_value player_hand in
  let dv := qq_hand_value dealer_hand in
  Some (mkQQ pid d player_hand dealer_hand pv dv (_resolve_result pv dv)).

End Deck.

(** The ways of counting a hand: each ace as 11 or as 1, [j] of them as 1. *)
Definition counted (cards : list Card) (j : nat) : Z :=
  (sum_cards cards).1 - 10 * Z.of_nat j.

Definition ten_valued (c : Card) : bool :=
  match rank c with R10 | RJ | RQ | RK => true | _ => false end.

(** Two cards that make a natural: an ace and a ten-valued card. *)
Definition natural_pair (c1 c2 : Card) : bool :=
  is_ace c1 && ten_valued c2 || ten_valued c1 && is_ace c2.

Global Instance Suit_eq_dec : EqDecision Suit.
Proof. solve_decision. Defined.

Global Instance Rank_eq_dec : EqDecision Rank.
Proof. solve_decision. Defined.

Global Instance Card_eq_dec : EqDecision Card.
Proof. solve_decision. Defined.

End Cards.

(** ** Economy ledger ([game_data], [get_points], [add_points], [transfer_points]) *)

Module Ledger.

Local Open Scope Z_scope.

(** [game_data]: two dictionaries keyed by [str(user_id)].  [str] is
    injective on integers, so the keys are the user ids themselves. *)
Record GameData := mkGameData {
  points : gmap Z Z;
  cooldowns : gmap Z (gmap string Z)
}.

(** [load_game_data] when no snapshot exists. *)
Definition empty_data : GameData := mkGameData ∅ ∅.

(** [dict.setdefault], as a statement. *)
Definition setdefault {V} (k : Z) (v : V) (m : gmap Z V) : gmap Z V :=
  match m !! k with
  | Some _ => m
  | None => <[k := v]> m
  end.

Definition ensure_user_data (user_id : Z) (g : GameData) : GameData :=
  mkGameData (setdefault user_id 0 (points g)) (setdefault user_id ∅ (cooldowns g)).

(** [game_data['points'][uid]]: the key is always present where the
    script indexes, after [ensure_user_data]; the 0 is never read. *)
Definition points_of (g : GameData) (uid : Z) : Z := default 0 (points g !! uid).

Definition set_points (uid : Z) (v : Z) (g : GameData) : GameData :=
  mkGameData (<[uid := v]> (points g)) (cooldowns g).

Definition get_points (user_id : Z) (g : GameData) : Z * GameData :=
  let g := ensure_user_data user_id g in
  (points_of g user_id, g).

Definition add_points (user_id amount : Z) (g : GameData) : Z * GameData :=
  let g := ensure_user_data user_id g in
  let g := set_points user_id (Z.max 0 (points_of g user_id + amount)) g in
  (points_of g user_id, g).

Definition transfer_points (from_user_id to_user_id amount : Z) (g : GameData)
  : Z * GameData :=
  let g := ensure_user_data from_user_id g in
  let g := ensure_user_data to_user_id g in
  let amount := Z.max 0 amount in
  let real_amount := Z.min amount (points_of g from_user_id) in
  let g := set_points from_user_id (points_of g from_user_id - real_amount) g in
  let g := set_points to_user_id (points_of g to_user_id + real_amount) g in
  (real_amount, g).

(** [set_cooldown] and [cooldown_remaining]; [now] is the clock reading
    [int(datetime.now(timezone.utc).timestamp())]. *)
Definition set_cooldown (user_id : Z) (key : string) (seconds now : Z)
  (g : GameData) : GameData :=
  let g := ensure_user_data user_id g in
  let expiry := now + seconds in
  mkGameData (points g)
    (<[user_id := <[key := expiry]> (cooldowns g !!! user_id)]> (cooldowns g)).

Definition cooldown_remaining (user_id : Z) (key : string) (now : Z)
  (g : GameData) : Z * GameData :=
  let g := ensure_user_data user_id g in
  let expiry := default 0 ((cooldowns g !!! user_id) !! key) in
  (Z.max 0 (expiry - now), g).

(** The balance an observer reads: what [get_points] returns. *)
Definition balance (g : GameData) (user_id : Z) : Z := (get_points user_id g).1.

(** The three ledger operations on balances, as commands. *)
Inductive LedgerOp :=
  | GetBalance (user_id : Z)
  | AddPoints (user_id delta : Z)
  | Transfer (from_id to_id amount : Z).

Definition run_op (op : LedgerOp) (g : GameData) : GameData :=
  match op with
  | GetBalance u => (get_points u g).2
  | AddPoints u d => (add_points u d g).2
  | Transfer a b n => (transfer_points a b n g).2
  end.

Definition run_ops (ops : list LedgerOp) (g : GameData) : GameData :=
  foldl (fun g op => run_op op g) g ops.

(** Every stored balance is non-negative. *)
Definition nonneg_balances (g : GameData) : Prop :=
  forall uid v, points g !! uid = Some v -> 0 <= v.

(** A ledger with one account, user 1 holding 30 points. *)
Definition thirty : GameData := mkGameData {[ 1 := 30 ]} ∅.

(** The expiry stored for a cooldown key, 0 when there is none: what
    [game_data['cooldowns'][uid].get(key, 0)] reads after
    [ensure_user_data]. *)
Definition expiry (g : GameData) (user_id : Z) (key : string) : Z :=
  default 0 (cooldowns g !! user_id ≫= fun m => m !! key).

(** The sum of all stored balances. *)
Definition total_points (g : GameData) : Z :=
  map_fold (fun _ v acc => v + acc) 0 (points g).

(** What the [heist] command answers. *)
Inductive HeistReply :=
  | HeistBot
  | HeistSelf
  | HeistCooldown (remain : Z)
  | HeistSuccess (stolen : Z)
  | HeistFailed (paid : Z).

(** [heist] (and [heist_slash], which differs in wording only).
    [target_is_bot] is [target.bot]; [now_check] and [now_set] are the two
    clock readings, in [cooldown_remaining] and in [set_cooldown];
    [success] is [random.random() < 0.55]; [roll] is what [random.randint]
    returns, from 10..40 on success and from 8..25 otherwise. *)
Definition heist (author target : Z) (target_is_bot : bool)
  (now_check now_set : Z) (success : bool) (roll : Z) (g : GameData)
  : HeistReply * GameData :=
  if target_is_bot then (HeistBot, g)
  else if decide (target = author) then (HeistSelf, g)
  else
    let '(remain, g) := cooldown_remaining author "heist" now_check g in
    if 0 <? remain then (HeistCooldown remain, g)
    else
      let '(pa, g) := get_points author g in
      let g := if pa =? 0 then (add_points author 50 g).2 else g in
      let '(pt, g) := get_points target g in
      let g := if pt =? 0 then (add_points target 50 g).2 else g in
      let g := set_cooldown author "heist" 120 now_set g in
      if success then
        let '(stolen, g) := transfer_points target author roll g in
        (HeistSuccess stolen, g)
      else
        let '(paid, g) := transfer_points author target roll g in
        (HeistFailed paid, g).

(** The balance a heist works with: 50 for an account that holds 0. *)
Definition topped_up (b : Z) : Z := if b =? 0 then 50 else b.

(** Everything that writes [game_data]: the three balance operations
    (the game commands call [add_points], [poin] calls [get_points]) and
    the [heist] command, the only caller of [set_cooldown] and
    [transfer_points]. *)
Inductive LedgerEvent :=
  | Balance (op : LedgerOp)
  | Heist (author target : Z) (target_is_bot : bool) (now_check now_set : Z)
      (success : bool) (roll : Z).

Definition run_event (e : LedgerEvent) (g : GameData) : GameData :=
  match e with
  | Balance op => run_op op g
  | Heist a t is_bot now_check now_set success roll =>
      (heist a t is_bot now_check now_set success roll g).2
  end.

Definition run_events (evs : list LedgerEvent) (g : GameData) : GameData :=
  foldl (fun g e => run_event e g) g evs.

(** An event that is not a heist of [author] whose clock reading has
    reached [deadline]. *)
Definition before (author deadline : Z) (e : LedgerEvent) : Prop :=
  match e with
  | Heist a _ _ now_check _ _ _ => a = author -> now_check < deadline
  | Balance _ => True
  end.

(** Users 1 and 2 holding 30 and 5 points. *)
Definition thirty_and_five : GameData := mkGameData {[ 1 := 30; 2 := 5 ]} ∅.

End Ledger.

(** ** Puzzle generator ([shuffle_word]) *)

Module Puzzle.

Section Scramble.

(** Characters, [str.lower], and [random.shuffle] over generator states. *)
Context {char : Type} `{EqDecision char}.
Context {rng : Type}.
Variable lower : list char -> list char.
Variable random_shuffle : forall A : Type, rng -> list A -> list A * rng.

(** The [for _ in range(10)] loop of [shuffle_word] with [n] rounds left:
    [chars] is shuffled in place, the first candidate that differs from
    the word once both are lower-cased is returned, and when the rounds
    are used up the list is returned as the last shuffle left it. *)
Fixpoint shuffle_rounds (n : nat) (word chars : list char) (g : rng)
  : list char * rng :=
  match n with
  | O => (chars, g)
  | S n' =>
      let '(chars, g) := random_shuffle char g chars in
      let candidate := chars in
      if decide (lower candidate ≠ lower word) then (candidate, g)
      else shuffle_rounds n' word chars g
  end.

(** [shuffle_word]. *)
Definition shuffle_word (word : list char) (g : rng) : list char * rng :=
  let chars := word in
  if (length chars <? 2)%nat then (word, g)
  else shuffle_rounds 10 word chars g.

(** The shuffles the loop would produce if it never stopped early: each
    one shuffles the previous one. *)
Fixpoint attempts (n : nat) (chars : list char) (g : rng) : list (list char) :=
  match n with
  | O => []
  | S n' =>
      let '(chars, g) := random_shuffle char g chars in
      chars :: attempts n' chars g
  end.

(** A candidate is accepted when it differs case-insensitively. *)
Definition differs (word candidate : list char) : bool :=
  bool_decide (lower candidate ≠ lower word).

End Scramble.

(** 8-bit ASCII instance: [lower] maps A-Z to a-z. *)
Definition ascii_lower (c : ascii) : ascii :=
  let n := nat_of_ascii c in
  if ((65 <=? n) && (n <=? 90))%nat then ascii_of_nat (n + 32) else c.

Definition lower_ascii (s : list ascii) : list ascii := ascii_lower <$> s.

(** A scripted generator: each [true] reverses the list, each [false]
    leaves it as it is; an exhausted script leaves the list alone. *)
Definition scripted_shuffle (A : Type) (g : list bool) (l : list A)
  : list A * list bool :=
  match g with
  | true :: g' => (reverse l, g')
  | false :: g' => (l, g')
  | [] => (l, [])
  end.

End Puzzle.

(** ** Session registry (the four [*_active] dictionaries and their commands) *)

Module Registry.

Import Ledger.

Section Sessions.

(** Characters and the three string methods [clean_word] relies on. *)
Context {char : Type} `{Countable char}.
Variable str_lower : list char -> list char.
Variable str_strip : list char -> list char.
Variable isalpha : char -> bool.

(** The dictionaries stored for a word or image guess, a trivia question
    (an entry of [TRIVIA_BANK]) and a word chain. *)
Record GuessState := mkGuess { answer : list char; prompt_id : Z }.

Record TriviaQuestion := mkTrivia {
  question : list char;
  options : list (list char * list char);
  correct : list char
}.

Record ChainState := mkChain { chain_last : list char; chain_used : gset (list char) }.

(** [tebak_kata_active], [tebak_gambar_active], [trivia_active],
    [sambung_kata_active]: one dictionary per kind, keyed by channel id. *)
Record Sessions := mkSessions {
  tebak_kata_active : gmap Z GuessState;
  tebak_gambar_active : gmap Z GuessState;
  trivia_active : gmap Z TriviaQuestion;
  sambung_kata_active : gmap Z ChainState
}.

Definition no_sessions : Sessions := mkSessions ∅ ∅ ∅ ∅.

(** [tebak_kata]: [answer] is the word [random.choice] picked and
    [prompt] the id of the message the bot sent. *)
Definition tebak_kata (channel_id : Z) (answer : list char) (prompt : Z)
  (reg : Sessions) : Sessions :=
  mkSessions (<[channel_id := mkGuess (str_lower answer) prompt]> (tebak_kata_active reg))
    (tebak_gambar_active reg) (trivia_active reg) (sambung_kata_active reg).

(** [tebak_gambar]. *)
Definition tebak_gambar (channel_id : Z) (answer : list char) (prompt : Z)
  (reg : Sessions) : Sessions :=
  mkSessions (tebak_kata_active reg)
    (<[channel_id := mkGuess (str_lower answer) prompt]> (tebak_gambar_active reg))
    (trivia_active reg) (sambung_kata_active reg).

(** [trivia]: [q] is the entry [random.choice] picked. *)
Definition trivia (channel_id : Z) (q : TriviaQuestion) (reg : Sessions) : Sessions :=
  mkSessions (tebak_kata_active reg) (tebak_gambar_active reg)
    (<[channel_id := q]> (trivia_active reg)) (sambung_kata_active reg).

(** [sambung_kata]: [seed] is the word [random.choice] picked. *)
Definition sambung_kata (channel_id : Z) (seed : list char) (reg : Sessions) : Sessions :=
  mkSessions (tebak_kata_active reg) (tebak_gambar_active reg) (trivia_active reg)
    (<[channel_id := mkChain seed {[seed]}]> (sambung_kata_active reg)).

(** The four kinds behind one interface. *)
Inductive Kind := WordGuess | ImageGuess | Trivia | WordChain.

Inductive Session :=
  | SWord (s : GuessState)
  | SImage (s : GuessState)
  | STrivia (q : TriviaQuestion)
  | SChain (c : ChainState).

(** A start command as its handler runs.  [StartWord] and [StartImage]
    carry what [random.choice] picked and what became of the prompt: the
    id of the message that [ctx.send] (in a slash command
    [send_message] and [original_response]) returned, or [None] when that
    await raised.  [tebak_kata] and [tebak_gambar] assign after that
    await; [trivia] and [sambung_kata] assign before they send anything. *)
Inductive StartRequest :=
  | StartWord (answer : list char) (prompt : option Z)
  | StartImage (answer : list char) (prompt : option Z)
  | StartTrivia (q : TriviaQuestion)
  | StartChain (seed : list char).

Definition kind_of (req : StartRequest) : Kind :=
  match req with
  | StartWord _ _ => WordGuess
  | StartImage _ _ => ImageGuess
  | StartTrivia _ => Trivia
  | StartChain _ => WordChain
  end.

(** The state a start command assigns, when it gets to its assignment. *)
Definition session_of (req : StartRequest) : option Session :=
  match req with
  | StartWord a (Some p) => Some (SWord (mkGuess (str_lower a) p))
  | StartImage a (Some p) => Some (SImage (mkGuess (str_lower a) p))
  | StartWord _ None => None
  | StartImage _ None => None
  | StartTrivia q => Some (STrivia q)
  | StartChain seed => Some (SChain (mkChain seed {[seed]}))
  end.

(** How a start command ends: it assigned its session; it is a slash
    command used where there is no channel, says so and returns; or the
    await of its prompt raised, which ends the handler before the
    assignment. *)
Inductive StartOutcome :=
  | Stored
  | NoChannel
  | SendRaised.

(** The four start commands and their slash variants.  [channel] is the
    id of [ctx.channel], in a slash command that of [interaction.channel]
    ([None] when there is none); [reg] is the registry as the handler
    finds it at its assignment. *)
Definition start_session (channel : option Z) (req : StartRequest) (reg : Sessions)
  : StartOutcome * Sessions :=
  match channel with
  | None => (NoChannel, reg)
  | Some channel_id =>
      match req with
      | StartWord a (Some p) => (Stored, tebak_kata channel_id a p reg)
      | StartImage a (Some p) => (Stored, tebak_gambar channel_id a p reg)
      | StartWord _ None => (SendRaised, reg)
      | StartImage _ None => (SendRaised, reg)
      | StartTrivia q => (Stored, trivia channel_id q reg)
      | StartChain seed => (Stored, sambung_kata channel_id seed reg)
      end
  end.

Definition get_session (reg : Sessions) (channel_id : Z) (k : Kind) : option Session :=
  match k with
  | WordGuess => SWord <$> tebak_kata_active reg !! channel_id
  | ImageGuess => SImage <$> tebak_gambar_active reg !! channel_id
  | Trivia => STrivia <$> trivia_active reg !! channel_id
  | WordChain => SChain <$> sambung_kata_active reg !! channel_id
  end.

(** [clean_word]. *)
Definition clean_word (word : list char) : list char :=
  filter (fun ch => isalpha ch = true) (str_strip (str_lower word)).

(** What the [kata] command answers. [KataIndexError] stands for the
    exception [last_word[-1]] raises on an empty last word. *)
Inductive KataReply :=
  | NoGame
  | TooShort
  | AlreadyUsed
  | WrongStart (required : char)
  | Valid (cleaned : list char) (new_pts : Z)
  | KataIndexError.

(** [kata] (and [kata_slash], which differs in wording only). *)
Definition kata (channel_id author_id : Z) (word : list char)
  (reg : Sessions) (g : GameData) : KataReply * Sessions * GameData :=
  match sambung_kata_active reg !! channel_id with
  | None => (NoGame, reg, g)
  | Some state =>
      let last_word := chain_last state in
      let used_words := chain_used state in
      let cleaned := clean_word word in
      if (length cleaned <? 3)%nat then (TooShort, reg, g)
      else if decide (cleaned ∈ used_words) then (AlreadyUsed, reg, g)
      else
        match last last_word with
        | None => (KataIndexError, reg, g)
        | Some required =>
            if decide (head cleaned ≠ Some required) then (WrongStart required, reg, g)
            else
              let state := mkChain cleaned ({[cleaned]} ∪ used_words) in
              let reg :=
                mkSessions (tebak_kata_active reg) (tebak_gambar_active reg)
                  (trivia_active reg)
                  (<[channel_id := state]> (sambung_kata_active reg)) in
              let '(new_pts, g) := add_points author_id 2 g in
              (Valid cleaned new_pts, reg, g)
        end
  end.

(** The three rules a submitted word has to pass, on its normal form. *)
Definition long_enough (cleaned : list char) : Prop := (3 <= length cleaned)%nat.
Definition unused (state : ChainState) (cleaned : list char) : Prop :=
  cleaned ∉ chain_used state.
Definition continues (state : ChainState) (cleaned : list char) : Prop :=
  exists c, last (chain_last state) = Some c /\ head cleaned = Some c.

(** The reply that accepts a word. *)
Definition accepted (r : KataReply) : Prop :=
  match r with Valid _ _ => True | _ => False end.

(** What the answer commands reply. *)
Inductive AnswerReply :=
  | NoActiveGame
  | Correct (new_pts : Z)
  | Wrong.

(** [jawab_kata] (and [jawab_kata_slash]). *)
Definition jawab_kata (channel_id author_id : Z) (jawaban : list char)
  (reg : Sessions) (g : GameData) : AnswerReply * Sessions * GameData :=
  match tebak_kata_active reg !! channel_id with
  | None => (NoActiveGame, reg, g)
  | Some state =>
      if decide (str_lower (str_strip jawaban) = answer state) then
        let '(new_pts, g) := add_points author_id 10 g in
        (Correct new_pts,
         mkSessions (delete channel_id (tebak_kata_active reg))
           (tebak_gambar_active reg) (trivia_active reg) (sambung_kata_active reg),
         g)
      else (Wrong, reg, g)
  end.

(** [jawab_gambar] (and [jawab_gambar_slash]). *)
Definition jawab_gambar (channel_id author_id : Z) (jawaban : list char)
  (reg : Sessions) (g : GameData) : AnswerReply * Sessions * GameData :=
  match tebak_gambar_active reg !! channel_id with
  | None => (NoActiveGame, reg, g)
  | Some state =>
      if decide (str_lower (str_strip jawaban) = answer state) then
        let '(new_pts, g) := add_points author_id 10 g in
        (Correct new_pts,
         mkSessions (tebak_kata_active reg)
           (delete channel_id (tebak_gambar_active reg))
           (trivia_active reg) (sambung_kata_active reg),
         g)
      else (Wrong, reg, g)
  end.

(** [sambung_stop] (and [sambung_stop_slash]): whether a game was there,
    and the registry without it. *)
Definition sambung_stop (channel_id : Z) (reg : Sessions) : bool * Sessions :=
  match sambung_kata_active reg !! channel_id with
  | Some _ =>
      (true,
       mkSessions (tebak_kata_active reg) (tebak_gambar_active reg) (trivia_active reg)
         (delete channel_id (sambung_kata_active reg)))
  | None => (false, reg)
  end.

(** A series of [kata] commands in one channel, each with its author. *)
Fixpoint kata_many (channel_id : Z) (subs : list (Z * list char))
  (reg : Sessions) (g : GameData) : list KataReply * Sessions * GameData :=
  match subs with
  | [] => ([], reg, g)
  | (author, word) :: subs' =>
      let '(r, reg, g) := kata channel_id author word reg g in
      let '(rs, reg, g) := kata_many channel_id subs' reg g in
      (r :: rs, reg, g)
  end.

(** The words a series of replies accepted, in order. *)
Definition accepted_words (rs : list KataReply) : list (list char) :=
  omap (fun r => match r with Valid w _ => Some w | _ => None end) rs.

(** Each word starts with the last character of the one before it. *)
Fixpoint linked (prev : list char) (ws : list (list char)) : Prop :=
  match ws with
  | [] => True
  | w :: ws' => (exists c, last prev = Some c /\ head w = Some c) /\ linked w ws'
  end.

(** [build_word_clue]: the answer itself when it has at most 2
    characters, else the pieces of the f-string: the first character, the
    number of underscores, the last character and the length. *)
Inductive WordClue :=
  | Whole (word : list char)
  | Masked (first : char) (middle_len : Z) (last_char : char) (len : nat).

Definition build_word_clue (answer : list char) : WordClue :=
  if (length answer <=? 2)%nat then Whole answer
  else
    match head answer, last answer with
    | Some a, Some z =>
        Masked a (Z.max 0 (Z.of_nat (length answer) - 2)) z (length answer)
    | _, _ => Whole answer
    end.

(** What [clue] and [surrend] reply.  The image clue shows [answer[0]]
    ([None] stands for the [IndexError] on an empty answer) and the
    length. *)
Inductive PromptReply :=
  | ReplyToPrompt
  | WordClueShown (c : WordClue)
  | ImageClueShown (first : option char) (len : nat)
  | WordRevealed (word : list char)
  | ImageRevealed (word : list char)
  | NotActivePrompt.

(** [state and replied.id == state.get('prompt_id')]. *)
Definition is_prompt (replied_id : Z) (state : option GuessState) : option GuessState :=
  match state with
  | Some st => if decide (replied_id = prompt_id st) then Some st else None
  | None => None
  end.

(** [clue]; [replied] is what [get_replied_message] returns: the id of
    the message replied to and whether the bot is its author. *)
Definition clue (channel_id : Z) (replied : option (Z * bool)) (reg : Sessions)
  : PromptReply :=
  match replied with
  | Some (id, true) =>
      match is_prompt id (tebak_kata_active reg !! channel_id) with
      | Some st => WordClueShown (build_word_clue (answer st))
      | None =>
          match is_prompt id (tebak_gambar_active reg !! channel_id) with
          | Some st => ImageClueShown (head (answer st)) (length (answer st))
          | None => NotActivePrompt
          end
      end
  | _ => ReplyToPrompt
  end.

(** [surrend]. *)
Definition surrend (channel_id : Z) (replied : option (Z * bool)) (reg : Sessions)
  : PromptReply * Sessions :=
  match replied with
  | Some (id, true) =>
      match is_prompt id (tebak_kata_active reg !! channel_id) with
      | Some st =>
          (WordRevealed (answer st),
           mkSessions (delete channel_id (tebak_kata_active reg))
             (tebak_gambar_active reg) (trivia_active reg) (sambung_kata_active reg))
      | None =>
          match is_prompt id (tebak_gambar_active reg !! channel_id) with
          | Some st =>
              (ImageRevealed (answer st),
               mkSessions (tebak_kata_active reg)
                 (delete channel_id (tebak_gambar_active reg))
                 (trivia_active reg) (sambung_kata_active reg))
          | None => (NotActivePrompt, reg)
          end
      end
  | _ => (ReplyToPrompt, reg)
  end.

End Sessions.

(** 8-bit ASCII instance of the string methods. *)
Definition ascii_isalpha (c : ascii) : bool :=
  let n := nat_of_ascii c in
  ((65 <=? n) && (n <=? 90) || (97 <=? n) && (n <=? 122))%nat.

Definition ascii_isspace (c : ascii) : bool :=
  let n := nat_of_ascii c in
  ((9 <=? n) && (n <=? 13) || (28 <=? n) && (n <=? 32))%nat.

Fixpoint lstrip (s : list ascii) : list ascii :=
  match s with
  | c :: s' => if ascii_isspace c then lstrip s' else s
  | [] => []
  end.

Definition strip_ascii (s : list ascii) : list ascii :=
  reverse (lstrip (reverse (lstrip s))).

Definition chars (s : string) : list ascii := list_ascii_of_string s.

(** [clean_word] and [kata] at ASCII. *)
Definition clean_ascii : list ascii -> list ascii :=
  clean_word Puzzle.lower_ascii strip_ascii ascii_isalpha.

Definition kata_ascii :=
  kata (char := ascii) Puzzle.lower_ascii strip_ascii ascii_isalpha.

(** Channel 1 right after [sambung_kata] picked the seed "kata", and
    channel 1 holding a word guess whose answer is "python". *)
Definition chain_kata : Sessions (char := ascii) :=
  sambung_kata 1 (chars "kata") no_sessions.

Definition guess_python : Sessions (char := ascii) :=
  tebak_kata Puzzle.lower_ascii 1 (chars "python") 7 no_sessions.

End Registry.

(** ** Debate referee ([DebateSession], [debate_runner], the [debat_*] commands) *)

Module Debate.

Local Open Scope Z_scope.

Inductive Side := PRO | KONTRA.

Global Instance Side_eq_dec : EqDecision Side.
Proof. solve_decision. Defined.

(** The dataclass [DebateSession]. *)
Record DebateSession := mkSession {
  guild_id : Z;
  channel_id : Z;
  topic : string;
  turn_seconds : Z;
  rounds : Z;
  pro : list Z;
  kontra : list Z;
  points : list (Z * Side);
  running : bool
}.

Definition set_running (b : bool) (s : DebateSession) : DebateSession :=
  mkSession (guild_id s) (channel_id s) (topic s) (turn_seconds s) (rounds s)
    (pro s) (kontra s) (points s) b.

Definition set_rosters (p k : list Z) (s : DebateSession) : DebateSession :=
  mkSession (guild_id s) (channel_id s) (topic s) (turn_seconds s) (rounds s)
    p k (points s) (running s).

Definition add_point (uid : Z) (side : Side) (s : DebateSession) : DebateSession :=
  mkSession (guild_id s) (channel_id s) (topic s) (turn_seconds s) (rounds s)
    (pro s) (kontra s) (points s ++ [(uid, side)]) (running s).

Definition lineup (s : DebateSession) (side : Side) : list Z :=
  match side with PRO => pro s | KONTRA => kontra s end.

(** [_side_of_user]. *)
Definition _side_of_user (s : DebateSession) (uid : Z) : option Side :=
  if decide (uid ∈ pro s) then Some PRO
  else if decide (uid ∈ kontra s) then Some KONTRA
  else None.

(** What the runner sends to the channel, and its timed waits. *)
Inductive Message :=
  | MsgStart (topic : string) (turn_seconds : Z)
  | MsgTurn (r rounds : Z) (side : Side) (uid : Z) (turn_seconds : Z)
  | MsgFinish (pro_points kontra_points : nat).

Inductive Event :=
  | Send (m : Message)
  | Sleep (seconds : Z).

(** Where the coroutine [debate_runner] is suspended.  In the loop the
    runner remembers the round [r], the bound [R] of [range(1, rounds + 1)],
    the side whose list it iterates and the index [next] its list iterator
    will read next. *)
Inductive Pc :=
  | NotStarted
  | AwaitStart
  | AwaitTurn (r R : Z) (side : Side) (next : nat)
  | AwaitSleep (r R : Z) (side : Side) (next : nat)
  | AwaitFinish
  | Finished.

Global Instance Pc_eq_dec : EqDecision Pc.
Proof. solve_decision. Defined.

(** Entering round [r] with [rem] rounds after it: the first user of the
    first non-empty side, in this round or a later one. *)
Fixpoint scan_rounds (rem : nat) (s : DebateSession) (r : Z)
  : option (Z * Side * nat * Z) :=
  match pro s !! 0%nat with
  | Some uid => Some (r, PRO, 0%nat, uid)
  | None =>
      match kontra s !! 0%nat with
      | Some uid => Some (r, KONTRA, 0%nat, uid)
      | None =>
          match rem with
          | O => None
          | S rem' => scan_rounds rem' s (r + 1)
          end
      end
  end.

Definition enter_round (s : DebateSession) (r R : Z) : option (Z * Side * nat * Z) :=
  if r <=? R then scan_rounds (Z.to_nat (R - r)) s r else None.

(** The three nested [for] loops as an iterator: the next
    [(r, side, index, uid)] from position [idx] of [side] in round [r];
    [None] when the loops are exhausted.  The lists are read as they are
    when the iterator advances, as Python's list iterator does. *)
Definition next_turn (s : DebateSession) (r R : Z) (side : Side) (idx : nat)
  : option (Z * Side * nat * Z) :=
  match lineup s side !! idx with
  | Some uid => Some (r, side, idx, uid)
  | None =>
      match side with
      | PRO =>
          match kontra s !! 0%nat with
          | Some uid => Some (r, KONTRA, 0%nat, uid)
          | None => enter_round s (r + 1) R
          end
      | KONTRA => enter_round s (r + 1) R
      end
  end.

Definition count_side (side : Side) (s : DebateSession) : nat :=
  length (filter (fun p => p.2 = side) (points s)).

(** The code after the loops: clear the flag, count, announce. *)
Definition finish (s : DebateSession) : DebateSession * Pc * list Event :=
  (set_running false s, AwaitFinish,
   [Send (MsgFinish (count_side PRO s) (count_side KONTRA s))]).

(** The body of the innermost loop up to its first [await], or the code
    after the loops. *)
Definition turn_or_finish (s : DebateSession) (R : Z)
  (nxt : option (Z * Side * nat * Z)) : DebateSession * Pc * list Event :=
  match nxt with
  | Some (r, side, idx, uid) =>
      if running s then
        (s, AwaitTurn r R side (S idx),
         [Send (MsgTurn r (rounds s) side uid (turn_seconds s))])
      else (s, Finished, [])
  | None => finish s
  end.

(** One resumption of [debate_runner]: the code from one [await] to the
    next.  [found] says whether [bot.get_channel] returned a channel. *)
Definition runner_step (found : bool) (s : DebateSession) (pc : Pc)
  : DebateSession * Pc * list Event :=
  match pc with
  | NotStarted =>
      if found then
        (set_running true s, AwaitStart,
         [Send (MsgStart (topic s) (turn_seconds s))])
      else (s, Finished, [])
  | AwaitStart => turn_or_finish s (rounds s) (enter_round s 1 (rounds s))
  | AwaitTurn r R side next => (s, AwaitSleep r R side next, [Sleep (turn_seconds s)])
  | AwaitSleep r R side next => turn_or_finish s R (next_turn s r R side next)
  | AwaitFinish => (s, Finished, [])
  | Finished => (s, Finished, [])
  end.

(** A runner left alone: [n] resumptions in a row, with the events in
    the order they were issued. *)
Fixpoint run_alone (n : nat) (s : DebateSession) (pc : Pc)
  : DebateSession * Pc * list Event :=
  match n with
  | O => (s, pc, [])
  | S n' =>
      let '(s1, pc1, ev1) := runner_step true s pc in
      let '(s2, pc2, ev2) := run_alone n' s1 pc1 in
      (s2, pc2, ev1 ++ ev2)
  end.

(** The turn sequence written as the three nested loops. *)
Definition side_turns (s : DebateSession) (r : Z) (side : Side) : list Event :=
  uid ← lineup s side;
  [Send (MsgTurn r (rounds s) side uid (turn_seconds s)); Sleep (turn_seconds s)].

Definition round_turns (s : DebateSession) (r : Z) : list Event :=
  side_turns s r PRO ++ side_turns s r KONTRA.

Definition all_turns (s : DebateSession) : list Event :=
  r ← seqZ 1 (rounds s); round_turns s r.

Definition is_turn (e : Event) : bool :=
  match e with Send (MsgTurn _ _ _ _ _) => true | _ => false end.

(** An [asyncio.Task] running [debate_runner(session)]: the session
    object it holds, where it is suspended, and whether [cancel()] has
    been called on it. *)
Record Task := mkTask { t_session : nat; t_pc : Pc; t_cancel : bool }.

(** [task.done()]. *)
Definition done (t : Task) : bool := bool_decide (t_pc t = Finished).

(** The shared state: session objects by identity, the two module-level
    dictionaries, the tasks the event loop holds, and what the runners
    have emitted so far, each event with the task that issued it. *)
Record World := mkWorld {
  heap : list DebateSession;
  debate_sessions : gmap Z nat;
  debate_tasks : gmap Z nat;
  tasks : list Task;
  log : list (nat * Event)
}.

Definition init : World := mkWorld [] ∅ ∅ [] [].

Inductive Reply :=
  | BadParameters
  | SessionCreated
  | NoSession
  | AlreadyRunning
  | BadSide
  | Joined (side : Side)
  | NeedBothSides
  | TimerStarted
  | NotJoined
  | PointLogged (side : Side)
  | Stopped.

(** [debat_mulai]. *)
Definition debat_mulai (ch guild secs nrounds : Z) (title : string) (w : World)
  : Reply * World :=
  if (secs <? 10) || (nrounds <? 1) then (BadParameters, w)
  else
    let s := mkSession guild ch title secs nrounds [] [] [] false in
    (SessionCreated,
     mkWorld (heap w ++ [s]) (<[ch := length (heap w)]> (debate_sessions w))
       (debate_tasks w) (tasks w) (log w)).

(** The session the dictionary holds for a channel, with its identity. *)
Definition session_at (w : World) (ch : Z) : option (nat * DebateSession) :=
  match debate_sessions w !! ch with
  | Some l => match heap w !! l with Some s => Some (l, s) | None => None end
  | None => None
  end.

Definition store (l : nat) (s : DebateSession) (w : World) : World :=
  mkWorld (<[l := s]> (heap w)) (debate_sessions w) (debate_tasks w) (tasks w) (log w).

(** [list.remove(x)] guarded by [x in list]. *)
Fixpoint remove_first (x : Z) (l : list Z) : list Z :=
  match l with
  | [] => []
  | y :: l' => if decide (x = y) then l' else y :: remove_first x l'
  end.

(** [debat_join]; [side] is [Some] of the side that [side.lower().strip()]
    names, [None] when it is neither 'pro' nor 'kontra'. *)
Definition debat_join (ch author : Z) (side : option Side) (w : World)
  : Reply * World :=
  match session_at w ch with
  | None => (NoSession, w)
  | Some (l, s) =>
      if running s then (AlreadyRunning, w)
      else
        match side with
        | None => (BadSide, w)
        | Some sd =>
            let p := remove_first author (pro s) in
            let k := remove_first author (kontra s) in
            let s :=
              match sd with
              | PRO => set_rosters (p ++ [author]) k s
              | KONTRA => set_rosters p (k ++ [author]) s
              end in
            (Joined sd, store l s w)
        end
  end.

(** [task.cancel()] on the task a channel is registered with, when there
    is one and it is not done. *)
Definition cancel_task (ch : Z) (w : World) : World :=
  match debate_tasks w !! ch with
  | Some tid =>
      match tasks w !! tid with
      | Some t =>
          if done t then w
          else mkWorld (heap w) (debate_sessions w) (debate_tasks w)
                 (<[tid := mkTask (t_session t) (t_pc t) true]> (tasks w)) (log w)
      | None => w
      end
  | None => w
  end.

(** [debat_start]. *)
Definition debat_start (ch : Z) (w : World) : Reply * World :=
  match session_at w ch with
  | None => (NoSession, w)
  | Some (l, s) =>
      if running s then (AlreadyRunning, w)
      else if bool_decide (pro s = []) || bool_decide (kontra s = []) then
        (NeedBothSides, w)
      else
        let w := cancel_task ch w in
        (TimerStarted,
         mkWorld (heap w) (debate_sessions w)
           (<[ch := length (tasks w)]> (debate_tasks w))
           (tasks w ++ [mkTask l NotStarted false]) (log w))
  end.

(** [debat_poin]. *)
Definition debat_poin (ch author : Z) (w : World) : Reply * World :=
  match session_at w ch with
  | None => (NoSession, w)
  | Some (l, s) =>
      match _side_of_user s author with
      | None => (NotJoined, w)
      | Some side => (PointLogged side, store l (add_point author side s) w)
      end
  end.

(** [debat_stop]. *)
Definition debat_stop (ch : Z) (w : World) : Reply * World :=
  match session_at w ch with
  | None => (NoSession, w)
  | Some (l, s) =>
      let w := store l (set_running false s) w in
      let w := cancel_task ch w in
      (Stopped,
       mkWorld (heap w) (delete ch (debate_sessions w)) (debate_tasks w)
         (tasks w) (log w))
  end.

Definition set_pc (tid : nat) (t : Task) (pc : Pc) (w : World) : World :=
  mkWorld (heap w) (debate_sessions w) (debate_tasks w)
    (<[tid := mkTask (t_session t) pc (t_cancel t)]> (tasks w)) (log w).

(** The event loop resumes task [tid].  A task whose cancellation was
    requested gets [CancelledError] at the [await] it is suspended in (or
    before its first statement); [debate_runner] does not catch it, so
    the task ends there without running any of its code. *)
Definition resume (tid : nat) (found : bool) (w : World) : World :=
  match tasks w !! tid with
  | None => w
  | Some t =>
      if done t then w
      else if t_cancel t then set_pc tid t Finished w
      else
        match heap w !! t_session t with
        | None => w
        | Some s =>
            let '(s', pc', evs) := runner_step found s (t_pc t) in
            mkWorld (<[t_session t := s']> (heap w)) (debate_sessions w)
              (debate_tasks w)
              (<[tid := mkTask (t_session t) pc' (t_cancel t)]> (tasks w))
              (log w ++ ((fun e => (tid, e)) <$> evs))
        end
  end.

(** The [await] a task is suspended in raises (a failed send): the
    exception leaves [debate_runner] and the task is done. *)
Definition fail (tid : nat) (w : World) : World :=
  match tasks w !! tid with
  | None => w
  | Some t =>
      match t_pc t with
      | NotStarted | Finished => w
      | _ => set_pc tid t Finished w
      end
  end.

(** What can happen next: a command handler runs (each one changes the
    shared state before its only [await], so it is one step), or the
    event loop resumes a runner. *)
Inductive Action :=
  | Mulai (ch guild secs nrounds : Z) (title : string)
  | Join (ch author : Z) (side : option Side)
  | Start (ch : Z)
  | Poin (ch author : Z)
  | Stop (ch : Z)
  | Resume (tid : nat) (found : bool)
  | Fail (tid : nat).

Definition exec (a : Action) (w : World) : World :=
  match a with
  | Mulai ch guild secs nrounds title => (debat_mulai ch guild secs nrounds title w).2
  | Join ch author side => (debat_join ch author side w).2
  | Start ch => (debat_start ch w).2
  | Poin ch author => (debat_poin ch author w).2
  | Stop ch => (debat_stop ch w).2
  | Resume tid found => resume tid found w
  | Fail tid => fail tid w
  end.

Definition run (acts : list Action) (w : World) : World :=
  foldl (fun w a => exec a w) w acts.

(** A task that can still run code of [debate_runner]. *)
Definition alive (w : World) (tid : nat) : bool :=
  match tasks w !! tid with
  | Some t => negb (done t) && negb (t_cancel t)
  | None => false
  end.

(** The channel a task's session belongs to. *)
Definition task_channel (w : World) (tid : nat) : option Z :=
  match tasks w !! tid with
  | Some t => channel_id <$> heap w !! t_session t
  | None => None
  end.

(** What task [tid] has emitted so far, in order. *)
Definition emitted_by (tid : nat) (w : World) : list Event :=
  snd <$> filter (fun p => p.1 = tid) (log w).

(** Every registered session is an object of its channel. *)
Definition sessions_registered (w : World) : Prop :=
  forall ch l, debate_sessions w !! ch = Some l ->
               exists s, heap w !! l = Some s /\ channel_id s = ch.

(** Every task that can still run is the one [debate_tasks] holds for
    the channel of its session. *)
Definition runners_registered (w : World) : Prop :=
  forall tid, alive w tid = true ->
              exists ch, task_channel w tid = Some ch /\ debate_tasks w !! ch = Some tid.

(** What no step undoes: an object stays where it is and keeps its
    channel, a task keeps its session, a finished task stays finished and a
    requested cancellation stays requested. *)
Definition extends (w w' : World) : Prop :=
  (forall l s, heap w !! l = Some s ->
               exists s', heap w' !! l = Some s' /\ channel_id s' = channel_id s) /\
  (forall tid t, tasks w !! tid = Some t ->
                 exists t', tasks w' !! tid = Some t' /\
                            t_session t' = t_session t /\
                            (done t = true -> done t' = true) /\
                            (t_cancel t = true -> t_cancel t' = true)).

(** Two debates in channel 1: the first is started and emits its start
    announcement and one turn; then the session is redefined, joined and
    started again while the first runner (task 0) is still suspended;
    both tasks are resumed afterwards. *)
Definition two_starts : list Action :=
  [Mulai 1 9 30 2 "satu"; Join 1 101 (Some PRO); Join 1 102 (Some KONTRA);
   Start 1; Resume 0 true; Resume 0 true;
   Mulai 1 9 30 1 "dua"; Join 1 103 (Some PRO); Join 1 104 (Some KONTRA);
   Start 1].

Definition after_two_starts : list Action :=
  [Resume 0 true; Resume 1 true; Resume 0 true; Resume 1 true; Resume 1 true].

Definition opposite (side : Side) : Side :=
  match side with PRO => KONTRA | KONTRA => PRO end.

(** A session with nobody twice on a side, nobody on both sides, and
    the parameters that [debat_mulai] accepts. *)
Definition well_formed (s : DebateSession) : Prop :=
  NoDup (pro s) /\ NoDup (kontra s) /\
  (forall uid, uid ∈ pro s -> uid ∉ kontra s) /\
  10 <= turn_seconds s /\ 1 <= rounds s.

Definition sessions_well_formed (w : World) : Prop :=
  forall l s, heap w !! l = Some s -> well_formed s.

(** No task that can still run holds the session object [l]. *)
Definition no_runner (w : World) (l : nat) : Prop :=
  forall tid t, tasks w !! tid = Some t -> t_session t = l -> alive w tid = false.

(** Every action but [debat_stop] and [debat_mulai] in channel [ch]. *)
Definition keeps_session (ch : Z) (a : Action) : bool :=
  match a with
  | Mulai c _ _ _ _ => negb (bool_decide (c = ch))
  | Stop c => negb (bool_decide (c = ch))
  | _ => true
  end.

(** A debate in channel 1 whose runner announces the start and then
    fails in its next send. *)
Definition failed_start : list Action :=
  [Mulai 1 9 30 2 "satu"; Join 1 101 (Some PRO); Join 1 102 (Some KONTRA);
   Start 1; Resume 0 true; Fail 0].


End Debate.

(** ** Mood detector ([record_mood], [mood_summary], [dominant_mood]) *)

Module Mood.

Local Open Scope Z_scope.

(** The counters [mood_data] keeps for one guild and one day; also the
    [Counter]s of [record_mood] (which has no 'messages' key: 0 here) and
    of [mood_summary]. *)
Record Counts := mkCounts {
  positive : Z;
  neutral : Z;
  negative : Z;
  toxic : Z;
  messages : Z
}.

Definition zero : Counts := mkCounts 0 0 0 0 0.

(** [mood_data]: guild id, then the day (the UTC date, as a day number),
    then the counters. *)
Definition MoodData := gmap Z (gmap Z Counts).

Section Detector.

Context {char : Type} `{EqDecision char}.
Variable str_lower : list char -> list char.
(** The characters of a string literal of the source. *)
Variable literal : string -> list char.

Definition POSITIVE_WORDS : list (list char) :=
  literal <$> ["mantap"; "bagus"; "keren"; "thanks"; "thank you"; "makasih"; "wkwk";
               "haha"; "lucu"; "senang"; "happy"; "gas"; "nice"; "good"; "great"]%string.

Definition NEGATIVE_WORDS : list (list char) :=
  literal <$> ["sedih"; "cape"; "capek"; "bad"; "jelek"; "kesal"; "marah";
               "kecewa"; "susah"; "anjir"; "aduh"]%string.

Definition TOXIC_WORDS : list (list char) :=
  literal <$> ["tolol"; "goblok"; "anjing"; "bangsat"; "kontol"; "memek"]%string.

(** [w in text] on strings: [w] occurs in [text] as a contiguous run. *)
Fixpoint contains (w text : list char) : bool :=
  match text with
  | [] => bool_decide (w = [])
  | _ :: rest => bool_decide (w `prefix_of` text) || contains w rest
  end.

(** [for w in words: if w in text_low: score[k] += 1]. *)
Definition hits (words : list (list char)) (text_low : list char) : Z :=
  foldl (fun n w => if contains w text_low then n + 1 else n) 0 words.

(** The [Counter] [score] that [record_mood] builds for a text. *)
Definition score (text : list char) : Counts :=
  let text_low := str_lower text in
  let p := hits POSITIVE_WORDS text_low in
  let n := hits NEGATIVE_WORDS text_low in
  let t := hits TOXIC_WORDS text_low in
  mkCounts p (if (p =? 0) && (n =? 0) && (t =? 0) then 1 else 0) n t 0.

(** The five [+=] of [record_mood] on a day's counters. *)
Definition tally (d sc : Counts) : Counts :=
  mkCounts (positive d + positive sc) (neutral d + neutral sc)
    (negative d + negative sc) (toxic d + toxic sc) (messages d + 1).

(** [record_mood] when [_today_key()] gives [today]. *)
Definition record_mood (today guild_id : Z) (text : list char) (mood_data : MoodData)
  : MoodData :=
  let sc := score text in
  let by_day := default ∅ (mood_data !! guild_id) in
  let d := default zero (by_day !! today) in
  <[guild_id := <[today := tally d sc]> by_day]> mood_data.

(** The messages of guilds that [on_message] records, each with the day
    it arrives on, in order. *)
Definition record_all (msgs : list (Z * Z * list char)) (mood_data : MoodData)
  : MoodData :=
  foldl (fun data m => record_mood m.1.1 m.1.2 m.2 data) mood_data msgs.

End Detector.

(** [n] messages of score [sc] tallied on [s]. *)
Fixpoint tally_times (n : nat) (s sc : Counts) : Counts :=
  match n with
  | O => s
  | S n' => tally (tally_times n' s sc) sc
  end.

(** The five [out[k] += int(day_data.get(k, 0))] of [mood_summary]. *)
Definition plus (out day_data : Counts) : Counts :=
  mkCounts (positive out + positive day_data) (neutral out + neutral day_data)
    (negative out + negative day_data) (toxic out + toxic day_data)
    (messages out + messages day_data).

(** The date [mood_summary] looks up in iteration [i].  The clock is read
    in every iteration: [clock i] is the day of the reading of iteration
    [i], as the ordinal of its UTC date (1 for 0001-01-01).  [None] stands
    for the [OverflowError] that [timedelta(days=i)] raises above 999999999
    days and that the subtraction raises when the date would lie before
    year 1. *)
Definition day_back (clock : Z -> Z) (i : Z) : option Z :=
  if (999999999 <? i) || (clock i - i <? 1) then None else Some (clock i - i).

(** The loop of [mood_summary] over the values [offsets] of [i]; an
    exception in an iteration ends the call. *)
Fixpoint sum_days (by_day : gmap Z Counts) (clock : Z -> Z) (offsets : list Z)
  (out : Counts) : option Counts :=
  match offsets with
  | [] => Some out
  | i :: offsets =>
      match day_back clock i with
      | None => None
      | Some day =>
          sum_days by_day clock offsets
            (match by_day !! day with
             | Some day_data => plus out day_data
             | None => out
             end)
      end
  end.

(** [mood_summary]; [None] is the [OverflowError] of the loop.  A guild
    without data gets its zeros before the loop. *)
Definition mood_summary (clock : Z -> Z) (guild_id days : Z) (mood_data : MoodData)
  : option Counts :=
  match mood_data !! guild_id with
  | None => Some zero
  | Some by_day => sum_days by_day clock (seqZ 0 (Z.max 1 days)) zero
  end.

(** No iteration of the loop overflows. *)
Definition in_range (clock : Z -> Z) (days : Z) : Prop :=
  forall i, 0 <= i < Z.max 1 days -> i <= 999999999 /\ 1 <= clock i - i.

(** The days the loop looks up, in order, when no iteration overflows. *)
Definition days_visited (clock : Z -> Z) (days : Z) : list Z :=
  (fun i => clock i - i) <$> seqZ 0 (Z.max 1 days).

(** How often the loop looks up the day [day]. *)
Definition visits (clock : Z -> Z) (days day : Z) : nat :=
  length (filter (fun d => d = day) (days_visited clock days)).

(** The counters of a list of days added to [out]. *)
Definition sum_over (by_day : gmap Z Counts) (days : list Z) (out : Counts) : Counts :=
  foldl (fun out day =>
           match by_day !! day with
           | Some day_data => plus out day_data
           | None => out
           end) out days.

(** A clock that reads day 20000 in the first iteration and day 20001,
    after midnight, from the second on. *)
Definition over_midnight (i : Z) : Z := if i <? 1 then 20000 else 20001.

(** The keys of [base] in [dominant_mood], in the order of the dict. *)
Inductive Class := Positive | Neutral | Negative | Toxic.

Inductive Label := POSITIF | NETRAL | NEGATIF | TOXIC.

Definition base (data : Counts) (k : Class) : Z :=
  match k with
  | Positive => positive data
  | Neutral => neutral data
  | Negative => negative data
  | Toxic => toxic data
  end.

(** [max(items, key=key)] on [first :: rest]: an item replaces the best
    one so far only when its key is greater. *)
Definition max_by {A : Type} (key : A -> Z) (first : A) (rest : list A) : A :=
  foldl (fun best x => if key best <? key x then x else best) first rest.

Definition mapping (k : Class) : Label :=
  match k with
  | Positive => POSITIF
  | Neutral => NETRAL
  | Negative => NEGATIF
  | Toxic => TOXIC
  end.

Definition dominant_mood (data : Counts) : Label :=
  mapping (max_by (base data) Positive [Neutral; Negative; Toxic]).

(** [total] of [mood_cmd]: the divisor of the percentages. *)
Definition total (data : Counts) : Z :=
  Z.max 1 (positive data + neutral data + negative data + toxic data).

(** The counters of a day on which messages were recorded: [words] is
    the number of listed words. *)
Definition counted (words : Z) (d : Counts) : Prop :=
  0 <= positive d /\ 0 <= neutral d /\ 0 <= negative d /\ 0 <= toxic d /\
  0 <= messages d /\ neutral d <= messages d /\
  messages d <= positive d + neutral d + negative d + toxic d /\
  positive d + neutral d + negative d + toxic d <= words * messages d.

(** Every day entry of the store holds the counters of at least one
    recorded message. *)
Definition recorded (mood_data : MoodData) : Prop :=
  forall g by_day day d,
    mood_data !! g = Some by_day -> by_day !! day = Some d ->
    counted 32 d /\ 1 <= messages d.

(** ASCII instance. *)
Definition record_ascii : list (Z * Z * list ascii) -> MoodData -> MoodData :=
  record_all Puzzle.lower_ascii Registry.chars.

Definition score_ascii : list ascii -> Counts :=
  score Puzzle.lower_ascii Registry.chars.

End Mood.

(** * Properties *)

(** ** Card engine *)

Module CardsTheory.

Import Cards.
Local Open Scope Z_scope.

(** The loop over the cards adds up [value] and counts the aces. *)
Lemma sum_cards_app (cs : list Card) (c : Card) :
  sum_cards (cs ++ [c]) =
  ((sum_cards cs).1 + value c, if is_ace c then S (sum_cards cs).2 else (sum_cards cs).2).
Proof.
  unfold sum_cards. rewrite foldl_app. simpl.
  destruct (foldl _ _ cs) as [t a]. simpl.
  destruct c as [s r]. destruct r; reflexivity.
Qed.

Lemma sum_cards_total (cs : list Card) :
  (sum_cards cs).1 = foldr Z.add 0 (value <$> cs).
Proof.
  induction cs as [|c cs IH] using rev_ind; [reflexivity|].
  rewrite sum_cards_app, fmap_app, foldr_app. simpl. rewrite IH.
  generalize (value c). generalize (value <$> cs). clear.
  intros l. induction l as [|x l IH]; intros v; simpl; [lia|].
  rewrite <- IH. lia.
Qed.

Lemma sum_cards_aces (cs : list Card) :
  (sum_cards cs).2 = length (filter (fun c => is_ace c = true) cs).
Proof.
  induction cs as [|c cs IH] using rev_ind; [reflexivity|].
  rewrite sum_cards_app, filter_app, length_app. simpl. rewrite IH.
  rewrite filter_cons, filter_nil.
  destruct (is_ace c) eqn:E; case_decide; simpl; try congruence; lia.
Qed.

(** The adjustment loop subtracts 10 once per ace it uses, stops as soon
    as the total is at most 21, and otherwise runs out of aces. *)
Lemma adjust_aces_spec (total : Z) (aces : nat) :
  exists k : nat,
    (k <= aces)%nat /\
    adjust_aces total aces = (total - 10 * Z.of_nat k, (aces - k)%nat) /\
    (total - 10 * Z.of_nat k <= 21 \/ k = aces) /\
    (forall j : nat, (j < k)%nat -> 21 < total - 10 * Z.of_nat j).
Proof.
  revert total. induction aces as [|a IH]; intros total.
  - exists 0%nat. simpl. repeat split; try lia. f_equal. lia.
  - simpl. destruct (21 <? total) eqn:E.
    + apply Z.ltb_lt in E.
      destruct (IH (total - 10)) as (k & Hk & Heq & Hstop & Hmin).
      exists (S k). repeat split; try lia.
      * rewrite Heq. f_equal. lia.
      * intros j Hj. destruct j as [|j]; [lia|].
        specialize (Hmin j ltac:(lia)). lia.
    + apply Z.ltb_ge in E. exists 0%nat. repeat split; try lia.
      f_equal. lia.
Qed.

(** The total that [calculate_hand_value] reports is the adjusted one. *)
Lemma calculate_hand_value_total (cs : list Card) :
  (calculate_hand_value cs).1 = (adjusted cs).1.
Proof.
  unfold calculate_hand_value. destruct (adjusted cs) as [t a]. reflexivity.
Qed.

(** The flag that [calculate_hand_value] reports is set only on totals of
    at most 11. *)
Lemma soft_flag_total (cs : list Card) :
  (calculate_hand_value cs).2 = true -> (calculate_hand_value cs).1 <= 11.
Proof.
  unfold calculate_hand_value. destruct (adjusted cs) as [t a]. simpl.
  intros Hs. apply andb_true_iff in Hs as [_ Hs]. apply Z.leb_le in Hs. lia.
Qed.

(** So the second disjunct of the dealer's loop condition never holds. *)
Lemma soft_17_never_reported (cs : list Card) :
  let '(v, soft) := calculate_hand_value cs in (v =? 17) && soft = false.
Proof.
  pose proof (soft_flag_total cs) as Hs.
  destruct (calculate_hand_value cs) as [v soft]. simpl in *.
  destruct soft; [|apply andb_false_r].
  specialize (Hs eq_refl). rewrite andb_true_r. apply Z.eqb_neq. lia.
Qed.

(** Every card counts at least 2, an ace 11. *)
Lemma sum_cards_bound (cs : list Card) :
  ((sum_cards cs).2 <= length cs)%nat /\
  11 * Z.of_nat (sum_cards cs).2
    + 2 * (Z.of_nat (length cs) - Z.of_nat (sum_cards cs).2) <= (sum_cards cs).1.
Proof.
  induction cs as [|c cs [IHa IHt]] using rev_ind; [simpl; lia|].
  rewrite sum_cards_app, length_app. simpl.
  destruct c as [su r]. destruct r; cbn [is_ace value rank rank_number]; lia.
Qed.

(** On a hand of two or more cards the flag is never set: an ace still
    counted as 11 next to any other card makes the total at least 12. *)
Lemma soft_flag_never_set (cs : list Card) :
  (2 <= length cs)%nat -> (calculate_hand_value cs).2 = false.
Proof.
  intros Hlen. destruct (calculate_hand_value cs).2 eqn:Hsoft; [|reflexivity].
  exfalso. pose proof (soft_flag_total cs Hsoft) as Htot.
  revert Hsoft Htot. unfold calculate_hand_value, adjusted.
  destruct (sum_cards_bound cs) as [Ha Ht].
  destruct (sum_cards cs) as [t a]. simpl in Ha, Ht.
  destruct (adjust_aces_spec t a) as (k & Hk & -> & _ & _). simpl.
  intros Hs Htot. apply andb_true_iff in Hs as [Hs _]. apply Z.ltb_lt in Hs. lia.
Qed.

(** C2: on the hand {A, 6} the adjustment leaves the total at 17 with the
    ace still counted as 11, yet [calculate_hand_value] reports the hand
    as not soft. *)
Theorem calculate_hand_value_ace_six (s1 s2 : Suit) :
  adjusted [mkCard s1 RA; mkCard s2 R6] = (17, 1%nat) /\
  calculate_hand_value [mkCard s1 RA; mkCard s2 R6] = (17, false).
Proof. split; reflexivity. Qed.

Section Dealer.

Context {rng : Type}.
Variable random_shuffle : forall A : Type, rng -> list A -> list A * rng.

(** Whenever the dealer's loop ends, the reported total is at least 17. *)
Lemma dealer_stops_at_17 (fuel : nat) (d d' : Deck) (hand hand' : list Card) :
  dealer_draws random_shuffle fuel d hand = Some (d', hand') ->
  17 <= (calculate_hand_value hand').1.
Proof.
  revert d hand. induction fuel as [|fuel IH]; intros d hand; simpl;
    destruct (calculate_hand_value hand) as [v soft] eqn:Hv;
    destruct (v <? 17) eqn:Hlt; simpl.
  - discriminate.
  - destruct ((v =? 17) && soft); [discriminate|].
    intros [= <- <-]. rewrite Hv. simpl. apply Z.ltb_ge in Hlt. exact Hlt.
  - destruct (draw random_shuffle d) as [[c d1]|]; [apply IH|discriminate].
  - destruct ((v =? 17) && soft).
    + destruct (draw random_shuffle d) as [[c d1]|]; [apply IH|discriminate].
    + intros [= <- <-]. rewrite Hv. simpl. apply Z.ltb_ge in Hlt. exact Hlt.
Qed.

(** C1: a dealer holding {A, 6} (17 with the ace counted as 11) draws no
    card: [play_dealer] leaves the deck and the dealer's hand as they are
    and goes straight to the comparison. *)
Theorem play_dealer_ace_six (fuel : nat) (pid : Z) (d : Deck)
  (player : list Card) (over : bool) (res : option Outcome) (s1 s2 : Suit) :
  let hand := [mkCard s1 RA; mkCard s2 R6] in
  play_dealer random_shuffle fuel (mkGame pid d player hand over res) =
  Some (mkGame pid d player hand over (Some (compare_hands player hand))).
Proof. destruct fuel; reflexivity. Qed.

End Dealer.

End CardsTheory.

(** ** Economy ledger *)

Module LedgerTheory.

Import Ledger.
Local Open Scope Z_scope.

Lemma setdefault_lookup {V} (k j : Z) (v : V) (m : gmap Z V) :
  setdefault k v m !! j =
  if decide (k = j) then Some (default v (m !! k)) else m !! j.
Proof.
  unfold setdefault. destruct (m !! k) as [x|] eqn:E.
  - case_decide; subst; simpl; congruence.
  - rewrite lookup_insert. case_decide; reflexivity.
Qed.

(** The balance read by [get_points] is the stored one, 0 for an unseen
    account. *)
Lemma balance_lookup (g : GameData) (u : Z) :
  balance g u = default 0 (points g !! u).
Proof.
  unfold balance, get_points, points_of, ensure_user_data. simpl.
  rewrite setdefault_lookup. case_decide; [|congruence].
  destruct (points g !! u); reflexivity.
Qed.

Lemma points_of_ensure (g : GameData) (u v : Z) :
  points_of (ensure_user_data u g) v = balance g v.
Proof.
  rewrite balance_lookup. unfold points_of, ensure_user_data. simpl.
  rewrite setdefault_lookup.
  case_decide; subst; [|reflexivity]. destruct (points g !! v); reflexivity.
Qed.

Lemma balance_ensure (g : GameData) (u v : Z) :
  balance (ensure_user_data u g) v = balance g v.
Proof.
  rewrite !balance_lookup. unfold ensure_user_data. simpl.
  rewrite setdefault_lookup. case_decide; subst; [|reflexivity].
  destruct (points g !! v); reflexivity.
Qed.

Lemma points_of_balance (g : GameData) (u : Z) :
  is_Some (points g !! u) -> points_of g u = balance g u.
Proof.
  intros _. rewrite balance_lookup. reflexivity.
Qed.

Lemma points_of_set (g : GameData) (u v x : Z) :
  points_of (set_points u x g) v = if decide (u = v) then x else points_of g v.
Proof.
  unfold points_of, set_points. simpl. rewrite lookup_insert.
  case_decide; reflexivity.
Qed.

Lemma balance_set (g : GameData) (u v x : Z) :
  balance (set_points u x g) v = if decide (u = v) then x else balance g v.
Proof.
  rewrite !balance_lookup. unfold set_points. simpl. rewrite lookup_insert.
  case_decide; reflexivity.
Qed.

(** [get_points] reports the balance and changes no balance. *)
Lemma get_points_spec (g : GameData) (u : Z) :
  (get_points u g).1 = balance g u /\
  forall v, balance (get_points u g).2 v = balance g v.
Proof. split; [reflexivity|]. intros v. apply balance_ensure. Qed.

(** [add_points] returns and stores [max(0, old + amount)] and changes no
    other balance. *)
Lemma add_points_spec (g : GameData) (u amount : Z) :
  (add_points u amount g).1 = Z.max 0 (balance g u + amount) /\
  forall v, balance (add_points u amount g).2 v =
            if decide (u = v) then Z.max 0 (balance g u + amount) else balance g v.
Proof.
  unfold add_points. simpl. split.
  - rewrite points_of_set, points_of_ensure. case_decide; congruence.
  - intros v. rewrite balance_set, points_of_ensure, balance_ensure. reflexivity.
Qed.

(** [transfer_points] in terms of balances. *)
Lemma transfer_points_spec (g : GameData) (a b amount : Z) :
  let real := Z.min (Z.max 0 amount) (balance g a) in
  (transfer_points a b amount g).1 = real /\
  forall v, balance (transfer_points a b amount g).2 v =
            if decide (b = v) then
              (if decide (a = b) then balance g b else balance g b + real)
            else if decide (a = v) then balance g a - real
            else balance g v.
Proof.
  unfold transfer_points. simpl.
  assert (Hfrom : points_of (ensure_user_data b (ensure_user_data a g)) a = balance g a).
  { rewrite points_of_ensure, balance_ensure. reflexivity. }
  split.
  - rewrite Hfrom. reflexivity.
  - intros v. rewrite balance_set, points_of_set, Hfrom, balance_set.
    rewrite points_of_ensure, !balance_ensure.
    repeat case_decide; subst; try congruence; lia.
Qed.

(** Each operation keeps every stored balance non-negative. *)
Lemma setdefault_nonneg (k : Z) (m : gmap Z Z) :
  (forall uid v, m !! uid = Some v -> 0 <= v) ->
  forall uid v, setdefault k 0 m !! uid = Some v -> 0 <= v.
Proof.
  intros Hm uid v. rewrite setdefault_lookup. case_decide; subst.
  - destruct (m !! uid) as [x|] eqn:E; simpl; intros [= <-]; [eauto|lia].
  - apply Hm.
Qed.

Lemma ensure_nonneg (u : Z) (g : GameData) :
  nonneg_balances g -> nonneg_balances (ensure_user_data u g).
Proof. intros Hg. unfold nonneg_balances. simpl. apply setdefault_nonneg, Hg. Qed.

Lemma set_points_nonneg (u x : Z) (g : GameData) :
  0 <= x -> nonneg_balances g -> nonneg_balances (set_points u x g).
Proof.
  intros Hx Hg uid v. unfold set_points. simpl. rewrite lookup_insert.
  case_decide; [intros [= <-]; exact Hx | apply Hg].
Qed.

Lemma balance_nonneg (g : GameData) (u : Z) :
  nonneg_balances g -> 0 <= balance g u.
Proof.
  intros Hg. rewrite balance_lookup. destruct (points g !! u) as [x|] eqn:E; simpl.
  - eapply Hg, E.
  - lia.
Qed.

Lemma run_op_nonneg (op : LedgerOp) (g : GameData) :
  nonneg_balances g -> nonneg_balances (run_op op g).
Proof.
  intros Hg. destruct op as [u|u d|a b n]; simpl.
  - apply ensure_nonneg, Hg.
  - apply set_points_nonneg; [lia|]. apply ensure_nonneg, Hg.
  - pose proof (balance_nonneg g a Hg) as Ha.
    pose proof (balance_nonneg g b Hg) as Hb.
    assert (Hpa : points_of (ensure_user_data b (ensure_user_data a g)) a = balance g a).
    { rewrite points_of_ensure, balance_ensure. reflexivity. }
    apply set_points_nonneg.
    + rewrite points_of_set, Hpa, points_of_ensure, balance_ensure.
      case_decide; subst; lia.
    + apply set_points_nonneg; [rewrite Hpa; lia|].
      apply ensure_nonneg, ensure_nonneg, Hg.
Qed.

Lemma empty_data_nonneg : nonneg_balances empty_data.
Proof. intros uid v. unfold empty_data. simpl. rewrite lookup_empty. discriminate. Qed.

Lemma thirty_nonneg : nonneg_balances thirty.
Proof.
  intros uid v. unfold thirty. simpl. rewrite lookup_singleton.
  case_decide; [intros [= <-]; lia | discriminate].
Qed.

Lemma thirty_balance : balance thirty 1 = 30.
Proof. rewrite balance_lookup. reflexivity. Qed.

(** C4, as stated, fails on a negative request: asked to move -5 from a
    balance of 30, [transfer_points] moves 0, which is neither
    [min(-5, 30)] nor at most it. *)
Lemma transfer_points_negative_request :
  (transfer_points 1 2 (-5) thirty).1 = 0 /\
  (transfer_points 1 2 (-5) thirty).1 <> Z.min (-5) (balance thirty 1) /\
  ~ (transfer_points 1 2 (-5) thirty).1 <= Z.min (-5) (balance thirty 1).
Proof.
  destruct (transfer_points_spec thirty 1 2 (-5)) as [Hr _]. cbv zeta in Hr.
  rewrite Hr, thirty_balance. repeat split; lia.
Qed.

(** C4, amended: [transfer_points] moves exactly
    [min(max(0, amount), balance(from))]; that amount is at most
    [min(amount, balance(from))] whenever the request is not negative; the
    sender's balance after the call is not negative (when sender and
    recipient are one account, provided it was not negative before);
    between two different accounts the sender loses and the recipient
    gains exactly the amount moved; and the sum of the two balances is
    unchanged. *)
Theorem transfer_points_clamped (g : GameData) (a b amount : Z) :
  let real := (transfer_points a b amount g).1 in
  let g' := (transfer_points a b amount g).2 in
  real = Z.min (Z.max 0 amount) (balance g a) /\
  (0 <= amount -> real <= Z.min amount (balance g a)) /\
  (a <> b \/ 0 <= balance g a -> 0 <= balance g' a) /\
  (a <> b -> balance g' a = balance g a - real /\ balance g' b = balance g b + real) /\
  balance g' a + balance g' b = balance g a + balance g b.
Proof.
  intros real g'. subst real g'.
  destruct (transfer_points_spec g a b amount) as [Hr Hb]. cbv zeta in Hr, Hb.
  rewrite Hr, !Hb.
  repeat split; intros; repeat case_decide; subst; try congruence; try lia.
Qed.

(** C9: starting from non-negative balances, every balance is non-negative
    after any sequence of [get_points], [add_points] and [transfer_points]
    calls, and [add_points] returns, and leaves as the account's balance,
    exactly [max(0, old + delta)]. *)
Theorem balances_never_negative (g : GameData) (ops : list LedgerOp) :
  nonneg_balances g ->
  nonneg_balances (run_ops ops g) /\
  (forall u, 0 <= balance (run_ops ops g) u) /\
  (forall u delta,
     let g0 := run_ops ops g in
     (add_points u delta g0).1 = Z.max 0 (balance g0 u + delta) /\
     balance (add_points u delta g0).2 u = Z.max 0 (balance g0 u + delta)).
Proof.
  intros Hg.
  assert (Hinv : nonneg_balances (run_ops ops g)).
  { revert g Hg. unfold run_ops.
    induction ops as [|op ops IH]; intros g Hg; simpl; [exact Hg|].
    apply IH, run_op_nonneg, Hg. }
  split; [exact Hinv|]. split.
  - intros u. apply balance_nonneg, Hinv.
  - intros u delta. simpl.
    destruct (add_points_spec (run_ops ops g) u delta) as [H1 H2].
    split; [exact H1|]. rewrite H2. case_decide; congruence.
Qed.

(** C9 at the example of the specification: from a balance of 30,
    [add_points(u, -1000)] yields 0. *)
Lemma balances_never_negative_example :
  nonneg_balances thirty /\
  (add_points 1 (-1000) (run_ops [] thirty)).1 =
    Z.max 0 (balance (run_ops [] thirty) 1 + -1000) /\
  (add_points 1 (-1000) thirty).1 = 0.
Proof.
  split; [exact thirty_nonneg|]. split.
  - exact (proj1 (proj2 (proj2
      (balances_never_negative thirty [] thirty_nonneg)) 1 (-1000))).
  - destruct (add_points_spec thirty 1 (-1000)) as [H1 _].
    rewrite H1, thirty_balance. reflexivity.
Defined.

(** C10: with a sender whose balance is not negative, a negative request
    moves 0 points and leaves every balance as it was; and whatever the
    request, the sender's balance does not grow and the recipient's does
    not shrink. *)
Theorem transfer_points_negative_is_noop (g : GameData) (a b amount : Z) :
  0 <= balance g a ->
  (amount < 0 ->
   (transfer_points a b amount g).1 = 0 /\
   forall u, balance (transfer_points a b amount g).2 u = balance g u) /\
  0 <= (transfer_points a b amount g).1 /\
  balance (transfer_points a b amount g).2 a <= balance g a /\
  balance g b <= balance (transfer_points a b amount g).2 b.
Proof.
  intros Ha.
  destruct (transfer_points_spec g a b amount) as [Hr Hb]. cbv zeta in Hr, Hb.
  rewrite Hr, !Hb. split; [intros Hneg; split; [lia|]|].
  - intros u. rewrite Hb. repeat case_decide; subst; try congruence; lia.
  - repeat split; repeat case_decide; subst; try congruence; lia.
Qed.

Lemma transfer_points_negative_is_noop_example :
  0 <= balance thirty 1 /\
  (transfer_points 1 2 (-5) thirty).1 = 0 /\
  balance (transfer_points 1 2 (-5) thirty).2 1 = 30 /\
  balance (transfer_points 1 2 (-5) thirty).2 2 = 0.
Proof.
  assert (H30 : 0 <= balance thirty 1) by (rewrite thirty_balance; lia).
  split; [exact H30|].
  destruct (transfer_points_negative_is_noop thirty 1 2 (-5) H30) as [Hn _].
  destruct (Hn ltac:(lia)) as [H0 Hsame].
  split; [exact H0|]. rewrite !Hsame, !balance_lookup. split; reflexivity.
Defined.

End LedgerTheory.

(** ** Puzzle generator *)

Module PuzzleTheory.

Import Puzzle.

Section Scramble.

Context {char : Type} `{EqDecision char}.
Context {rng : Type}.
Variable lower : list char -> list char.
Variable random_shuffle : forall A : Type, rng -> list A -> list A * rng.

(** All that is assumed of [random.shuffle]: it permutes its list. *)
Hypothesis random_shuffle_perm :
  forall (A : Type) (g : rng) (l : list A), (random_shuffle A g l).1 ≡ₚ l.

Lemma shuffle_rounds_perm (n : nat) (word chars : list char) (g : rng) :
  chars ≡ₚ word -> (shuffle_rounds lower random_shuffle n word chars g).1 ≡ₚ word.
Proof.
  revert chars g. induction n as [|n IH]; intros chars g Hp; simpl; [exact Hp|].
  pose proof (random_shuffle_perm char g chars) as Hs.
  destruct (random_shuffle char g chars) as [chars' g']. simpl in Hs.
  case_decide; simpl.
  - etransitivity; eassumption.
  - apply IH. etransitivity; eassumption.
Qed.

Lemma attempts_perm (n : nat) (word chars : list char) (g : rng) :
  chars ≡ₚ word -> Forall (fun c => c ≡ₚ word) (attempts random_shuffle n chars g).
Proof.
  revert chars g. induction n as [|n IH]; intros chars g Hp; simpl; [constructor|].
  pose proof (random_shuffle_perm char g chars) as Hs.
  destruct (random_shuffle char g chars) as [chars' g']. simpl in Hs.
  constructor; [|apply IH]; etransitivity; eassumption.
Qed.

(** The loop returns the first attempt that differs; when none of the [n]
    attempts does, it returns the last one (the list itself for [n = 0]). *)
Lemma shuffle_rounds_first (n : nat) (word chars : list char) (g : rng) :
  (shuffle_rounds lower random_shuffle n word chars g).1 =
  match List.find (differs lower word) (attempts random_shuffle n chars g) with
  | Some c => c
  | None => default chars (last (attempts random_shuffle n chars g))
  end.
Proof.
  revert chars g. induction n as [|n IH]; intros chars g; simpl; [reflexivity|].
  destruct (random_shuffle char g chars) as [chars' g']. simpl.
  unfold differs at 1. case_decide as Hd.
  - rewrite bool_decide_eq_true_2 by exact Hd. reflexivity.
  - rewrite bool_decide_eq_false_2 by (intros Hn; exact (Hn Hd)). rewrite IH.
    destruct (List.find _ _); [reflexivity|].
    generalize (attempts random_shuffle n chars' g'). intros l.
    rewrite last_cons. destruct (last l); reflexivity.
Qed.

Lemma find_differs_Some (word c : list char) (l : list (list char)) :
  List.find (differs lower word) l = Some c -> lower c ≠ lower word.
Proof.
  intros Hf. apply List.find_some in Hf as [_ Hd].
  unfold differs in Hd. apply bool_decide_eq_true in Hd. exact Hd.
Qed.

Lemma find_differs_None (word c : list char) (l : list (list char)) :
  List.find (differs lower word) l = None -> c ∈ l -> lower c = lower word.
Proof.
  intros Hf Hin. apply list_elem_of_In in Hin.
  pose proof (List.find_none _ _ Hf c Hin) as Hd.
  unfold differs in Hd. apply bool_decide_eq_false in Hd.
  destruct (decide (lower c = lower word)); [assumption|contradiction].
Qed.

Lemma shuffle_word_perm (word : list char) (g : rng) :
  (shuffle_word lower random_shuffle word g).1 ≡ₚ word.
Proof.
  unfold shuffle_word. destruct (length word <? 2)%nat; [reflexivity|].
  apply shuffle_rounds_perm. reflexivity.
Qed.

(** C5, amended: [shuffle_word] returns a permutation of the word; a word
    of fewer than 2 characters is returned unchanged; for a longer word
    the result is the first of the 10 successive shuffles that differs
    from the word case-insensitively, and when none of the 10 differs it
    is the 10th shuffle, which equals the word case-insensitively (and is
    the word itself whenever no other permutation of the word has the
    same lower-case form). *)
Theorem shuffle_word_spec (word : list char) (g : rng) :
  let res := (shuffle_word lower random_shuffle word g).1 in
  let tries := attempts random_shuffle 10 word g in
  res ≡ₚ word /\
  (length word < 2 -> res = word) /\
  (2 <= length word ->
   match List.find (differs lower word) tries with
   | Some c => res = c /\ lower res ≠ lower word
   | None =>
       last tries = Some res /\ lower res = lower word /\
       ((forall c, c ≡ₚ word -> lower c = lower word -> c = word) -> res = word)
   end).
Proof.
  intros res tries. subst res tries.
  split; [apply shuffle_word_perm|]. unfold shuffle_word.
  destruct (length word <? 2) eqn:Hlen.
  - apply Nat.ltb_lt in Hlen. simpl. split; intros; [reflexivity|lia].
  - apply Nat.ltb_ge in Hlen. split; [lia|intros _].
    + rewrite shuffle_rounds_first.
      destruct (List.find _ _) as [c|] eqn:Hf.
      * split; [reflexivity|]. eapply find_differs_Some, Hf.
      * pose proof (attempts_perm 10 word word g ltac:(reflexivity)) as Hperm.
        destruct (last (attempts random_shuffle 10 word g)) as [c|] eqn:Hl.
        -- simpl. apply last_Some_elem_of in Hl as Hin.
           assert (Hlow : lower c = lower word) by (eapply find_differs_None; eassumption).
           repeat split; [exact Hlow|].
           intros Huniq. apply Huniq; [|exact Hlow].
           rewrite Forall_forall in Hperm. apply Hperm, Hin.
        -- exfalso. simpl in Hl.
           destruct (random_shuffle char g word) as [c1 g1].
           rewrite last_cons in Hl. destruct (last _); discriminate.
Qed.

End Scramble.

Lemma scripted_shuffle_perm (A : Type) (g : list bool) (l : list A) :
  (scripted_shuffle A g l).1 ≡ₚ l.
Proof.
  destruct g as [|[] g]; simpl; try reflexivity. apply reverse_Permutation.
Qed.

(** At ASCII a permutation of a word without upper-case letters has none
    either, so such a word comes back unchanged when no shuffle differs. *)
Lemma lower_ascii_fixed_perm (w c : list ascii) :
  lower_ascii w = w -> c ≡ₚ w -> lower_ascii c = c.
Proof.
  intros Hw Hp.
  assert (Hall : Forall (fun x => ascii_lower x = x) w).
  { clear Hp. induction w as [|x w IH]; [constructor|].
    injection Hw as Hx Hw. constructor; [exact Hx | exact (IH Hw)]. }
  rewrite <- Hp in Hall. clear Hw Hp.
  induction Hall as [|x c Hx _ IH]; [reflexivity|].
  unfold lower_ascii in *. rewrite fmap_cons, Hx, IH. reflexivity.
Qed.

Lemma shuffle_word_lowercase {rng : Type}
  (random_shuffle : forall A : Type, rng -> list A -> list A * rng)
  (g : rng) (word : list ascii) :
  (forall (A : Type) (g : rng) (l : list A), (random_shuffle A g l).1 ≡ₚ l) ->
  lower_ascii word = word ->
  let res := (shuffle_word lower_ascii random_shuffle word g).1 in
  lower_ascii res = lower_ascii word -> res = word.
Proof.
  intros Hshuffle Hw res Hsame.
  pose proof (shuffle_word_perm lower_ascii random_shuffle Hshuffle word g) as Hperm.
  rewrite <- (lower_ascii_fixed_perm word res Hw Hperm). congruence.
Qed.

(** C5, as stated, fails: for the word "aA" every shuffle equals the word
    case-insensitively, and when the first of the 10 shuffles reverses the
    list and the other nine leave it alone [shuffle_word] returns "Aa",
    not the word. *)
Lemma shuffle_word_returns_last_shuffle :
  let word := list_ascii_of_string "aA" in
  let script := [true; false; false; false; false; false; false; false; false; false] in
  let res := (shuffle_word lower_ascii scripted_shuffle word script).1 in
  2 <= length word /\
  List.find (differs lower_ascii word) (attempts scripted_shuffle 10 word script) = None /\
  res = list_ascii_of_string "Aa" /\
  res <> word.
Proof. vm_compute. repeat split; try lia; discriminate. Qed.

(** [shuffle_word_spec] at the word "kata" when the first shuffle
    reverses it. *)
Lemma shuffle_word_spec_example :
  let word := list_ascii_of_string "kata" in
  (forall (A : Type) (g : list bool) (l : list A), (scripted_shuffle A g l).1 ≡ₚ l) /\
  (shuffle_word lower_ascii scripted_shuffle word [true]).1 ≡ₚ word /\
  (shuffle_word lower_ascii scripted_shuffle word [true]).1 = list_ascii_of_string "atak".
Proof.
  split; [exact scripted_shuffle_perm|]. split.
  - exact (proj1 (shuffle_word_spec lower_ascii scripted_shuffle scripted_shuffle_perm
                    (list_ascii_of_string "kata") [true])).
  - reflexivity.
Defined.

End PuzzleTheory.

(** ** Session registry *)

Module RegistryTheory.

Import Ledger Registry.

Section Sessions.

Context {char : Type} `{Countable char}.
Variable str_lower : list char -> list char.
Variable str_strip : list char -> list char.
Variable isalpha : char -> bool.

Local Abbreviation start_session := (start_session str_lower).
Local Abbreviation session_of := (session_of str_lower).
Local Abbreviation clean_word := (clean_word str_lower str_strip isalpha).
Local Abbreviation kata := (kata str_lower str_strip isalpha).


(** C6: in a channel with a word chain whose last word is not empty,
    [kata] accepts a word exactly when its normal form has at least 3
    characters, is not in the used set and starts with the last character
    of the last word.  The normal form is the word lower-cased, then
    stripped, then reduced to its letters: it consists of letters only,
    keeps every letter of the stripped lower-cased word, in order and as
    often as it occurs there, and drops everything else.  An accepted
    word becomes the last word and joins the used set in its normal form,
    and nothing else in the registry changes.  A rejected word leaves the
    registry and the ledger as they were, and the reply names the first
    rule, in this order, that the word breaks. *)
Theorem kata_rules (ch author : Z) (word : list char) (reg : Sessions)
  (g : GameData) (state : ChainState) :
  sambung_kata_active reg !! ch = Some state ->
  chain_last state <> [] ->
  let cleaned := clean_word word in
  let reply := (kata ch author word reg g).1.1 in
  let reg' := (kata ch author word reg g).1.2 in
  let g' := (kata ch author word reg g).2 in
  (cleaned = filter (fun c => isalpha c = true) (str_strip (str_lower word)) /\
   Forall (fun c => isalpha c = true) cleaned /\
   cleaned `sublist_of` str_strip (str_lower word) /\
   (Forall (fun c => isalpha c = true) (str_strip (str_lower word)) ->
    cleaned = str_strip (str_lower word))) /\
  (accepted reply <->
   long_enough cleaned /\ unused state cleaned /\ continues state cleaned) /\
  (accepted reply ->
   reply = Valid cleaned (add_points author 2 g).1 /\
   sambung_kata_active reg' !! ch =
     Some (mkChain cleaned ({[cleaned]} ∪ chain_used state)) /\
   (forall ch', ch' <> ch ->
      sambung_kata_active reg' !! ch' = sambung_kata_active reg !! ch') /\
   tebak_kata_active reg' = tebak_kata_active reg /\
   tebak_gambar_active reg' = tebak_gambar_active reg /\
   trivia_active reg' = trivia_active reg) /\
  (~ accepted reply ->
   reg' = reg /\ g' = g /\
   ((reply = TooShort /\ ~ long_enough cleaned) \/
    (reply = AlreadyUsed /\ long_enough cleaned /\ ~ unused state cleaned) \/
    (exists c, reply = WrongStart c /\ last (chain_last state) = Some c /\
               long_enough cleaned /\ unused state cleaned /\
               ~ continues state cleaned))).
Proof.
  intros Hstate Hlast cleaned reply reg' g'.
  split.
  { subst cleaned. unfold Registry.clean_word.
    split; [reflexivity|]. split.
    - apply Forall_forall. intros c Hc. apply list_elem_of_filter in Hc as [Hc _].
      exact Hc.
    - split; [apply sublist_filter|].
      generalize (str_strip (str_lower word)). intros l Hall.
      induction Hall as [|c l Hc _ IH]; [reflexivity|].
      rewrite filter_cons_True by exact Hc. f_equal. exact IH. }
  subst reply reg' g'. unfold kata. rewrite Hstate. fold cleaned.
  unfold long_enough, unused, continues.
  destruct (length cleaned <? 3)%nat eqn:Hlen.
  { apply Nat.ltb_lt in Hlen. simpl.
    split; [split; [contradiction | intros [? _]; lia]|].
    split; [contradiction|]. intros _. repeat split. left. split; [reflexivity|lia]. }
  apply Nat.ltb_ge in Hlen.
  destruct (decide (cleaned ∈ chain_used state)) as [Hin|Hnin].
  { simpl. split; [split; [contradiction | intros (_ & Hn & _); contradiction]|].
    split; [contradiction|]. intros _. repeat split. right. left.
    repeat split; [exact Hlen | intros Hn; contradiction]. }
  destruct (last (chain_last state)) as [required|] eqn:Hreq.
  2:{ apply last_None in Hreq. contradiction. }
  destruct (decide (head cleaned ≠ Some required)) as [Hne|Heq].
  { simpl. split; [split; [contradiction|]|].
    - intros (_ & _ & c & [= <-] & Hc). contradiction.
    - split; [contradiction|]. intros _. repeat split. right. right.
      exists required. repeat split; try assumption.
      intros (c & [= <-] & Hc). contradiction. }
  assert (Hhead : head cleaned = Some required).
  { destruct (decide (head cleaned = Some required)); [assumption|contradiction]. }
  destruct (add_points author 2 g) as [pts g1] eqn:Hadd. simpl.
  split; [split; [intros _|constructor]|].
  - repeat split; [exact Hlen | exact Hnin | exists required; split; [reflexivity|exact Hhead]].
  - split; [|intros Hn; exfalso; apply Hn; constructor].
    intros _. repeat split.
    + apply lookup_insert_eq.
    + intros ch' Hne. apply lookup_insert_ne. congruence.
Qed.

(** The last word of a chain is never empty after an accepted word. *)
Lemma kata_keeps_last_nonempty (ch author : Z) (word : list char) (reg : Sessions)
  (g : GameData) :
  (forall c st, sambung_kata_active reg !! c = Some st -> chain_last st <> []) ->
  forall c st, sambung_kata_active (kata ch author word reg g).1.2 !! c = Some st ->
               chain_last st <> [].
Proof.
  intros Hinv c st. unfold kata.
  destruct (sambung_kata_active reg !! ch) as [state|] eqn:Hs; [|apply Hinv].
  destruct (length (clean_word word) <? 3)%nat eqn:Hlen; [apply Hinv|].
  apply Nat.ltb_ge in Hlen.
  case_decide; [apply Hinv|].
  destruct (last (chain_last state)); [|apply Hinv].
  case_decide; [apply Hinv|].
  destruct (add_points author 2 g) as [pts g1]. simpl.
  rewrite lookup_insert. case_decide; [|apply Hinv].
  intros [= <-]. simpl. intros Hnil. rewrite Hnil in Hlen. simpl in Hlen. lia.
Qed.

End Sessions.


(** The examples of the specification: after the seed "kata", "ayam" is
    accepted, "kata" was already used, "an" is too short, and "batu" does
    not start with "a". *)
Lemma kata_examples :
  (kata_ascii 1 5 (chars "Ayam ") chain_kata empty_data).1.1 = Valid (chars "ayam") 2 /\
  (kata_ascii 1 5 (chars "kata") chain_kata empty_data).1.1 = AlreadyUsed /\
  (kata_ascii 1 5 (chars "an") chain_kata empty_data).1.1 = TooShort /\
  (kata_ascii 1 5 (chars "batu") chain_kata empty_data).1.1 = WrongStart "a"%char /\
  (kata_ascii 2 5 (chars "ayam") chain_kata empty_data).1.1 = NoGame.
Proof. vm_compute. repeat split. Qed.

(** [kata_rules] at the seed "kata" and the submission " Ayam! 7": its
    normal form is "ayam", which is accepted. *)
Lemma kata_rules_example :
  let state := mkChain (chars "kata") {[chars "kata"]} in
  let word := chars " Ayam! 7" in
  sambung_kata_active chain_kata !! 1%Z = Some state /\
  chain_last state <> [] /\
  clean_ascii word = chars "ayam" /\
  Forall (fun c => ascii_isalpha c = true) (clean_ascii word) /\
  (accepted (kata_ascii 1 5 word chain_kata empty_data).1.1 <->
   long_enough (clean_ascii word) /\
   unused state (clean_ascii word) /\
   continues state (clean_ascii word)) /\
  (kata_ascii 1 5 word chain_kata empty_data).1.1 = Valid (chars "ayam") 2 /\
  sambung_kata_active (kata_ascii 1 5 word chain_kata empty_data).1.2 !! 1%Z
    = Some (mkChain (chars "ayam") ({[chars "ayam"]} ∪ {[chars "kata"]})).
Proof.
  intros state word. unfold kata_ascii, clean_ascii.
  assert (H1 : sambung_kata_active chain_kata !! 1%Z = Some state)
    by apply lookup_insert_eq.
  assert (H2 : chain_last state <> []) by discriminate.
  pose proof (kata_rules Puzzle.lower_ascii strip_ascii ascii_isalpha
                1%Z 5%Z word chain_kata empty_data state H1 H2) as Hrules.
  cbv zeta in Hrules.
  destruct Hrules as ((Hnorm & Hletters & _ & _) & Hiff & Hacc & _).
  assert (Hclean : clean_word Puzzle.lower_ascii strip_ascii ascii_isalpha word
                   = chars "ayam") by (rewrite Hnorm; reflexivity).
  assert (Hok : accepted (kata Puzzle.lower_ascii strip_ascii ascii_isalpha
                            1 5 word chain_kata empty_data).1.1)
    by (vm_compute; exact I).
  destruct (Hacc Hok) as (Hreply & Hstore & _).
  split; [exact H1|]. split; [exact H2|]. split; [exact Hclean|].
  split; [exact Hletters|]. split; [exact Hiff|]. split.
  - rewrite Hreply, Hclean. reflexivity.
  - rewrite Hstore, Hclean. reflexivity.
Defined.

End RegistryTheory.

(** ** Debate referee: the turn sequence of a runner left alone *)

Module DebateTurns.

Import Debate.
Local Open Scope Z_scope.

Lemma run_alone_add (a b : nat) (s : DebateSession) (pc : Pc) :
  run_alone (a + b) s pc =
  let '(s1, pc1, ev1) := run_alone a s pc in
  let '(s2, pc2, ev2) := run_alone b s1 pc1 in
  (s2, pc2, ev1 ++ ev2).
Proof.
  revert s pc. induction a as [|a IH]; intros s pc; simpl.
  - destruct (run_alone b s pc) as [[s2 pc2] ev2]. reflexivity.
  - destruct (runner_step true s pc) as [[s1 pc1] ev1]. rewrite IH.
    destruct (run_alone a s1 pc1) as [[s2 pc2] ev2].
    destruct (run_alone b s2 pc2) as [[s3 pc3] ev3].
    rewrite app_assoc. reflexivity.
Qed.

(** Two suspension points from which the runner continues alike. *)
Lemma run_alone_same_step (n : nat) (s : DebateSession) (pc pc' : Pc) :
  runner_step true s pc = runner_step true s pc' ->
  run_alone (S n) s pc = run_alone (S n) s pc'.
Proof. intros Heq. simpl. rewrite Heq. reflexivity. Qed.

(** Entering a round that exists is the iterator at the start of the
    first side. *)
Lemma enter_round_next_turn (s : DebateSession) (r R : Z) :
  r <= R -> enter_round s r R = next_turn s r R PRO 0.
Proof.
  intros Hr. unfold enter_round, next_turn. simpl.
  rewrite (proj2 (Z.leb_le r R) Hr).
  destruct (Z.to_nat (R - r)) as [|rem] eqn:Hrem; simpl.
  - destruct (pro s !! 0%nat); [reflexivity|].
    destruct (kontra s !! 0%nat); [reflexivity|].
    unfold enter_round. rewrite (proj2 (Z.leb_gt (r + 1) R)) by lia. reflexivity.
  - destruct (pro s !! 0%nat); [reflexivity|].
    destruct (kontra s !! 0%nat); [reflexivity|].
    unfold enter_round. rewrite (proj2 (Z.leb_le (r + 1) R)) by lia.
    replace (Z.to_nat (R - (r + 1))) with rem by lia. reflexivity.
Qed.

Section Running.

Variable s : DebateSession.
Hypothesis Hrunning : running s = true.
Variable R : Z.

(** The events of the users of one side from position [idx] on. *)
Lemma run_side (r : Z) (side : Side) (k idx : nat) (pc : Pc) :
  (idx + k)%nat = length (lineup s side) ->
  runner_step true s pc = runner_step true s (AwaitSleep r R side idx) ->
  let evs :=
    uid ← drop idx (lineup s side);
    [Send (MsgTurn r (rounds s) side uid (turn_seconds s)); Sleep (turn_seconds s)] in
  exists pc',
    run_alone (length evs) s pc = (s, pc', evs) /\
    runner_step true s pc' =
    runner_step true s (AwaitSleep r R side (length (lineup s side))).
Proof.
  revert idx pc. induction k as [|k IH]; intros idx pc Hlen Hpc evs; subst evs.
  - assert (Hge : (length (lineup s side) <= idx)%nat) by lia.
    rewrite (drop_ge _ _ Hge). simpl. exists pc. split; [reflexivity|].
    replace (length (lineup s side)) with idx by lia. exact Hpc.
  - destruct (lookup_lt_is_Some_2 (lineup s side) idx ltac:(lia)) as [uid Huid].
    rewrite (drop_S _ _ _ Huid). simpl.
    destruct (IH (S idx) (AwaitSleep r R side (S idx)) ltac:(lia) eq_refl)
      as (pc' & Hrun & Hnext).
    exists pc'. split; [|exact Hnext].
    rewrite Hpc. simpl. unfold next_turn. rewrite Huid. simpl.
    rewrite Hrunning. simpl. unfold mbind in Hrun. rewrite Hrun. reflexivity.
Qed.

(** After the last user of PRO the iterator moves to KONTRA. *)
Lemma pro_done_kontra_next (r : Z) :
  runner_step true s (AwaitSleep r R PRO (length (pro s))) =
  runner_step true s (AwaitSleep r R KONTRA 0).
Proof.
  simpl. unfold next_turn. simpl.
  rewrite (lookup_ge_None_2 (pro s) (length (pro s))) by lia.
  destruct (kontra s !! 0%nat); reflexivity.
Qed.

(** The events of one round. *)
Lemma run_round (r : Z) (pc : Pc) :
  runner_step true s pc = runner_step true s (AwaitSleep r R PRO 0) ->
  exists pc',
    run_alone (length (round_turns s r)) s pc = (s, pc', round_turns s r) /\
    runner_step true s pc' =
    runner_step true s (AwaitSleep r R KONTRA (length (kontra s))).
Proof.
  intros Hpc. unfold round_turns, side_turns. cbn [lineup].
  destruct (run_side r PRO (length (pro s)) 0 pc eq_refl Hpc) as (pc1 & Hrun1 & Hnext1).
  rewrite drop_0 in Hrun1. cbn [lineup] in Hrun1, Hnext1.
  rewrite pro_done_kontra_next in Hnext1.
  destruct (run_side r KONTRA (length (kontra s)) 0 pc1 eq_refl Hnext1)
    as (pc2 & Hrun2 & Hnext2).
  rewrite drop_0 in Hrun2. cbn [lineup] in Hrun2, Hnext2.
  exists pc2. split; [|exact Hnext2].
  rewrite length_app, run_alone_add, Hrun1, Hrun2. reflexivity.
Qed.

(** The events of the rounds after round [r], up to the end of the loops. *)
Lemma run_rounds (m : nat) (r : Z) (pc : Pc) :
  r + Z.of_nat m = R ->
  runner_step true s pc =
  runner_step true s (AwaitSleep r R KONTRA (length (kontra s))) ->
  let evs := i ← seqZ (r + 1) (Z.of_nat m); round_turns s i in
  exists pc',
    run_alone (length evs) s pc = (s, pc', evs) /\
    runner_step true s pc' = finish s.
Proof.
  revert r pc. induction m as [|m IH]; intros r pc Hr Hpc evs; subst evs.
  - simpl. exists pc. split; [reflexivity|].
    rewrite Hpc. simpl. unfold next_turn. simpl.
    rewrite (lookup_ge_None_2 (kontra s) (length (kontra s))) by lia.
    unfold enter_round. rewrite (proj2 (Z.leb_gt (r + 1) R)) by lia. reflexivity.
  - rewrite seqZ_cons by lia. rewrite bind_cons.
    replace (Z.succ (r + 1)) with (r + 1 + 1) by lia.
    replace (Z.pred (Z.of_nat (S m))) with (Z.of_nat m) by lia.
    assert (Hstart : runner_step true s pc =
                     runner_step true s (AwaitSleep (r + 1) R PRO 0)).
    { rewrite Hpc. simpl. unfold next_turn at 1. simpl.
      rewrite (lookup_ge_None_2 (kontra s) (length (kontra s))) by lia.
      rewrite enter_round_next_turn by lia. reflexivity. }
    destruct (run_round (r + 1) pc Hstart) as (pc1 & Hrun1 & Hnext1).
    destruct (IH (r + 1) pc1 ltac:(lia) Hnext1) as (pc2 & Hrun2 & Hfin).
    exists pc2. split; [|exact Hfin].
    rewrite length_app, run_alone_add, Hrun1, Hrun2. reflexivity.
Qed.

End Running.

Lemma turns_in_side (s : DebateSession) (r : Z) (side : Side) :
  length (filter (fun e => is_turn e = true) (side_turns s r side)) =
  length (lineup s side).
Proof.
  unfold side_turns. induction (lineup s side) as [|uid l IH]; [reflexivity|].
  rewrite bind_cons, filter_app, length_app, IH. reflexivity.
Qed.

Lemma turns_in_rounds (s : DebateSession) (l : list Z) :
  length (filter (fun e => is_turn e = true) (r ← l; round_turns s r)) =
  (length l * (length (pro s) + length (kontra s)))%nat.
Proof.
  induction l as [|r l IH]; [reflexivity|].
  rewrite bind_cons, filter_app, length_app, IH. unfold round_turns.
  rewrite filter_app, length_app, !turns_in_side. simpl. lia.
Qed.

(** C7: a runner that is resumed again and again while nothing else
    touches its session announces the start, then emits, for each round
    1..rounds, a turn notification for every user of [pro] in list order
    and then for every user of [kontra] in list order, each followed by a
    wait of [turn_seconds], then clears the flag, announces the end and is
    done.  The number of turn notifications is
    [rounds * (len(pro) + len(kontra))]. *)
Theorem debate_runner_turn_sequence (s : DebateSession) :
  run_alone (length (all_turns s) + 3) s NotStarted =
    (set_running false s, Finished,
     [Send (MsgStart (topic s) (turn_seconds s))] ++ all_turns s ++
     [Send (MsgFinish (count_side PRO s) (count_side KONTRA s))]) /\
  all_turns s =
    (r ← seqZ 1 (rounds s);
     (uid ← pro s;
      [Send (MsgTurn r (rounds s) PRO uid (turn_seconds s)); Sleep (turn_seconds s)]) ++
     (uid ← kontra s;
      [Send (MsgTurn r (rounds s) KONTRA uid (turn_seconds s)); Sleep (turn_seconds s)])) /\
  Z.of_nat (length (filter (fun e => is_turn e = true) (all_turns s))) =
    Z.max 0 (rounds s) * Z.of_nat (length (pro s) + length (kontra s)).
Proof.
  split; [|split; [reflexivity|]].
  - set (s1 := set_running true s).
    assert (Hloop : exists pc',
               run_alone (length (all_turns s)) s1 AwaitStart = (s1, pc', all_turns s) /\
               runner_step true s1 pc' = finish s1).
    { destruct (Z.le_gt_cases 0 (rounds s)) as [Hpos|Hneg].
      - destruct (run_rounds s1 eq_refl (rounds s) (Z.to_nat (rounds s)) 0 AwaitStart)
          as (pc' & Hrun & Hfin).
        + lia.
        + simpl. unfold next_turn. simpl.
          rewrite (lookup_ge_None_2 (kontra s) (length (kontra s))) by lia.
          reflexivity.
        + exists pc'. rewrite Z2Nat.id in Hrun by lia. split; assumption.
      - exists AwaitStart. unfold all_turns. rewrite seqZ_nil by lia. simpl.
        split; [reflexivity|]. unfold enter_round.
        rewrite (proj2 (Z.leb_gt 1 (rounds s))) by lia. reflexivity. }
    destruct Hloop as (pc' & Hrun & Hfin).
    replace (length (all_turns s) + 3)%nat
      with (1 + (length (all_turns s) + 2))%nat by lia.
    rewrite run_alone_add. simpl run_alone at 1. fold s1. cbv beta iota zeta.
    rewrite run_alone_add, Hrun. cbv beta iota zeta.
    simpl run_alone. rewrite Hfin. reflexivity.
  - unfold all_turns. rewrite turns_in_rounds, length_seqZ. lia.
Qed.

(** The example of the specification: 2 rounds, pro = [u1, u2],
    kontra = [u3] give 6 turns in the order u1, u2, u3, u1, u2, u3. *)
Lemma debate_runner_six_turns :
  let s := mkSession 0 1 "topik" 30 2 [101; 102] [103] [] false in
  filter (fun e => is_turn e = true) (run_alone 20 s NotStarted).2 =
  [Send (MsgTurn 1 2 PRO 101 30); Send (MsgTurn 1 2 PRO 102 30);
   Send (MsgTurn 1 2 KONTRA 103 30);
   Send (MsgTurn 2 2 PRO 101 30); Send (MsgTurn 2 2 PRO 102 30);
   Send (MsgTurn 2 2 KONTRA 103 30)].
Proof. reflexivity. Qed.

End DebateTurns.

(** ** Debate referee: one runner per channel *)

Module DebateRunners.

Import Debate.
Local Open Scope Z_scope.

Lemma session_at_Some (w : World) (ch : Z) (l : nat) (s : DebateSession) :
  session_at w ch = Some (l, s) ->
  debate_sessions w !! ch = Some l /\ heap w !! l = Some s.
Proof.
  unfold session_at. destruct (debate_sessions w !! ch) as [l'|]; [|discriminate].
  destruct (heap w !! l') as [s'|] eqn:Hh; [|discriminate].
  intros [= <- <-]. split; [reflexivity|exact Hh].
Qed.

Lemma runner_step_channel (found : bool) (s : DebateSession) (pc : Pc) :
  channel_id (runner_step found s pc).1.1 = channel_id s.
Proof.
  destruct pc; simpl; try reflexivity.
  - destruct found; reflexivity.
  - unfold turn_or_finish. destruct (enter_round _ _ _) as [[[[? ?] ?] ?]|]; [|reflexivity].
    destruct (running s); reflexivity.
  - unfold turn_or_finish. destruct (next_turn _ _ _ _ _) as [[[[? ?] ?] ?]|]; [|reflexivity].
    destruct (running s); reflexivity.
Qed.

Lemma extends_refl (w : World) : extends w w.
Proof. split; intros; eauto 6. Qed.

Lemma extends_trans (w1 w2 w3 : World) :
  extends w1 w2 -> extends w2 w3 -> extends w1 w3.
Proof.
  intros [Hh12 Ht12] [Hh23 Ht23]. split.
  - intros l s Hl. destruct (Hh12 l s Hl) as (s2 & Hl2 & Hc2).
    destruct (Hh23 l s2 Hl2) as (s3 & Hl3 & Hc3).
    exists s3. split; [exact Hl3 | congruence].
  - intros tid t Ht. destruct (Ht12 tid t Ht) as (t2 & Ht2 & Hs2 & Hd2 & Hc2).
    destruct (Ht23 tid t2 Ht2) as (t3 & Ht3 & Hs3 & Hd3 & Hc3).
    exists t3. repeat split; [exact Ht3 | congruence | auto | auto].
Qed.

(** Replacing an object by one of the same channel. *)
Lemma extends_heap_insert (w w' : World) (l : nat) (s s' : DebateSession) :
  heap w !! l = Some s -> channel_id s' = channel_id s ->
  heap w' = <[l := s']> (heap w) -> tasks w' = tasks w ->
  extends w w'.
Proof.
  intros Hl Hc Hh Ht. split.
  - intros l0 s0 Hl0. rewrite Hh. destruct (decide (l = l0)) as [<-|Hne].
    + exists s'. split; [|congruence].
      apply list_lookup_insert_eq. eapply lookup_lt_Some, Hl.
    + exists s0. split; [|reflexivity]. rewrite list_lookup_insert_ne by exact Hne.
      exact Hl0.
  - intros tid t Htid. rewrite Ht. eauto 6.
Qed.

(** Replacing a task by one on the same session that is no less finished
    and no less cancelled. *)
Lemma extends_task_insert (w w' : World) (tid : nat) (t t' : Task) :
  tasks w !! tid = Some t -> t_session t' = t_session t ->
  (done t = true -> done t' = true) -> (t_cancel t = true -> t_cancel t' = true) ->
  heap w' = heap w -> tasks w' = <[tid := t']> (tasks w) ->
  extends w w'.
Proof.
  intros Htid Hs Hd Hc Hh Ht. split.
  - intros l s Hl. rewrite Hh. eauto.
  - intros tid0 t0 Htid0. rewrite Ht. destruct (decide (tid = tid0)) as [<-|Hne].
    + exists t'. assert (t0 = t) as -> by congruence.
      split; [|auto]. apply list_lookup_insert_eq. eapply lookup_lt_Some, Htid.
    + exists t0. rewrite list_lookup_insert_ne by exact Hne. auto.
Qed.

Lemma store_extends (w : World) (l : nat) (s s' : DebateSession) :
  heap w !! l = Some s -> channel_id s' = channel_id s -> extends w (store l s' w).
Proof. intros Hl Hc. apply (extends_heap_insert w _ l s s'); auto. Qed.

Lemma cancel_task_extends (ch : Z) (w : World) : extends w (cancel_task ch w).
Proof.
  unfold cancel_task. destruct (debate_tasks w !! ch) as [tid|]; [|apply extends_refl].
  destruct (tasks w !! tid) as [t|] eqn:Ht; [|apply extends_refl].
  destruct (done t) eqn:Hd; [apply extends_refl|].
  apply (extends_task_insert w _ tid t (mkTask (t_session t) (t_pc t) true));
    simpl; auto.
Qed.

Lemma cancel_task_fields (ch : Z) (w : World) :
  heap (cancel_task ch w) = heap w /\
  debate_sessions (cancel_task ch w) = debate_sessions w /\
  debate_tasks (cancel_task ch w) = debate_tasks w /\
  log (cancel_task ch w) = log w /\
  length (tasks (cancel_task ch w)) = length (tasks w).
Proof.
  unfold cancel_task. destruct (debate_tasks w !! ch) as [tid|]; [|auto].
  destruct (tasks w !! tid) as [t|]; [|auto].
  destruct (done t); [auto|]. simpl. rewrite length_insert. auto.
Qed.

(** The task a channel is registered with cannot run after [cancel_task]. *)
Lemma cancel_task_kills (ch : Z) (w : World) (tid : nat) :
  debate_tasks w !! ch = Some tid -> alive (cancel_task ch w) tid = false.
Proof.
  intros Hreg. unfold cancel_task. rewrite Hreg.
  destruct (tasks w !! tid) as [t|] eqn:Ht.
  - destruct (done t) eqn:Hd.
    + unfold alive. rewrite Ht, Hd. reflexivity.
    + unfold alive. simpl. rewrite list_lookup_insert_eq by (eapply lookup_lt_Some, Ht).
      simpl. apply andb_false_r.
  - unfold alive. rewrite Ht. reflexivity.
Qed.

Lemma set_pc_extends (w : World) (tid : nat) (t : Task) (pc : Pc) :
  tasks w !! tid = Some t -> (done t = true -> pc = Finished) ->
  extends w (set_pc tid t pc w).
Proof.
  intros Ht Hd.
  apply (extends_task_insert w _ tid t (mkTask (t_session t) pc (t_cancel t)));
    simpl; auto.
  intros Hdone. rewrite (Hd Hdone). reflexivity.
Qed.

Lemma resume_extends (tid : nat) (found : bool) (w : World) :
  extends w (resume tid found w).
Proof.
  unfold resume. destruct (tasks w !! tid) as [t|] eqn:Ht; [|apply extends_refl].
  destruct (done t) eqn:Hd; [apply extends_refl|].
  destruct (t_cancel t) eqn:Hc.
  { apply set_pc_extends; [exact Ht | congruence]. }
  destruct (heap w !! t_session t) as [s|] eqn:Hs; [|apply extends_refl].
  pose proof (runner_step_channel found s (t_pc t)) as Hch.
  destruct (runner_step found s (t_pc t)) as [[s' pc'] evs]. simpl in Hch.
  eapply extends_trans.
  - apply (extends_heap_insert w (store (t_session t) s' w) (t_session t) s s');
      auto.
  - apply (extends_task_insert _ _ tid t (mkTask (t_session t) pc' false));
      simpl; auto; congruence.
Qed.

Lemma fail_extends (tid : nat) (w : World) : extends w (fail tid w).
Proof.
  unfold fail. destruct (tasks w !! tid) as [t|] eqn:Ht; [|apply extends_refl].
  destruct (t_pc t) eqn:Hpc; try apply extends_refl;
    (apply set_pc_extends; [exact Ht | reflexivity]).
Qed.

(** Appending an object and a task. *)
Lemma extends_append (w w' : World) (hs : list DebateSession) (ts : list Task) :
  heap w' = heap w ++ hs -> tasks w' = tasks w ++ ts -> extends w w'.
Proof.
  intros Hh Ht. split.
  - intros l s Hl. exists s. rewrite Hh. split; [|reflexivity].
    apply lookup_app_l_Some, Hl.
  - intros tid t Htid. exists t. rewrite Ht. split; [|auto].
    apply lookup_app_l_Some, Htid.
Qed.

(** No step undoes anything. *)
Lemma exec_extends (a : Action) (w : World) : extends w (exec a w).
Proof.
  destruct a as [ch guild secs nrounds title|ch author side|ch|ch author|ch|tid found|tid];
    simpl.
  - unfold debat_mulai. destruct (_ || _); simpl; [apply extends_refl|].
    eapply extends_append; simpl; [reflexivity | symmetry; apply app_nil_r].
  - unfold debat_join. destruct (session_at w ch) as [[l s]|] eqn:Hs; [|apply extends_refl].
    apply session_at_Some in Hs as [_ Hl].
    destruct (running s); [apply extends_refl|].
    destruct side as [[]|]; simpl; try apply extends_refl;
      (eapply store_extends; [exact Hl | reflexivity]).
  - unfold debat_start. destruct (session_at w ch) as [[l s]|]; [|apply extends_refl].
    destruct (running s); [apply extends_refl|].
    destruct (_ || _); simpl; [apply extends_refl|].
    eapply extends_trans; [apply (cancel_task_extends ch)|].
    eapply extends_append; simpl; [symmetry; apply app_nil_r | reflexivity].
  - unfold debat_poin. destruct (session_at w ch) as [[l s]|] eqn:Hs; [|apply extends_refl].
    apply session_at_Some in Hs as [_ Hl].
    destruct (_side_of_user s author); simpl; [|apply extends_refl].
    eapply store_extends; [exact Hl | reflexivity].
  - unfold debat_stop. destruct (session_at w ch) as [[l s]|] eqn:Hs; [|apply extends_refl].
    apply session_at_Some in Hs as [_ Hl]. simpl.
    eapply extends_trans; [eapply (store_extends w l s (set_running false s)); eauto|].
    eapply extends_trans; [apply (cancel_task_extends ch)|].
    eapply extends_append; simpl; symmetry; apply app_nil_r.
  - apply resume_extends.
  - apply fail_extends.
Qed.

Lemma extends_task_channel (w w' : World) (tid : nat) (ch : Z) :
  extends w w' -> task_channel w tid = Some ch -> task_channel w' tid = Some ch.
Proof.
  intros [Hh Ht]. unfold task_channel.
  destruct (tasks w !! tid) as [t|] eqn:Htid; [|discriminate].
  destruct (heap w !! t_session t) as [s|] eqn:Hs; [|discriminate].
  simpl. intros [= <-].
  destruct (Ht tid t Htid) as (t' & -> & Hsess & _).
  destruct (Hh _ s Hs) as (s' & Hs' & Hc). rewrite Hsess, Hs'. simpl. congruence.
Qed.

Lemma extends_not_alive (w w' : World) (tid : nat) :
  extends w w' -> is_Some (tasks w !! tid) ->
  alive w tid = false -> alive w' tid = false.
Proof.
  intros [_ Ht] [t Htid]. unfold alive. rewrite Htid.
  destruct (Ht tid t Htid) as (t' & -> & _ & Hd & Hc).
  destruct (done t) eqn:Hdt.
  - rewrite (Hd eq_refl). reflexivity.
  - destruct (t_cancel t) eqn:Hct; [|discriminate].
    rewrite (Hc eq_refl). intros _. apply andb_false_r.
Qed.

Lemma extends_task_stays (w w' : World) (tid : nat) :
  extends w w' -> is_Some (tasks w !! tid) -> is_Some (tasks w' !! tid).
Proof.
  intros [_ Ht] [t Htid]. destruct (Ht tid t Htid) as (t' & Ht' & _). eauto.
Qed.

Lemma alive_is_Some (w : World) (tid : nat) :
  alive w tid = true -> is_Some (tasks w !! tid).
Proof. unfold alive. destruct (tasks w !! tid); [eauto|discriminate]. Qed.

Lemma task_channel_is_Some (w : World) (tid : nat) (ch : Z) :
  task_channel w tid = Some ch -> is_Some (tasks w !! tid).
Proof. unfold task_channel. destruct (tasks w !! tid); [eauto|discriminate]. Qed.

(** [debat_start] either refuses and changes nothing, or cancels the
    channel's task and registers a new one on the channel's session. *)
Lemma debat_start_refused (ch : Z) (w : World) :
  (debat_start ch w).1 <> TimerStarted -> (debat_start ch w).2 = w.
Proof.
  unfold debat_start. destruct (session_at w ch) as [[l s]|]; [|reflexivity].
  destruct (running s); [reflexivity|].
  destruct (_ || _); [reflexivity|]. simpl. congruence.
Qed.

(** While the channel's session is flagged as running, [debat_start]
    answers that the debate already runs and starts nothing. *)
Lemma debat_start_while_running (ch : Z) (w : World) (l : nat) (s : DebateSession) :
  session_at w ch = Some (l, s) -> running s = true ->
  debat_start ch w = (AlreadyRunning, w).
Proof. intros Hat Hr. unfold debat_start. rewrite Hat, Hr. reflexivity. Qed.

Lemma debat_start_spawned (ch : Z) (w : World) :
  (debat_start ch w).1 = TimerStarted ->
  exists l s,
    session_at w ch = Some (l, s) /\
    (debat_start ch w).2 =
    mkWorld (heap w) (debate_sessions w)
      (<[ch := length (tasks w)]> (debate_tasks w))
      (tasks (cancel_task ch w) ++ [mkTask l NotStarted false]) (log w).
Proof.
  unfold debat_start. destruct (session_at w ch) as [[l s]|]; [|discriminate].
  destruct (running s); [discriminate|].
  destruct (_ || _); [discriminate|]. simpl. intros _.
  destruct (cancel_task_fields ch w) as (-> & -> & -> & -> & ->). eauto.
Qed.

Lemma reply_eq_dec (r1 r2 : Reply) : {r1 = r2} + {r1 <> r2}.
Proof. decide equality; apply Side_eq_dec. Defined.

(** Only a successful [debat_start] adds a task. *)
Lemma exec_tasks_length (a : Action) (w : World) :
  length (tasks (exec a w)) = length (tasks w) \/
  exists ch, a = Start ch /\ (debat_start ch w).1 = TimerStarted.
Proof.
  destruct a as [ch guild secs nrounds title|ch author side|ch|ch author|ch|tid found|tid];
    simpl.
  - left. unfold debat_mulai. destruct (_ || _); reflexivity.
  - left. unfold debat_join. destruct (session_at w ch) as [[l s]|]; [|reflexivity].
    destruct (running s); [reflexivity|]. destruct side as [[]|]; reflexivity.
  - destruct (reply_eq_dec (debat_start ch w).1 TimerStarted) as [Hs|Hs]; [eauto|].
    left. rewrite (debat_start_refused ch w Hs). reflexivity.
  - left. unfold debat_poin. destruct (session_at w ch) as [[l s]|]; [|reflexivity].
    destruct (_side_of_user s author); reflexivity.
  - left. unfold debat_stop. destruct (session_at w ch) as [[l s]|]; [|reflexivity].
    simpl. destruct (cancel_task_fields ch (store l (set_running false s) w))
      as (_ & _ & _ & _ & ->). reflexivity.
  - left. unfold resume. destruct (tasks w !! tid) as [t|]; [|reflexivity].
    destruct (done t); [reflexivity|].
    destruct (t_cancel t); [simpl; apply length_insert|].
    destruct (heap w !! t_session t) as [s|]; [|reflexivity].
    destruct (runner_step found s (t_pc t)) as [[s' pc'] evs]. simpl.
    apply length_insert.
  - left. unfold fail. destruct (tasks w !! tid) as [t|]; [|reflexivity].
    destruct (t_pc t); try reflexivity; simpl; apply length_insert.
Qed.

(** A registration is only ever replaced by a successful [debat_start]
    on the same channel. *)
Lemma exec_debate_tasks (a : Action) (w : World) :
  debate_tasks (exec a w) = debate_tasks w \/
  exists ch, a = Start ch /\ (debat_start ch w).1 = TimerStarted.
Proof.
  destruct a as [ch guild secs nrounds title|ch author side|ch|ch author|ch|tid found|tid];
    simpl.
  - left. unfold debat_mulai. destruct (_ || _); reflexivity.
  - left. unfold debat_join. destruct (session_at w ch) as [[l s]|]; [|reflexivity].
    destruct (running s); [reflexivity|]. destruct side as [[]|]; reflexivity.
  - destruct (reply_eq_dec (debat_start ch w).1 TimerStarted) as [Hs|Hs]; [eauto|].
    left. rewrite (debat_start_refused ch w Hs). reflexivity.
  - left. unfold debat_poin. destruct (session_at w ch) as [[l s]|]; [|reflexivity].
    destruct (_side_of_user s author); reflexivity.
  - left. unfold debat_stop. destruct (session_at w ch) as [[l s]|]; [|reflexivity].
    simpl. destruct (cancel_task_fields ch (store l (set_running false s) w))
      as (_ & _ & -> & _ & _). reflexivity.
  - left. unfold resume. destruct (tasks w !! tid) as [t|]; [|reflexivity].
    destruct (done t); [reflexivity|].
    destruct (t_cancel t); [reflexivity|].
    destruct (heap w !! t_session t) as [s|]; [|reflexivity].
    destruct (runner_step found s (t_pc t)) as [[s' pc'] evs]. reflexivity.
  - left. unfold fail. destruct (tasks w !! tid) as [t|]; [|reflexivity].
    destruct (t_pc t); reflexivity.
Qed.

Lemma exec_sessions_registered (a : Action) (w : World) :
  sessions_registered w -> sessions_registered (exec a w).
Proof.
  intros Hinv ch l Hreg.
  assert (Hold : debate_sessions w !! ch = Some l ->
                 exists s, heap (exec a w) !! l = Some s /\ channel_id s = ch).
  { intros Hw. destruct (Hinv ch l Hw) as (s & Hs & Hc).
    destruct (exec_extends a w) as [Hh _].
    destruct (Hh l s Hs) as (s' & Hs' & Hc'). exists s'. split; [exact Hs'|congruence]. }
  destruct a as [ch0 guild secs nrounds title|ch0 author side|ch0|ch0 author|ch0|tid found|tid];
    simpl in *.
  - revert Hreg Hold. unfold debat_mulai. destruct (_ || _); simpl; [auto|].
    rewrite lookup_insert. case_decide; [|auto]. subst ch0. intros [= <-] _.
    eexists. split; [apply list_lookup_middle; reflexivity|reflexivity].
  - apply Hold. revert Hreg. unfold debat_join.
    destruct (session_at w ch0) as [[l0 s]|]; [|auto].
    destruct (running s); [auto|]. destruct side as [[]|]; auto.
  - apply Hold. revert Hreg.
    destruct (reply_eq_dec (debat_start ch0 w).1 TimerStarted) as [Hs|Hs].
    + destruct (debat_start_spawned ch0 w Hs) as (l0 & s & _ & ->). auto.
    + rewrite (debat_start_refused ch0 w Hs). auto.
  - apply Hold. revert Hreg. unfold debat_poin.
    destruct (session_at w ch0) as [[l0 s]|]; [|auto].
    destruct (_side_of_user s author); auto.
  - apply Hold. revert Hreg. unfold debat_stop.
    destruct (session_at w ch0) as [[l0 s]|]; [|auto]. simpl.
    destruct (cancel_task_fields ch0 (store l0 (set_running false s) w))
      as (_ & -> & _ & _ & _). simpl.
    rewrite lookup_delete_Some. intros [_ Hl]. exact Hl.
  - apply Hold. revert Hreg. unfold resume.
    destruct (tasks w !! tid) as [t|]; [|auto].
    destruct (done t); [auto|]. destruct (t_cancel t); [auto|].
    destruct (heap w !! t_session t) as [s|]; [|auto].
    destruct (runner_step found s (t_pc t)) as [[s' pc'] evs]. auto.
  - apply Hold. revert Hreg. unfold fail.
    destruct (tasks w !! tid) as [t|]; [|auto].
    destruct (t_pc t); auto.
Qed.

Lemma exec_runners_registered (a : Action) (w : World) :
  sessions_registered w -> runners_registered w -> runners_registered (exec a w).
Proof.
  intros Hsess Hinv tid Halive.
  destruct (decide (tid < length (tasks w))%nat) as [Hlt|Hge].
  - (* a task that was there before the step *)
    pose proof (lookup_lt_is_Some_2 _ _ Hlt) as Hsome.
    destruct (alive w tid) eqn:Hbefore.
    2:{ rewrite (extends_not_alive w (exec a w) tid (exec_extends a w) Hsome Hbefore)
          in Halive. discriminate. }
    destruct (Hinv tid Hbefore) as (ch & Hch & Hreg).
    exists ch. split; [eapply extends_task_channel; [apply exec_extends|exact Hch]|].
    destruct (exec_debate_tasks a w) as [->|(ch0 & -> & Hs)]; [exact Hreg|].
    simpl in *. destruct (debat_start_spawned ch0 w Hs) as (l & s & _ & Hw).
    rewrite Hw in *. simpl. rewrite lookup_insert_ne; [exact Hreg|].
    intros ->. pose proof (cancel_task_kills ch w tid Hreg) as Hkill.
    destruct (cancel_task_fields ch w) as (_ & _ & _ & _ & Hlen).
    unfold alive in Halive, Hkill. simpl in Halive.
    rewrite lookup_app_l in Halive by lia. rewrite Hkill in Halive. discriminate.
  - (* a task the step created *)
    apply alive_is_Some in Halive as Hsome. apply lookup_lt_is_Some_1 in Hsome.
    destruct (exec_tasks_length a w) as [Hlen|(ch0 & -> & Hs)]; [lia|].
    simpl in *. destruct (debat_start_spawned ch0 w Hs) as (l & s & Hat & Hw).
    rewrite Hw in *. simpl in *.
    destruct (cancel_task_fields ch0 w) as (_ & _ & _ & _ & Hlen).
    rewrite length_app in Hsome. simpl in Hsome.
    assert (tid = length (tasks (cancel_task ch0 w))) as -> by lia.
    apply session_at_Some in Hat as [Hreg Hl].
    destruct (Hsess ch0 l Hreg) as (s' & Hl' & Hc).
    exists ch0. split.
    + unfold task_channel. simpl. rewrite list_lookup_middle by reflexivity.
      simpl. rewrite Hl'. simpl. congruence.
    + rewrite Hlen. apply lookup_insert_eq.
Qed.

Lemma init_registered : sessions_registered init /\ runners_registered init.
Proof.
  split.
  - intros ch l. unfold init. simpl. rewrite lookup_empty. discriminate.
  - intros tid. unfold alive, init. simpl. discriminate.
Qed.

Lemma run_registered (acts : list Action) (w : World) :
  sessions_registered w /\ runners_registered w ->
  sessions_registered (run acts w) /\ runners_registered (run acts w).
Proof.
  revert w. unfold run. induction acts as [|a acts IH]; intros w [Hs Hr]; simpl; [auto|].
  apply IH. split; [apply exec_sessions_registered | apply exec_runners_registered]; auto.
Qed.

Lemma run_extends (acts : list Action) (w : World) : extends w (run acts w).
Proof.
  revert w. unfold run. induction acts as [|a acts IH]; intros w; simpl.
  - apply extends_refl.
  - eapply extends_trans; [apply exec_extends | apply IH].
Qed.

(** A step adds to the log only events of the task it resumes, and only
    if that task can still run. *)
Lemma exec_emitted (a : Action) (w : World) (tid : nat) :
  alive w tid = false -> emitted_by tid (exec a w) = emitted_by tid w.
Proof.
  intros Hdead.
  destruct a as [ch guild secs nrounds title|ch author side|ch|ch author|ch|tid0 found|tid0];
    simpl.
  - unfold debat_mulai. destruct (_ || _); reflexivity.
  - unfold debat_join. destruct (session_at w ch) as [[l s]|]; [|reflexivity].
    destruct (running s); [reflexivity|]. destruct side as [[]|]; reflexivity.
  - destruct (reply_eq_dec (debat_start ch w).1 TimerStarted) as [Hs|Hs].
    + destruct (debat_start_spawned ch w Hs) as (l0 & s & _ & ->). reflexivity.
    + rewrite (debat_start_refused ch w Hs). reflexivity.
  - unfold debat_poin. destruct (session_at w ch) as [[l s]|]; [|reflexivity].
    destruct (_side_of_user s author); reflexivity.
  - unfold debat_stop. destruct (session_at w ch) as [[l s]|]; [|reflexivity].
    unfold emitted_by. simpl.
    destruct (cancel_task_fields ch (store l (set_running false s) w))
      as (_ & _ & _ & -> & _). reflexivity.
  - unfold resume. destruct (tasks w !! tid0) as [t|] eqn:Ht; [|reflexivity].
    destruct (done t) eqn:Hd; [reflexivity|].
    destruct (t_cancel t) eqn:Hc; [reflexivity|].
    destruct (heap w !! t_session t) as [s|]; [|reflexivity].
    destruct (runner_step found s (t_pc t)) as [[s' pc'] evs].
    unfold emitted_by. simpl. rewrite filter_app.
    assert (Hne : tid0 <> tid).
    { intros ->. unfold alive in Hdead. rewrite Ht, Hd, Hc in Hdead. discriminate. }
    assert (Hnil : filter (fun p : nat * Event => p.1 = tid)
                     ((fun e => (tid0, e)) <$> evs) = []).
    { clear -Hne. induction evs as [|e evs IH]; [reflexivity|].
      simpl. rewrite filter_cons. simpl. case_decide; [contradiction|exact IH]. }
    rewrite Hnil, app_nil_r. reflexivity.
  - unfold fail. destruct (tasks w !! tid0) as [t|]; [|reflexivity].
    destruct (t_pc t); reflexivity.
Qed.

Lemma run_emitted (acts : list Action) (w : World) (tid : nat) :
  is_Some (tasks w !! tid) -> alive w tid = false ->
  emitted_by tid (run acts w) = emitted_by tid w.
Proof.
  revert w. unfold run. induction acts as [|a acts IH]; intros w Hsome Hdead; simpl;
    [reflexivity|].
  rewrite IH.
  - apply exec_emitted, Hdead.
  - eapply extends_task_stays; [apply exec_extends|exact Hsome].
  - eapply extends_not_alive; [apply exec_extends|exact Hsome|exact Hdead].
Qed.

Lemma debat_start_log (ch : Z) (w : World) :
  log (debat_start ch w).2 = log w.
Proof.
  destruct (reply_eq_dec (debat_start ch w).1 TimerStarted) as [Hs|Hs].
  - destruct (debat_start_spawned ch w Hs) as (l & s & _ & ->). reflexivity.
  - rewrite (debat_start_refused ch w Hs). reflexivity.
Qed.

Lemma debat_stop_log (ch : Z) (w : World) :
  log (debat_stop ch w).2 = log w.
Proof.
  unfold debat_stop. destruct (session_at w ch) as [[l s]|]; [|reflexivity]. simpl.
  destruct (cancel_task_fields ch (store l (set_running false s) w))
    as (_ & _ & _ & -> & _). reflexivity.
Qed.

(** After a successful [debat_start] no earlier task of the channel can
    run, provided the tasks that could run were registered. *)
Lemma debat_start_kills (ch : Z) (w : World) (tid : nat) :
  runners_registered w -> task_channel w tid = Some ch ->
  (debat_start ch w).1 = TimerStarted ->
  alive (debat_start ch w).2 tid = false.
Proof.
  intros Hinv Hch Hs.
  pose proof (task_channel_is_Some w tid ch Hch) as Hsome.
  destruct (alive w tid) eqn:Hbefore.
  - destruct (Hinv tid Hbefore) as (ch' & Hch' & Hreg).
    assert (ch' = ch) as -> by congruence.
    destruct (debat_start_spawned ch w Hs) as (l & s & _ & ->).
    pose proof (cancel_task_kills ch w tid Hreg) as Hkill.
    destruct (cancel_task_fields ch w) as (_ & _ & _ & _ & Hlen).
    apply lookup_lt_is_Some_1 in Hsome.
    unfold alive in *. simpl. rewrite lookup_app_l by lia. exact Hkill.
  - exact (extends_not_alive w _ tid (exec_extends (Start ch) w) Hsome Hbefore).
Qed.

(** The task a successful [debat_start] attaches can run and belongs to
    the channel. *)
Lemma debat_start_attaches (ch : Z) (w : World) :
  sessions_registered w -> (debat_start ch w).1 = TimerStarted ->
  alive (debat_start ch w).2 (length (tasks w)) = true /\
  task_channel (debat_start ch w).2 (length (tasks w)) = Some ch /\
  debate_tasks (debat_start ch w).2 !! ch = Some (length (tasks w)).
Proof.
  intros Hsess Hs.
  destruct (debat_start_spawned ch w Hs) as (l & s & Hat & ->).
  destruct (cancel_task_fields ch w) as (_ & _ & _ & _ & Hlen).
  apply session_at_Some in Hat as [Hreg Hl].
  destruct (Hsess ch l Hreg) as (s' & Hl' & Hc).
  unfold alive, task_channel. simpl. rewrite <- Hlen.
  rewrite list_lookup_middle by reflexivity. simpl. rewrite Hl'. simpl.
  rewrite Hlen, lookup_insert_eq. repeat split. congruence.
Qed.

(** After a [debat_stop] that found a session no task of the channel can
    run. *)
Lemma debat_stop_kills (ch : Z) (w : World) (tid : nat) :
  runners_registered w -> task_channel w tid = Some ch ->
  (debat_stop ch w).1 = Stopped ->
  alive (debat_stop ch w).2 tid = false.
Proof.
  intros Hinv Hch Hs.
  pose proof (task_channel_is_Some w tid ch Hch) as Hsome.
  destruct (alive w tid) eqn:Hbefore.
  - destruct (Hinv tid Hbefore) as (ch' & Hch' & Hreg).
    assert (ch' = ch) as -> by congruence.
    revert Hs. unfold debat_stop.
    destruct (session_at w ch) as [[l s]|]; [|discriminate]. intros _. simpl.
    exact (cancel_task_kills ch (store l (set_running false s) w) tid Hreg).
  - exact (extends_not_alive w _ tid (exec_extends (Stop ch) w) Hsome Hbefore).
Qed.

(** C8: in every state the commands and the event loop can reach from
    the start of the bot, (1) at most one task that can still run belongs
    to any channel; (2) a successful [debat_start] leaves no earlier task
    of the channel able to run, attaches a new task to the channel, and
    whatever happens afterwards no earlier task of the channel emits
    anything more; (3) after a [debat_stop] that found a session no task
    of the channel can run, and none emits anything more. *)
Theorem one_runner_per_channel (acts : list Action) :
  let w := run acts init in
  (forall ch t1 t2,
     task_channel w t1 = Some ch -> task_channel w t2 = Some ch ->
     alive w t1 = true -> alive w t2 = true -> t1 = t2) /\
  (forall ch t,
     task_channel w t = Some ch -> (debat_start ch w).1 = TimerStarted ->
     alive (debat_start ch w).2 t = false /\
     alive (debat_start ch w).2 (length (tasks w)) = true /\
     task_channel (debat_start ch w).2 (length (tasks w)) = Some ch /\
     forall more, emitted_by t (run more (debat_start ch w).2) = emitted_by t w) /\
  (forall ch t,
     task_channel w t = Some ch -> (debat_stop ch w).1 = Stopped ->
     alive (debat_stop ch w).2 t = false /\
     forall more, emitted_by t (run more (debat_stop ch w).2) = emitted_by t w).
Proof.
  intros w. destruct (run_registered acts init init_registered) as [Hsess Hrun].
  fold w in Hsess, Hrun. split; [|split].
  - intros ch t1 t2 Hc1 Hc2 Ha1 Ha2.
    destruct (Hrun t1 Ha1) as (c1 & Hc1' & Hr1).
    destruct (Hrun t2 Ha2) as (c2 & Hc2' & Hr2).
    assert (c1 = ch) as -> by congruence. assert (c2 = ch) as -> by congruence.
    congruence.
  - intros ch t Hch Hs.
    pose proof (debat_start_kills ch w t Hrun Hch Hs) as Hdead.
    destruct (debat_start_attaches ch w Hsess Hs) as (Hnew & Hnewch & _).
    repeat split; try assumption. intros more.
    rewrite run_emitted.
    + unfold emitted_by. rewrite debat_start_log. reflexivity.
    + apply (extends_task_stays w _ t (exec_extends (Start ch) w)).
      exact (task_channel_is_Some w t ch Hch).
    + exact Hdead.
  - intros ch t Hch Hs.
    pose proof (debat_stop_kills ch w t Hrun Hch Hs) as Hdead.
    split; [exact Hdead|]. intros more.
    rewrite run_emitted.
    + unfold emitted_by. rewrite debat_stop_log. reflexivity.
    + apply (extends_task_stays w _ t (exec_extends (Stop ch) w)).
      exact (task_channel_is_Some w t ch Hch).
    + exact Hdead.
Qed.

(** The scenario [two_starts]: before the second [debat_start] the first
    runner can run; the second [debat_start] succeeds and cancels it; from
    then on only the second runner emits; and [debat_stop] ends it too. *)
Lemma two_starts_example :
  let w0 := run (take 9 two_starts) init in
  let w := run two_starts init in
  alive w0 0 = true /\ (debat_start 1 w0).1 = TimerStarted /\
  task_channel w 0 = Some 1 /\ task_channel w 1 = Some 1 /\
  alive w 0 = false /\ alive w 1 = true /\
  emitted_by 0 (run after_two_starts w) =
    [Send (MsgStart "satu" 30); Send (MsgTurn 1 2 PRO 101 30)] /\
  emitted_by 1 (run after_two_starts w) =
    [Send (MsgStart "dua" 30); Send (MsgTurn 1 1 PRO 103 30); Sleep 30] /\
  alive (run [Stop 1] (run after_two_starts w)) 1 = false /\
  emitted_by 1 (run [Stop 1; Resume 1 true; Resume 1 true] (run after_two_starts w)) =
    [Send (MsgStart "dua" 30); Send (MsgTurn 1 1 PRO 103 30); Sleep 30].
Proof. vm_compute. repeat split. Qed.

End DebateRunners.

(** ** Card engine: best totals, the deck, the dealer's turn, QQ *)

Module CardsExtra.

Import Cards CardsTheory.
Local Open Scope Z_scope.

Lemma adjusted_counted (cs : list Card) :
  exists k : nat,
    (k <= (sum_cards cs).2)%nat /\
    (calculate_hand_value cs).1 = counted cs k /\
    (counted cs k <= 21 \/ k = (sum_cards cs).2) /\
    (forall j : nat, (j < k)%nat -> 21 < counted cs j).
Proof.
  rewrite calculate_hand_value_total. unfold adjusted, counted.
  destruct (sum_cards cs) as [t a]. simpl.
  destruct (adjust_aces_spec t a) as (k & Hk & Heq & Hstop & Hmin).
  exists k. rewrite Heq. simpl. auto.
Qed.

(** The reported total is the best way of counting the aces: the highest
    count that does not exceed 21 when there is one, and otherwise the
    lowest count, with every ace as 1. *)
Theorem calculate_hand_value_best (cs : list Card) :
  let total := (calculate_hand_value cs).1 in
  let aces := (sum_cards cs).2 in
  (exists k : nat, (k <= aces)%nat /\ total = counted cs k) /\
  (total <= 21 ->
   forall j : nat, (j <= aces)%nat -> counted cs j <= 21 -> counted cs j <= total) /\
  (21 < total ->
   total = counted cs aces /\ forall j : nat, (j <= aces)%nat -> 21 < counted cs j).
Proof.
  intros total aces. subst total aces.
  destruct (adjusted_counted cs) as (k & Hk & Heq & Hstop & Hmin).
  rewrite Heq. split; [eauto|]. split.
  - intros Hle j Hj Hjle. unfold counted in *.
    destruct (decide (j < k)%nat) as [Hlt|Hge]; [specialize (Hmin j Hlt); lia | lia].
  - intros Hbust. destruct Hstop as [Hle | ->]; [lia|].
    split; [reflexivity|]. intros j Hj. unfold counted in *. lia.
Qed.

(** A two-card hand is worth 21 exactly when it is an ace with a
    ten-valued card. *)
Lemma two_cards_21 (c1 c2 : Card) :
  ((calculate_hand_value [c1; c2]).1 =? 21) = natural_pair c1 c2.
Proof. destruct c1 as [s1 r1], c2 as [s2 r2]. destruct r1, r2; reflexivity. Qed.

Lemma full_deck_NoDup : NoDup full_deck.
Proof. apply (bool_decide_unpack _). vm_compute. reflexivity. Qed.

Lemma pop_snoc (l : list Card) (c : Card) : pop (l ++ [c]) = Some (c, l).
Proof.
  unfold pop. rewrite last_snoc, length_app. simpl.
  replace (length l + 1 - 1)%nat with (length l) by lia.
  rewrite take_app_length. reflexivity.
Qed.

Lemma pop_nonempty (l : list Card) :
  l <> [] -> exists c rest, pop l = Some (c, rest) /\ l = rest ++ [c].
Proof.
  intros Hne. destruct (last l) as [c|] eqn:Hl.
  - apply last_Some in Hl as [rest ->]. exists c, rest. split; [apply pop_snoc|reflexivity].
  - apply last_None in Hl. contradiction.
Qed.

Section Shuffled.

Context {rng : Type}.
Variable random_shuffle : forall A : Type, rng -> list A -> list A * rng.

(** All that is assumed of [random.shuffle]: it permutes its list. *)
Hypothesis random_shuffle_perm :
  forall (A : Type) (g : rng) (l : list A), (random_shuffle A g l).1 ≡ₚ l.

Local Abbreviation new_deck := (new_deck random_shuffle).
Local Abbreviation draw := (draw random_shuffle).

Lemma new_deck_perm (g : rng) : cards (new_deck 1 g) ≡ₚ full_deck.
Proof.
  unfold Cards.new_deck.
  replace (mjoin (replicate 1 full_deck)) with full_deck by reflexivity.
  pose proof (random_shuffle_perm Card g full_deck) as Hp.
  destruct (random_shuffle Card g full_deck) as [cs g']. exact Hp.
Qed.

Lemma new_deck_length (g : rng) : length (cards (new_deck 1 g)) = 52%nat.
Proof. rewrite (Permutation_length (new_deck_perm g)). reflexivity. Qed.

(** A deck of ten or more cards gives its last card. *)
Lemma draw_big (d : Deck) :
  (10 <= length (cards d))%nat ->
  exists c rest, draw d = Some (c, mkDeck rest (gen d)) /\ cards d = rest ++ [c].
Proof.
  intros Hlen. unfold Cards.draw.
  rewrite (proj2 (Nat.ltb_ge _ _) Hlen).
  destruct (pop_nonempty (cards d)) as (c & rest & -> & Heq).
  { intros Hnil. rewrite Hnil in Hlen. simpl in Hlen. lia. }
  eauto.
Qed.

(** A deck of fewer than ten cards is thrown away for a fresh one. *)
Lemma draw_small (d : Deck) :
  (length (cards d) < 10)%nat ->
  exists c rest,
    draw d = Some (c, mkDeck rest (gen (new_deck 1 (gen d)))) /\
    cards (new_deck 1 (gen d)) = rest ++ [c].
Proof.
  intros Hlen. unfold Cards.draw.
  rewrite (proj2 (Nat.ltb_lt _ _) Hlen).
  destruct (pop_nonempty (cards (new_deck 1 (gen d)))) as (c & rest & -> & Heq).
  { intros Hnil. pose proof (new_deck_length (gen d)) as H52.
    rewrite Hnil in H52. discriminate. }
  eauto.
Qed.

(** [Deck.draw] never fails: it returns a card and leaves at least 9
    cards. A deck of ten or more cards gives up its last card and nothing
    else changes; a deck of fewer than ten cards is replaced by a fresh
    shuffled deck of 52 first, so the card and the 51 cards left are
    together a full deck. *)
Theorem draw_never_fails (d : Deck) :
  exists c d',
    draw d = Some (c, d') /\
    (9 <= length (cards d'))%nat /\
    ((10 <= length (cards d))%nat -> cards d = cards d' ++ [c] /\ gen d' = gen d) /\
    ((length (cards d) < 10)%nat ->
     cards d' ++ [c] ≡ₚ full_deck /\ length (cards d') = 51%nat).
Proof.
  destruct (decide (10 <= length (cards d))%nat) as [Hbig|Hsmall].
  - destruct (draw_big d Hbig) as (c & rest & Hd & Heq).
    exists c, (mkDeck rest (gen d)). split; [exact Hd|]. simpl.
    assert (Hlen : length (cards d) = (length rest + 1)%nat)
      by (rewrite Heq, length_app; reflexivity).
    split; [lia|]. split; [auto | lia].
  - destruct (draw_small d ltac:(lia)) as (c & rest & Hd & Heq).
    exists c, (mkDeck rest (gen (new_deck 1 (gen d)))). split; [exact Hd|]. simpl.
    pose proof (new_deck_length (gen d)) as H52.
    pose proof (new_deck_perm (gen d)) as Hp.
    rewrite Heq in H52, Hp. rewrite length_app in H52. simpl in H52.
    split; [lia|]. split; [lia|]. intros _. split; [exact Hp | lia].
Qed.

End Shuffled.

Lemma value_range (c : Card) :
  2 <= value c <= 11 /\ (is_ace c = true -> value c = 11) /\
  (is_ace c = false -> value c <= 10).
Proof.
  destruct c as [s r]. destruct r; cbn [value is_ace rank rank_number];
    repeat split; intros; try lia; discriminate.
Qed.

Lemma counted_snoc (cs : list Card) (c : Card) (j : nat) :
  counted (cs ++ [c]) j = counted cs j + value c.
Proof. unfold counted. rewrite sum_cards_app. simpl. lia. Qed.

Lemma aces_snoc (cs : list Card) (c : Card) :
  (sum_cards (cs ++ [c])).2 =
  if is_ace c then S (sum_cards cs).2 else (sum_cards cs).2.
Proof. rewrite sum_cards_app. reflexivity. Qed.

(** One more card adds at most its value to the total, and an ace added
    to a total of 11 or more adds just 1. *)
Lemma hit_total (cs : list Card) (c : Card) :
  (calculate_hand_value (cs ++ [c])).1 <= (calculate_hand_value cs).1 + value c /\
  (is_ace c = true -> 11 <= (calculate_hand_value cs).1 ->
   (calculate_hand_value (cs ++ [c])).1 <= (calculate_hand_value cs).1 + 1).
Proof.
  destruct (adjusted_counted cs) as (k & Hk & Heq & Hstop & Hmin).
  destruct (adjusted_counted (cs ++ [c])) as (k' & Hk' & Heq' & Hstop' & _).
  destruct (value_range c) as (Hv & Hace & _).
  rewrite Heq, Heq'. rewrite counted_snoc in *. rewrite aces_snoc in *.
  unfold counted in *. split.
  - destruct (decide (k' < k)%nat) as [Hlt|Hge]; [|lia].
    specialize (Hmin k' Hlt). destruct (is_ace c); lia.
  - intros Hc Hge. rewrite Hc in *. rewrite (Hace eq_refl) in *. lia.
Qed.

(** The total is at least the number of cards. *)
Lemma total_ge_length (cs : list Card) :
  Z.of_nat (length cs) <= (calculate_hand_value cs).1.
Proof.
  destruct (adjusted_counted cs) as (k & Hk & -> & _ & _).
  destruct (sum_cards_bound cs) as [Ha Ht]. unfold counted. lia.
Qed.

(** A hand of 16 or less is at most 26 after one more card. *)
Lemma hit_from_16 (cs : list Card) (c : Card) :
  (calculate_hand_value cs).1 <= 16 -> (calculate_hand_value (cs ++ [c])).1 <= 26.
Proof.
  intros Hv. destruct (hit_total cs c) as [Hadd Hace].
  destruct (value_range c) as (_ & Hval & Hnon).
  destruct (is_ace c) eqn:Hc.
  - destruct (decide (11 <= (calculate_hand_value cs).1)) as [Hge|Hlt].
    + specialize (Hace eq_refl Hge). lia.
    + rewrite (Hval eq_refl) in Hadd. lia.
  - specialize (Hnon eq_refl). lia.
Qed.

Section Play.

Context {rng : Type}.
Variable random_shuffle : forall A : Type, rng -> list A -> list A * rng.

Hypothesis random_shuffle_perm :
  forall (A : Type) (g : rng) (l : list A), (random_shuffle A g l).1 ≡ₚ l.

Local Abbreviation draw := (draw random_shuffle).
Local Abbreviation dealer_draws := (dealer_draws random_shuffle).
Local Abbreviation play_dealer := (play_dealer random_shuffle).
Local Abbreviation player_hit := (player_hit random_shuffle).

Lemma draw_Some (d : Deck) : exists c d', draw d = Some (c, d').
Proof.
  destruct (decide (10 <= length (cards d))%nat) as [Hbig|Hsmall].
  - destruct (draw_big random_shuffle d Hbig) as (c & rest & Hd & _). eauto.
  - destruct (draw_small random_shuffle random_shuffle_perm d ltac:(lia))
      as (c & rest & Hd & _). eauto.
Qed.

(** The dealer's loop condition is just "under 17". *)
Lemma dealer_condition (hand : list Card) :
  let '(v, soft) := calculate_hand_value hand in
  (v <? 17) || ((v =? 17) && soft) = (v <? 17).
Proof.
  pose proof (soft_17_never_reported hand) as Hs.
  destruct (calculate_hand_value hand) as [v soft]. rewrite Hs. apply orb_false_r.
Qed.

(** With enough fuel the dealer's loop ends. *)
Lemma dealer_draws_enough (fuel : nat) (d : Deck) (hand : list Card) :
  (17 <= length hand + fuel)%nat ->
  exists d' drawn,
    dealer_draws fuel d hand = Some (d', hand ++ drawn) /\
    17 <= (calculate_hand_value (hand ++ drawn)).1 /\
    (drawn = [] -> d' = d) /\
    (drawn <> [] -> (calculate_hand_value (hand ++ drawn)).1 <= 26) /\
    (length drawn <= fuel)%nat.
Proof.
  revert d hand. induction fuel as [|fuel IH]; intros d hand Hlen.
  - pose proof (total_ge_length hand) as Hge.
    pose proof (dealer_condition hand) as Hcond. simpl.
    destruct (calculate_hand_value hand) as [v soft] eqn:Hv. simpl in Hge.
    rewrite Hcond, (proj2 (Z.ltb_ge v 17)) by lia.
    exists d, []. rewrite app_nil_r, Hv. simpl.
    repeat split; try lia; try reflexivity. congruence.
  - pose proof (dealer_condition hand) as Hcond. simpl.
    destruct (calculate_hand_value hand) as [v soft] eqn:Hv.
    rewrite Hcond. destruct (v <? 17) eqn:Hlt.
    + apply Z.ltb_lt in Hlt.
      destruct (draw_Some d) as (c & d1 & Hd). rewrite Hd.
      destruct (IH d1 (hand ++ [c])) as (d' & drawn & Hrun & H17 & _ & H26 & Hn).
      { rewrite length_app. simpl. lia. }
      exists d', (c :: drawn). rewrite <- app_assoc in *. simpl in *.
      split; [exact Hrun|]. split; [exact H17|].
      split; [discriminate|]. split; [|lia]. intros _.
      destruct drawn as [|c' drawn]; [|apply H26; discriminate].
      apply hit_from_16. rewrite Hv. simpl. lia.
    + apply Z.ltb_ge in Hlt. exists d, []. rewrite app_nil_r, Hv. simpl.
      repeat split; try lia; try reflexivity. congruence.
Qed.

(** More fuel does not change a result. *)
Lemma dealer_draws_more (fuel extra : nat) (d : Deck) (hand : list Card)
  (r : Deck * list Card) :
  dealer_draws fuel d hand = Some r -> dealer_draws (fuel + extra) d hand = Some r.
Proof.
  revert d hand. induction fuel as [|fuel IH]; intros d hand; simpl.
  - destruct (calculate_hand_value hand) as [v soft] eqn:Hv.
    destruct ((v <? 17) || ((v =? 17) && soft)) eqn:Hc; [discriminate|].
    intros Hr. destruct extra; simpl; rewrite Hv, Hc; exact Hr.
  - destruct (calculate_hand_value hand) as [v soft].
    destruct ((v <? 17) || ((v =? 17) && soft)); [|auto].
    destruct (Cards.draw random_shuffle d) as [[c d1]|]; [apply IH|discriminate].
Qed.

(** [play_dealer] always finishes, after at most 17 draws: the dealer
    keeps the cards held and adds the cards drawn, ends on a total of at
    least 17, and of at most 26 if any card was drawn; the deck is
    untouched if none was; the player's cards are as they were and the
    result is the comparison of the two hands. *)
Theorem play_dealer_finishes (g : BlackjackGame) :
  exists g' drawn,
    (forall fuel, (17 <= fuel)%nat -> play_dealer fuel g = Some g') /\
    dealer_hand g' = dealer_hand g ++ drawn /\
    (length drawn <= 17)%nat /\
    17 <= (calculate_hand_value (dealer_hand g')).1 /\
    (drawn <> [] -> (calculate_hand_value (dealer_hand g')).1 <= 26) /\
    (drawn = [] -> deck g' = deck g) /\
    player_hand g' = player_hand g /\
    game_over g' = game_over g /\
    result g' = Some (compare_hands (player_hand g) (dealer_hand g')).
Proof.
  destruct (dealer_draws_enough 17 (deck g) (dealer_hand g) ltac:(lia))
    as (d' & drawn & Hrun & H17 & Hsame & H26 & Hn).
  eexists (mkGame (player_id g) d' (player_hand g) (dealer_hand g ++ drawn)
             (game_over g) _), drawn.
  split; [|simpl; repeat split; auto].
  intros fuel Hfuel. unfold Cards.play_dealer.
  replace fuel with (17 + (fuel - 17))%nat by lia.
  rewrite (dealer_draws_more 17 (fuel - 17) _ _ _ Hrun). reflexivity.
Qed.

(** [player_hit] always draws one card for the player and leaves the
    dealer's cards alone; the total grows by at most 11; a player on 11
    or less never busts; and the game is over with a bust exactly when
    the new total exceeds 21. *)
Theorem player_hit_spec (g : BlackjackGame) :
  exists c g',
    player_hit g = Some (c, g') /\
    player_hand g' = player_hand g ++ [c] /\
    dealer_hand g' = dealer_hand g /\
    (calculate_hand_value (player_hand g')).1
      <= (calculate_hand_value (player_hand g)).1 + 11 /\
    ((calculate_hand_value (player_hand g)).1 <= 11 ->
     (calculate_hand_value (player_hand g')).1 <= 21) /\
    (21 < (calculate_hand_value (player_hand g')).1 ->
     game_over g' = true /\ result g' = Some PlayerBust) /\
    ((calculate_hand_value (player_hand g')).1 <= 21 ->
     game_over g' = game_over g /\ result g' = result g).
Proof.
  destruct (draw_Some (deck g)) as (c & d1 & Hd).
  destruct (hit_total (player_hand g) c) as [Hadd Hace].
  destruct (value_range c) as (Hv & Hval & Hnon).
  assert (Hsafe : (calculate_hand_value (player_hand g)).1 <= 11 ->
                  (calculate_hand_value (player_hand g ++ [c])).1 <= 21).
  { intros Hle. destruct (is_ace c) eqn:Hc.
    - destruct (decide (11 <= (calculate_hand_value (player_hand g)).1)) as [Hge|Hlt].
      + specialize (Hace eq_refl Hge). lia.
      + lia.
    - specialize (Hnon eq_refl). lia. }
  unfold Cards.player_hit. rewrite Hd.
  destruct (21 <? (calculate_hand_value (player_hand g ++ [c])).1) eqn:Hbust.
  - apply Z.ltb_lt in Hbust. eexists _, _. split; [reflexivity|]. simpl.
    repeat split; auto; lia.
  - apply Z.ltb_ge in Hbust. eexists _, _. split; [reflexivity|]. simpl.
    repeat split; auto; lia.
Qed.

End Play.

Section Deals.

Context {rng : Type}.
Variable random_shuffle : forall A : Type, rng -> list A -> list A * rng.

Hypothesis random_shuffle_perm :
  forall (A : Type) (g : rng) (l : list A), (random_shuffle A g l).1 ≡ₚ l.

Local Abbreviation draw := (draw random_shuffle).

(** On the opening deal [check_blackjack] ends the game exactly when the
    player's or the dealer's two cards are an ace and a ten-valued card,
    and the player's natural wins even when the dealer holds one too. *)
Theorem check_blackjack_natural (pid : Z) (d : Deck (rng := rng))
  (p1 p2 d1 d2 : Card) (over : bool) (res : option Outcome) :
  let g := mkGame pid d [p1; p2] [d1; d2] over res in
  check_blackjack g =
  if natural_pair p1 p2 then
    (true, mkGame pid d [p1; p2] [d1; d2] true (Some PlayerBlackjack))
  else if natural_pair d1 d2 then
    (true, mkGame pid d [p1; p2] [d1; d2] true (Some DealerBlackjack))
  else (false, g).
Proof.
  intros g. subst g. unfold check_blackjack. cbn [player_hand dealer_hand length].
  rewrite !two_cards_21, !Nat.eqb_refl, !andb_true_r. reflexivity.
Qed.

Lemma draw_next (d : Deck) :
  (10 <= length (cards d))%nat ->
  exists c d',
    draw d = Some (c, d') /\ cards d = cards d' ++ [c] /\
    S (length (cards d')) = length (cards d).
Proof.
  intros Hbig. destruct (draw_big random_shuffle d Hbig) as (c & rest & Hd & Heq).
  exists c, (mkDeck rest (gen d)). split; [exact Hd|]. simpl. split; [exact Heq|].
  rewrite Heq, length_app. simpl. lia.
Qed.

(** [QQGame.__init__] always succeeds: it deals three cards to each side
    from a fresh deck, the six cards and the 46 cards left are together
    one full deck, so no card is dealt twice, and the values and the
    result are those of the two hands. *)
Theorem qq_new_game_deal (pid : Z) (g : rng) :
  exists game,
    qq_new_game random_shuffle pid g = Some game /\
    length (qq_player_hand game) = 3%nat /\ length (qq_dealer_hand game) = 3%nat /\
    qq_player_hand game ++ qq_dealer_hand game ++ cards (qq_deck game) ≡ₚ full_deck /\
    NoDup (qq_player_hand game ++ qq_dealer_hand game) /\
    qq_player_value game = qq_hand_value (qq_player_hand game) /\
    qq_dealer_value game = qq_hand_value (qq_dealer_hand game) /\
    qq_result game = _resolve_result (qq_player_value game) (qq_dealer_value game).
Proof.
  pose proof (new_deck_perm random_shuffle random_shuffle_perm g) as Hperm.
  pose proof (new_deck_length random_shuffle random_shuffle_perm g) as H52.
  unfold qq_new_game. set (d0 := new_deck random_shuffle 1 g) in *.
  destruct (draw_next d0 ltac:(lia)) as (c1 & x1 & -> & E1 & L1).
  destruct (draw_next x1 ltac:(lia)) as (c2 & x2 & D2 & E2 & L2).
  destruct (draw_next x2 ltac:(lia)) as (c3 & x3 & D3 & E3 & L3).
  destruct (draw_next x3 ltac:(lia)) as (c4 & x4 & D4 & E4 & L4).
  destruct (draw_next x4 ltac:(lia)) as (c5 & x5 & D5 & E5 & L5).
  destruct (draw_next x5 ltac:(lia)) as (c6 & x6 & D6 & E6 & L6).
  simpl. rewrite D2. simpl. rewrite D3. simpl. rewrite D4. simpl.
  rewrite D5. simpl. rewrite D6. simpl.
  eexists. split; [reflexivity|]. simpl.
  assert (Hall : [c1; c2; c3] ++ [c4; c5; c6] ++ cards x6 ≡ₚ full_deck).
  { rewrite <- Hperm, E1, E2, E3, E4, E5, E6.
    rewrite <- !app_assoc. simpl.
    rewrite (Permutation_app_comm (cards x6)). simpl.
    change ([c1; c2; c3; c4; c5; c6] ++ cards x6 ≡ₚ [c6; c5; c4; c3; c2; c1] ++ cards x6).
    apply Permutation_app_tail. apply (Permutation_rev [c1; c2; c3; c4; c5; c6]). }
  repeat split; try reflexivity.
  - exact Hall.
  - pose proof full_deck_NoDup as Hnd. rewrite <- Hall in Hnd.
    rewrite app_assoc in Hnd. apply NoDup_app in Hnd as [Hnd _]. exact Hnd.
Qed.

(** [BlackjackGame.__init__] always succeeds: two cards for the player,
    two for the dealer, all four different, 48 cards left, and the game
    not over. *)
Theorem new_game_deal (pid : Z) (g : rng) :
  exists game,
    new_game random_shuffle pid g = Some game /\
    length (player_hand game) = 2%nat /\ length (dealer_hand game) = 2%nat /\
    player_hand game ++ dealer_hand game ++ cards (deck game) ≡ₚ full_deck /\
    NoDup (player_hand game ++ dealer_hand game) /\
    game_over game = false /\ result game = None.
Proof.
  pose proof (new_deck_perm random_shuffle random_shuffle_perm g) as Hperm.
  pose proof (new_deck_length random_shuffle random_shuffle_perm g) as H52.
  unfold new_game. set (d0 := new_deck random_shuffle 1 g) in *.
  destruct (draw_next d0 ltac:(lia)) as (c1 & x1 & -> & E1 & L1).
  destruct (draw_next x1 ltac:(lia)) as (c2 & x2 & D2 & E2 & L2).
  destruct (draw_next x2 ltac:(lia)) as (c3 & x3 & D3 & E3 & L3).
  destruct (draw_next x3 ltac:(lia)) as (c4 & x4 & D4 & E4 & L4).
  simpl. rewrite D2. simpl. rewrite D3. simpl. rewrite D4. simpl.
  eexists. split; [reflexivity|]. simpl.
  assert (Hall : [c1; c2] ++ [c3; c4] ++ cards x4 ≡ₚ full_deck).
  { rewrite <- Hperm, E1, E2, E3, E4.
    rewrite <- !app_assoc. simpl.
    rewrite (Permutation_app_comm (cards x4)). simpl.
    change ([c1; c2; c3; c4] ++ cards x4 ≡ₚ [c4; c3; c2; c1] ++ cards x4).
    apply Permutation_app_tail. apply (Permutation_rev [c1; c2; c3; c4]). }
  repeat split; try reflexivity.
  - exact Hall.
  - pose proof full_deck_NoDup as Hnd. rewrite <- Hall in Hnd.
    rewrite app_assoc in Hnd. apply NoDup_app in Hnd as [Hnd _]. exact Hnd.
Qed.

End Deals.

Lemma foldl_add (a : Z) (l : list Z) : foldl Z.add a l = a + foldr Z.add 0 l.
Proof.
  revert a. induction l as [|x l IH]; intros a; simpl; [lia|]. rewrite IH. lia.
Qed.

Lemma qq_total_perm (l l' : list Z) : l ≡ₚ l' -> foldr Z.add 0 l = foldr Z.add 0 l'.
Proof. induction 1; simpl; lia. Qed.

(** The QQ value of a hand lies between 0 and 9, does not depend on the
    order of the cards, and is not changed by a 10, J, Q or K. *)
Theorem qq_hand_value_spec (cs cs' : list Card) (c : Card) :
  0 <= qq_hand_value cs <= 9 /\
  (cs ≡ₚ cs' -> qq_hand_value cs = qq_hand_value cs') /\
  (ten_valued c = true -> qq_hand_value (c :: cs) = qq_hand_value cs).
Proof.
  unfold qq_hand_value. split; [|split].
  - pose proof (Z.mod_pos_bound (foldl Z.add 0 (qq_card_value <$> cs)) 10). lia.
  - intros Hp. rewrite !foldl_add. f_equal. f_equal.
    apply qq_total_perm. rewrite Hp. reflexivity.
  - intros Hten. rewrite fmap_cons, !foldl_add. simpl.
    assert (qq_card_value c = 0) as ->; [|reflexivity].
    destruct c as [s r]. destruct r; try discriminate; reflexivity.
Qed.

(** The theorems of this module at the scripted generator: an empty deck
    is replaced and gives a card; a dealer holding 5 and 6 with a deck
    whose next cards are a 2 and a king ends on 23; a player on 5 and 6
    who draws a king stands on 21; and both deals succeed. *)
Lemma draw_never_fails_example :
  (forall (A : Type) (g : list bool) (l : list A),
     (Puzzle.scripted_shuffle A g l).1 ≡ₚ l) /\
  exists c d',
    draw Puzzle.scripted_shuffle (mkDeck [] [true]) = Some (c, d') /\
    length (cards d') = 51%nat.
Proof.
  split; [exact PuzzleTheory.scripted_shuffle_perm|].
  destruct (draw_never_fails Puzzle.scripted_shuffle PuzzleTheory.scripted_shuffle_perm
              (mkDeck [] [true])) as (c & d' & Hd & _ & _ & Hsmall).
  exists c, d'. split; [exact Hd|]. apply Hsmall. simpl. lia.
Defined.

Lemma play_dealer_finishes_example :
  let d := mkDeck (replicate 10 (mkCard Club R9) ++ [mkCard Heart RK; mkCard Spade R2])
             ([] : list bool) in
  let g := mkGame 7 d [mkCard Spade R10; mkCard Heart R8]
             [mkCard Club R5; mkCard Diamond R6] true None in
  (forall (A : Type) (g : list bool) (l : list A),
     (Puzzle.scripted_shuffle A g l).1 ≡ₚ l) /\
  exists g',
    play_dealer Puzzle.scripted_shuffle 17 g = Some g' /\
    dealer_hand g' =
      [mkCard Club R5; mkCard Diamond R6; mkCard Spade R2; mkCard Heart RK] /\
    result g' = Some (DealerBust 18).
Proof.
  intros d g. split; [exact PuzzleTheory.scripted_shuffle_perm|].
  destruct (play_dealer_finishes Puzzle.scripted_shuffle
              PuzzleTheory.scripted_shuffle_perm g)
    as (g' & drawn & Hrun & _).
  exists g'. split; [apply Hrun; lia|].
  specialize (Hrun 17%nat ltac:(lia)). vm_compute in Hrun.
  injection Hrun as <-. split; reflexivity.
Defined.

Lemma player_hit_spec_example :
  let d := mkDeck (replicate 10 (mkCard Club R9) ++ [mkCard Heart RK]) ([] : list bool) in
  let g := mkGame 7 d [mkCard Club R5; mkCard Diamond R6]
             [mkCard Spade R10; mkCard Heart R8] false None in
  (forall (A : Type) (g : list bool) (l : list A),
     (Puzzle.scripted_shuffle A g l).1 ≡ₚ l) /\
  exists c g',
    player_hit Puzzle.scripted_shuffle g = Some (c, g') /\
    c = mkCard Heart RK /\ game_over g' = false /\
    (calculate_hand_value (player_hand g')).1 = 21.
Proof.
  intros d g. split; [exact PuzzleTheory.scripted_shuffle_perm|].
  destruct (player_hit_spec Puzzle.scripted_shuffle
              PuzzleTheory.scripted_shuffle_perm g)
    as (c & g' & Hhit & _).
  exists c, g'. split; [exact Hhit|].
  vm_compute in Hhit. injection Hhit as <- <-. repeat split.
Defined.

Lemma qq_new_game_deal_example :
  (forall (A : Type) (g : list bool) (l : list A),
     (Puzzle.scripted_shuffle A g l).1 ≡ₚ l) /\
  exists game,
    qq_new_game Puzzle.scripted_shuffle 7 [false] = Some game /\
    qq_player_hand game = [mkCard Club RA; mkCard Club RK; mkCard Club RQ] /\
    qq_dealer_hand game = [mkCard Club RJ; mkCard Club R10; mkCard Club R9] /\
    qq_player_value game = 1 /\ qq_dealer_value game = 9 /\ qq_result game = QQLose.
Proof.
  split; [exact PuzzleTheory.scripted_shuffle_perm|].
  destruct (qq_new_game_deal Puzzle.scripted_shuffle
              PuzzleTheory.scripted_shuffle_perm 7 [false])
    as (game & Hnew & _).
  exists game. split; [exact Hnew|].
  vm_compute in Hnew. injection Hnew as <-. repeat split.
Defined.

Lemma new_game_deal_example :
  (forall (A : Type) (g : list bool) (l : list A),
     (Puzzle.scripted_shuffle A g l).1 ≡ₚ l) /\
  exists game,
    new_game Puzzle.scripted_shuffle 7 [false] = Some game /\
    player_hand game = [mkCard Club RA; mkCard Club RK] /\
    dealer_hand game = [mkCard Club RQ; mkCard Club RJ] /\
    (check_blackjack game).2.(result) = Some PlayerBlackjack.
Proof.
  split; [exact PuzzleTheory.scripted_shuffle_perm|].
  destruct (new_game_deal Puzzle.scripted_shuffle
              PuzzleTheory.scripted_shuffle_perm 7 [false])
    as (game & Hnew & _).
  exists game. split; [exact Hnew|].
  vm_compute in Hnew. injection Hnew as <-. repeat split.
Defined.

End CardsExtra.

(** ** Economy ledger: cooldowns, totals, the heist *)

Module LedgerExtra.

Import Ledger LedgerTheory.
Local Open Scope Z_scope.

Lemma expiry_ensure (g : GameData) (u v : Z) (k : string) :
  expiry (ensure_user_data u g) v k = expiry g v k.
Proof.
  unfold expiry, ensure_user_data. simpl. rewrite setdefault_lookup.
  case_decide; subst; [|reflexivity].
  destruct (cooldowns g !! v); reflexivity.
Qed.

Lemma expiry_set_points (g : GameData) (u x v : Z) (k : string) :
  expiry (set_points u x g) v k = expiry g v k.
Proof. reflexivity. Qed.

(** The operations as pairs of a result and a new state. *)
Lemma get_points_eq (u : Z) (g : GameData) :
  get_points u g = (balance g u, ensure_user_data u g).
Proof. reflexivity. Qed.

Lemma add_points_eq (u d : Z) (g : GameData) :
  add_points u d g =
  (Z.max 0 (balance g u + d),
   set_points u (Z.max 0 (balance g u + d)) (ensure_user_data u g)).
Proof.
  unfold add_points. rewrite points_of_set, points_of_ensure.
  case_decide; [reflexivity|congruence].
Qed.

Lemma cooldowns_ensure (g : GameData) (u : Z) (k : string) :
  (cooldowns (ensure_user_data u g) !!! u) !! k = cooldowns g !! u ≫= fun m => m !! k.
Proof.
  rewrite lookup_total_alt. unfold ensure_user_data. simpl.
  rewrite setdefault_lookup, decide_True by reflexivity. simpl.
  destruct (cooldowns g !! u); [reflexivity|apply lookup_empty].
Qed.

Lemma cooldown_remaining_eq (u : Z) (k : string) (now : Z) (g : GameData) :
  cooldown_remaining u k now g = (Z.max 0 (expiry g u k - now), ensure_user_data u g).
Proof. unfold cooldown_remaining. rewrite cooldowns_ensure. reflexivity. Qed.

Lemma expiry_set_cooldown (g : GameData) (u v : Z) (k j : string) (s now : Z) :
  expiry (set_cooldown u k s now g) v j =
  if decide (u = v /\ k = j) then now + s else expiry g v j.
Proof.
  unfold set_cooldown. unfold expiry at 1. cbn [cooldowns]. rewrite lookup_insert.
  destruct (decide (u = v)) as [<-|Hne].
  - cbn [mbind option_bind]. rewrite lookup_insert.
    destruct (decide (k = j)) as [<-|Hk].
    + rewrite decide_True by auto. reflexivity.
    + rewrite decide_False by (intros [_ ?]; contradiction).
      rewrite cooldowns_ensure. reflexivity.
  - rewrite decide_False by (intros [? _]; contradiction).
    rewrite <- (expiry_ensure g u v j). reflexivity.
Qed.

Lemma balance_set_cooldown (g : GameData) (u v : Z) (k : string) (s now : Z) :
  balance (set_cooldown u k s now g) v = balance g v.
Proof.
  rewrite <- (balance_ensure g u v), !balance_lookup. reflexivity.
Qed.

Lemma expiry_add_points (g : GameData) (u d v : Z) (k : string) :
  expiry (add_points u d g).2 v k = expiry g v k.
Proof. rewrite add_points_eq. simpl. rewrite expiry_set_points. apply expiry_ensure. Qed.

Lemma expiry_transfer_points (g : GameData) (a b n v : Z) (k : string) :
  expiry (transfer_points a b n g).2 v k = expiry g v k.
Proof.
  unfold transfer_points. simpl. rewrite !expiry_set_points, !expiry_ensure. reflexivity.
Qed.

(** After [set_cooldown(u, key, s)] at time [now], [cooldown_remaining]
    for that user and key at time [now'] is [max(0, now + s - now')];
    every other user's and key's remaining time is as before; a key that
    was never set has no remaining time at any clock reading from 1970 on;
    and neither operation changes a balance. *)
Theorem cooldown_round_trip (g : GameData) (u v : Z) (k j : string) (s now now' : Z) :
  (cooldown_remaining v j now' (set_cooldown u k s now g)).1 =
    (if decide (u = v /\ k = j) then Z.max 0 (now + s - now')
     else (cooldown_remaining v j now' g).1) /\
  (cooldowns g !! v ≫= (fun m => m !! j) = None -> 0 <= now' ->
   (cooldown_remaining v j now' g).1 = 0) /\
  (forall w, balance (set_cooldown u k s now g) w = balance g w) /\
  (forall w, balance (cooldown_remaining v j now' g).2 w = balance g w).
Proof.
  rewrite !cooldown_remaining_eq. simpl. rewrite expiry_set_cooldown.
  split; [case_decide; reflexivity|]. split; [|split].
  - intros Hnone Hnow. unfold expiry. rewrite Hnone. simpl. lia.
  - intros w. apply balance_set_cooldown.
  - intros w. apply balance_ensure.
Qed.

Lemma total_insert (m : gmap Z Z) (k v : Z) :
  map_fold (fun _ v acc => v + acc) 0 (<[k := v]> m) =
  map_fold (fun _ v acc => v + acc) 0 m - default 0 (m !! k) + v.
Proof.
  assert (Hcomm : forall (m' : gmap Z Z) (j1 j2 z1 z2 y : Z),
             j1 <> j2 -> m' !! j1 = Some z1 -> m' !! j2 = Some z2 ->
             z1 + (z2 + y) = z2 + (z1 + y)) by (intros; lia).
  destruct (m !! k) as [x|] eqn:E; simpl.
  - rewrite (map_fold_delete_L _ _ k x m (Hcomm m) E).
    rewrite <- (insert_delete_eq m k v).
    rewrite map_fold_insert_L; [lia | apply Hcomm | apply lookup_delete_eq].
  - rewrite map_fold_insert_L; [lia | apply Hcomm | exact E].
Qed.

Lemma total_set_points (g : GameData) (u x : Z) :
  total_points (set_points u x g) = total_points g - balance g u + x.
Proof. unfold total_points, set_points. simpl. rewrite total_insert, balance_lookup. reflexivity. Qed.

Lemma total_ensure (g : GameData) (u : Z) :
  total_points (ensure_user_data u g) = total_points g.
Proof.
  unfold total_points, ensure_user_data, setdefault. simpl.
  destruct (points g !! u) eqn:E; [reflexivity|].
  rewrite total_insert, E. simpl. lia.
Qed.

(** Reading a balance, setting a cooldown and transferring points leave
    the sum of all balances unchanged; [add_points] changes it by exactly
    the change of the one account. *)
Theorem ledger_total (g : GameData) (u a b d n s now : Z) (k : string) :
  total_points (get_points u g).2 = total_points g /\
  total_points (transfer_points a b n g).2 = total_points g /\
  total_points (set_cooldown u k s now g) = total_points g /\
  total_points (add_points u d g).2 =
    total_points g - balance g u + Z.max 0 (balance g u + d).
Proof.
  split; [apply total_ensure|]. split; [|split].
  - unfold transfer_points. simpl.
    rewrite !total_set_points, balance_set, !points_of_set, !points_of_ensure.
    rewrite !total_ensure, !balance_ensure.
    repeat case_decide; subst; try congruence; lia.
  - rewrite <- (total_ensure g u). reflexivity.
  - rewrite add_points_eq. simpl. rewrite total_set_points, total_ensure, balance_ensure.
    reflexivity.
Qed.

Lemma balance_top_up (g : GameData) (u v : Z) :
  let g' := if balance g u =? 0 then (add_points u 50 (ensure_user_data u g)).2
            else ensure_user_data u g in
  balance g' v = if decide (u = v) then topped_up (balance g u) else balance g v.
Proof.
  cbv zeta. unfold topped_up. destruct (balance g u =? 0) eqn:E.
  - apply Z.eqb_eq in E. destruct (add_points_spec (ensure_user_data u g) u 50) as [_ Hb].
    rewrite Hb, !balance_ensure, E. case_decide; reflexivity.
  - rewrite balance_ensure. case_decide; subst; reflexivity.
Qed.

Lemma expiry_top_up (g : GameData) (u v : Z) (k : string) :
  let g' := if balance g u =? 0 then (add_points u 50 (ensure_user_data u g)).2
            else ensure_user_data u g in
  expiry g' v k = expiry g v k.
Proof.
  cbv zeta. destruct (balance g u =? 0).
  - rewrite expiry_add_points. apply expiry_ensure.
  - apply expiry_ensure.
Qed.

Lemma set_cooldown_nonneg (g : GameData) (u : Z) (k : string) (s now : Z) :
  nonneg_balances g -> nonneg_balances (set_cooldown u k s now g).
Proof. intros Hg. exact (ensure_nonneg u g Hg). Qed.

Lemma top_up_nonneg (g : GameData) (u : Z) :
  nonneg_balances g ->
  nonneg_balances (if balance g u =? 0 then (add_points u 50 (ensure_user_data u g)).2
                   else ensure_user_data u g).
Proof.
  intros Hg. destruct (balance g u =? 0).
  - apply (run_op_nonneg (AddPoints u 50)), ensure_nonneg, Hg.
  - apply ensure_nonneg, Hg.
Qed.

(** The state a heist that is not refused reaches before the transfer:
    both accounts topped up and the cooldown set. *)
Lemma heist_unfold (g : GameData) (author target now_check now_set roll : Z)
  (success : bool) :
  target <> author -> expiry g author "heist" <= now_check ->
  exists g6,
    heist author target false now_check now_set success roll g =
      (if success
       then (HeistSuccess (transfer_points target author roll g6).1,
             (transfer_points target author roll g6).2)
       else (HeistFailed (transfer_points author target roll g6).1,
             (transfer_points author target roll g6).2)) /\
    (forall v, balance g6 v =
               if decide (v = author) then topped_up (balance g author)
               else if decide (v = target) then topped_up (balance g target)
               else balance g v) /\
    (forall v k, expiry g6 v k =
                 if decide (author = v /\ "heist"%string = k) then now_set + 120
                 else expiry g v k) /\
    (nonneg_balances g -> nonneg_balances g6).
Proof.
  intros Hne Hcool. unfold heist.
  rewrite decide_False by exact Hne.
  rewrite cooldown_remaining_eq.
  replace (0 <? Z.max 0 (expiry g author "heist" - now_check)) with false
    by (symmetry; apply Z.ltb_ge; lia).
  set (g1 := ensure_user_data author g).
  rewrite get_points_eq.
  pose proof (balance_top_up g1 author) as Hb3.
  pose proof (expiry_top_up g1 author) as He3.
  pose proof (top_up_nonneg g1 author) as Hn3.
  cbv zeta in Hb3, He3.
  set (g3 := if balance g1 author =? 0
             then (add_points author 50 (ensure_user_data author g1)).2
             else ensure_user_data author g1) in *.
  rewrite get_points_eq.
  pose proof (balance_top_up g3 target) as Hb5.
  pose proof (expiry_top_up g3 target) as He5.
  pose proof (top_up_nonneg g3 target) as Hn5.
  cbv zeta in Hb5, He5.
  set (g5 := if balance g3 target =? 0
             then (add_points target 50 (ensure_user_data target g3)).2
             else ensure_user_data target g3) in *.
  exists (set_cooldown author "heist" 120 now_set g5).
  split; [destruct success; destruct (transfer_points _ _ _ _); reflexivity|].
  assert (Hb1 : forall v, balance g1 v = balance g v)
    by (intros v; apply balance_ensure).
  split; [|split].
  - intros v. rewrite balance_set_cooldown, Hb5, Hb3, !Hb3, !Hb1.
    repeat case_decide; subst; try congruence.
  - intros v k. rewrite expiry_set_cooldown, He5, He3. unfold g1.
    rewrite expiry_ensure. reflexivity.
  - intros Hg. apply set_cooldown_nonneg, Hn5, Hn3, ensure_nonneg, Hg.
Qed.

(** A running cooldown refuses the heist, which then changes neither a
    balance nor a cooldown. *)
Lemma heist_on_cooldown (g : GameData) (author tgt now1 now2 roll : Z) (success : bool) :
  tgt <> author -> now1 < expiry g author "heist" ->
  heist author tgt false now1 now2 success roll g
    = (HeistCooldown (expiry g author "heist" - now1), ensure_user_data author g).
Proof.
  intros Htgt Hnow. unfold heist.
  rewrite decide_False by exact Htgt. rewrite cooldown_remaining_eq.
  replace (0 <? Z.max 0 (expiry g author "heist" - now1)) with true
    by (symmetry; apply Z.ltb_lt; lia).
  f_equal. f_equal. lia.
Qed.

(** No event moves the expiry of a user's heist cooldown, except a heist
    of that user that finds the cooldown over. *)
Lemma run_event_expiry (e : LedgerEvent) (g : GameData) (author : Z) :
  before author (expiry g author "heist") e ->
  expiry (run_event e g) author "heist" = expiry g author "heist".
Proof.
  destruct e as [[u|u d|a b n]|a t is_bot now_check now_set success roll];
    cbn [run_event run_op before]; intros Hbefore.
  - rewrite get_points_eq. apply expiry_ensure.
  - apply expiry_add_points.
  - apply expiry_transfer_points.
  - destruct is_bot; [reflexivity|].
    destruct (decide (t = a)) as [->|Hne].
    { unfold heist. rewrite decide_True by reflexivity. reflexivity. }
    destruct (decide (now_check < expiry g a "heist")) as [Hrun|Hover].
    { rewrite heist_on_cooldown by assumption. apply expiry_ensure. }
    destruct (heist_unfold g a t now_check now_set roll success Hne ltac:(lia))
      as (g6 & -> & _ & He6 & _).
    assert (Ha : a <> author) by (intros ->; specialize (Hbefore eq_refl); lia).
    destruct success; cbn [snd]; rewrite expiry_transfer_points, He6;
      rewrite decide_False by (intros [? _]; contradiction); reflexivity.
Qed.

Lemma run_events_expiry (evs : list LedgerEvent) (g : GameData) (author deadline : Z) :
  expiry g author "heist" = deadline ->
  Forall (before author deadline) evs ->
  expiry (run_events evs g) author "heist" = deadline.
Proof.
  intros Hd Hall. revert g Hd.
  induction Hall as [|e evs He _ IH]; intros g Hd; [exact Hd|].
  unfold run_events in *. cbn [foldl]. apply IH.
  rewrite run_event_expiry; [exact Hd|]. rewrite Hd. exact He.
Qed.

(** A heist that is not refused (the target is another user and no bot,
    no cooldown is running) first tops up to 50 whichever of the two
    accounts holds 0, then moves [min(roll, balance of the payer)] points,
    at least 1 and at most 40, from the target to the author on success
    and from the author to the target otherwise; no other account changes
    and no balance becomes negative.  From then on, whatever balance
    operations and heists (of anybody, the author's own attempts included)
    follow, every heist the author tries on another user before 120
    seconds have passed is refused with the time that is left and changes
    no balance. *)
Theorem heist_spec (g : GameData) (author target now_check now_set roll : Z)
  (success : bool) :
  nonneg_balances g -> target <> author -> expiry g author "heist" <= now_check ->
  (if success then 10 <= roll <= 40 else 8 <= roll <= 25) ->
  let a0 := topped_up (balance g author) in
  let t0 := topped_up (balance g target) in
  let moved := Z.min roll (if success then t0 else a0) in
  let out := heist author target false now_check now_set success roll g in
  1 <= moved <= 40 /\
  out.1 = (if success then HeistSuccess moved else HeistFailed moved) /\
  balance out.2 author = (if success then a0 + moved else a0 - moved) /\
  balance out.2 target = (if success then t0 - moved else t0 + moved) /\
  (forall v, v <> author -> v <> target -> balance out.2 v = balance g v) /\
  nonneg_balances out.2 /\
  (forall evs, Forall (before author (now_set + 120)) evs ->
     let g' := run_events evs out.2 in
     forall tgt now1 now2 suc r,
       tgt <> author -> now1 < now_set + 120 ->
       (heist author tgt false now1 now2 suc r g').1
         = HeistCooldown (now_set + 120 - now1) /\
       forall v, balance (heist author tgt false now1 now2 suc r g').2 v
                 = balance g' v).
Proof.
  intros Hg Hne Hcool Hroll a0 t0 moved out.
  destruct (heist_unfold g author target now_check now_set roll success Hne Hcool)
    as (g6 & Hout & Hb6 & He6 & Hn6).
  specialize (Hn6 Hg).
  pose proof (balance_nonneg g author Hg) as Ha.
  pose proof (balance_nonneg g target Hg) as Ht.
  assert (Ha0 : 1 <= a0) by (subst a0; unfold topped_up; destruct (_ =? 0) eqn:E;
                             [lia | apply Z.eqb_neq in E; lia]).
  assert (Ht0 : 1 <= t0) by (subst t0; unfold topped_up; destruct (_ =? 0) eqn:E;
                             [lia | apply Z.eqb_neq in E; lia]).
  assert (Hba : balance g6 author = a0)
    by (rewrite Hb6, decide_True by reflexivity; reflexivity).
  assert (Hbt : balance g6 target = t0)
    by (rewrite Hb6, decide_False, decide_True by auto; reflexivity).
  assert (Hcd : forall g7, expiry g7 author "heist" = now_set + 120 ->
            forall evs, Forall (before author (now_set + 120)) evs ->
            let g' := run_events evs g7 in
            forall tgt now1 now2 suc r,
              tgt <> author -> now1 < now_set + 120 ->
              (heist author tgt false now1 now2 suc r g').1
                = HeistCooldown (now_set + 120 - now1) /\
              forall v, balance (heist author tgt false now1 now2 suc r g').2 v
                        = balance g' v).
  { intros g7 He7 evs Hevs g' tgt now1 now2 suc r Htgt Hnow.
    pose proof (run_events_expiry evs g7 author (now_set + 120) He7 Hevs) as He'.
    fold g' in He'.
    rewrite heist_on_cooldown by (try exact Htgt; rewrite He'; exact Hnow).
    cbn [fst snd]. rewrite He'. split; [reflexivity|].
    intros v. apply balance_ensure. }
  assert (He6' : expiry g6 author "heist" = now_set + 120)
    by (rewrite He6, decide_True by auto; reflexivity).
  subst out. rewrite Hout. subst moved. destruct success.
  - destruct (transfer_points_spec g6 target author roll) as [Hr Hb].
    cbv zeta in Hr, Hb. cbn [fst snd]. rewrite Hr, !Hb, Hbt, Hba.
    replace (Z.max 0 roll) with roll by lia.
    split; [lia|]. split; [reflexivity|].
    split; [repeat case_decide; subst; try congruence; lia|].
    split; [repeat case_decide; subst; try congruence; lia|].
    split.
    { intros v Hva Hvt. rewrite Hb. rewrite !decide_False by congruence.
      rewrite Hb6, !decide_False by congruence. reflexivity. }
    split; [apply (run_op_nonneg (Transfer target author roll)), Hn6|].
    apply Hcd. rewrite expiry_transfer_points. exact He6'.
  - destruct (transfer_points_spec g6 author target roll) as [Hr Hb].
    cbv zeta in Hr, Hb. cbn [fst snd]. rewrite Hr, !Hb, Hbt, Hba.
    replace (Z.max 0 roll) with roll by lia.
    split; [lia|]. split; [reflexivity|].
    split; [repeat case_decide; subst; try congruence; lia|].
    split; [repeat case_decide; subst; try congruence; lia|].
    split.
    { intros v Hva Hvt. rewrite Hb. rewrite !decide_False by congruence.
      rewrite Hb6, !decide_False by congruence. reflexivity. }
    split; [apply (run_op_nonneg (Transfer author target roll)), Hn6|].
    apply Hcd. rewrite expiry_transfer_points. exact He6'.
Qed.

(** [heist] refuses a bot and the author themselves before anything else,
    and then changes nothing at all. *)
Lemma heist_refusals (g : GameData) (author target now1 now2 roll : Z) (success : bool) :
  heist author target true now1 now2 success roll g = (HeistBot, g) /\
  heist author author false now1 now2 success roll g = (HeistSelf, g).
Proof. unfold heist. rewrite decide_True by reflexivity. split; reflexivity. Qed.

(** [heist_spec] when user 1 (30 points) robs user 2 (5 points) with a
    roll of 25: only the 5 points are there to take; after user 1 has
    answered a puzzle, user 2 has robbed user 1 in turn and user 1 has been
    refused once, user 1 is refused again 100 seconds after the heist. *)
Lemma heist_spec_example :
  let g1 := (heist 1 2 false 1000 1000 true 25 thirty_and_five).2 in
  let evs := [Balance (AddPoints 1 10); Heist 2 1 false 1030 1030 true 12;
              Heist 1 2 false 1060 1060 true 40] in
  nonneg_balances thirty_and_five /\
  (heist 1 2 false 1000 1000 true 25 thirty_and_five).1 = HeistSuccess 5 /\
  balance g1 1 = 35 /\
  balance g1 2 = 0 /\
  Forall (before 1 1120) evs /\
  (heist 1 2 false 1100 1100 true 40 (run_events evs g1)).1 = HeistCooldown 20.
Proof.
  intros g1 evs.
  assert (Hnn : nonneg_balances thirty_and_five).
  { intros uid v. unfold thirty_and_five. simpl.
    rewrite lookup_insert. case_decide; [intros [= <-]; lia|].
    rewrite lookup_singleton. case_decide; [intros [= <-]; lia | discriminate]. }
  split; [exact Hnn|].
  assert (Hne : (2 : Z) <> 1) by lia.
  assert (Hcool : expiry thirty_and_five 1 "heist" <= 1000) by (vm_compute; discriminate).
  assert (Hroll : if true then 10 <= 25 <= 40 else 8 <= 25 <= 25) by (simpl; lia).
  assert (Hevs : Forall (before 1 (1000 + 120)) evs).
  { repeat constructor; cbn [before]; intros; lia. }
  destruct (heist_spec thirty_and_five 1 2 1000 1000 25 true Hnn Hne Hcool Hroll)
    as (_ & Hreply & Hauthor & Htarget & _ & _ & Hlater).
  destruct (Hlater evs Hevs 2 1100 1100 true 40 Hne ltac:(lia)) as [Hrefused _].
  split; [rewrite Hreply; vm_compute; reflexivity|].
  split; [unfold g1; rewrite Hauthor, !balance_lookup; vm_compute; reflexivity|].
  split; [unfold g1; rewrite Htarget, !balance_lookup; vm_compute; reflexivity|].
  split; [exact Hevs|]. exact Hrefused.
Defined.

End LedgerExtra.

(** ** Session registry: answering a guess, a series of chain words *)

Module RegistryExtra.

Import Ledger LedgerTheory Registry.
Local Open Scope Z_scope.

Section Sessions.

Context {char : Type} `{Countable char}.
Variable str_lower : list char -> list char.
Variable str_strip : list char -> list char.
Variable isalpha : char -> bool.

Local Abbreviation tebak_kata := (tebak_kata str_lower).
Local Abbreviation tebak_gambar := (tebak_gambar str_lower).
Local Abbreviation jawab_kata := (jawab_kata str_lower str_strip).
Local Abbreviation jawab_gambar := (jawab_gambar str_lower str_strip).
Local Abbreviation clean_word := (clean_word str_lower str_strip isalpha).
Local Abbreviation kata := (kata str_lower str_strip isalpha).
Local Abbreviation kata_many := (kata_many str_lower str_strip isalpha).

(** A guess is compared with the stored answer after trimming and
    lower-casing.  After [tebak_kata] picked [answer], a guess that
    matches it case-insensitively earns its author exactly
    [max(0, balance + 10)], touches no other balance, and ends the
    session, so that every later answer in the channel finds no game; a
    guess that does not match changes nothing.  The same holds for
    [tebak_gambar] and [jawab_gambar]. *)
Theorem guess_round_trip (reg : Sessions) (g : GameData) (ch author prompt : Z)
  (word guess : list char) :
  (let reg1 := tebak_kata ch word prompt reg in
   let out := jawab_kata ch author guess reg1 g in
   (str_lower (str_strip guess) = str_lower word ->
    out.1.1 = Correct (Z.max 0 (balance g author + 10)) /\
    (forall v, balance out.2 v =
               if decide (author = v) then Z.max 0 (balance g author + 10)
               else balance g v) /\
    tebak_kata_active out.1.2 !! ch = None /\
    (forall ch', ch' <> ch ->
       tebak_kata_active out.1.2 !! ch' = tebak_kata_active reg !! ch') /\
    forall a j g2, jawab_kata ch a j out.1.2 g2 = (NoActiveGame, out.1.2, g2)) /\
   (str_lower (str_strip guess) <> str_lower word -> out = (Wrong, reg1, g))) /\
  (let reg1 := tebak_gambar ch word prompt reg in
   let out := jawab_gambar ch author guess reg1 g in
   (str_lower (str_strip guess) = str_lower word ->
    out.1.1 = Correct (Z.max 0 (balance g author + 10)) /\
    (forall v, balance out.2 v =
               if decide (author = v) then Z.max 0 (balance g author + 10)
               else balance g v) /\
    tebak_gambar_active out.1.2 !! ch = None /\
    (forall ch', ch' <> ch ->
       tebak_gambar_active out.1.2 !! ch' = tebak_gambar_active reg !! ch') /\
    forall a j g2, jawab_gambar ch a j out.1.2 g2 = (NoActiveGame, out.1.2, g2)) /\
   (str_lower (str_strip guess) <> str_lower word -> out = (Wrong, reg1, g))).
Proof.
  destruct (add_points_spec g author 10) as [Hpts Hbal].
  split; cbv zeta.
  - unfold Registry.jawab_kata, Registry.tebak_kata. cbn [tebak_kata_active].
    rewrite lookup_insert_eq. cbn [answer]. split.
    + intros Heq. rewrite decide_True by exact Heq.
      destruct (add_points author 10 g) as [pts g1]. simpl in *. subst pts.
      split; [reflexivity|]. split; [exact Hbal|].
      split; [apply lookup_delete_eq|]. split.
      * intros ch' Hne. rewrite lookup_delete_ne, lookup_insert_ne by congruence.
        reflexivity.
      * intros a j g2. rewrite lookup_delete_eq. reflexivity.
    + intros Hne. rewrite decide_False by exact Hne. reflexivity.
  - unfold Registry.jawab_gambar, Registry.tebak_gambar. cbn [tebak_gambar_active].
    rewrite lookup_insert_eq. cbn [answer]. split.
    + intros Heq. rewrite decide_True by exact Heq.
      destruct (add_points author 10 g) as [pts g1]. simpl in *. subst pts.
      split; [reflexivity|]. split; [exact Hbal|].
      split; [apply lookup_delete_eq|]. split.
      * intros ch' Hne. rewrite lookup_delete_ne, lookup_insert_ne by congruence.
        reflexivity.
      * intros a j g2. rewrite lookup_delete_eq. reflexivity.
    + intros Hne. rewrite decide_False by exact Hne. reflexivity.
Qed.

(** What one [kata] command does: it rejects and changes nothing, or it
    accepts a word that passes the three rules and stores it. *)
Lemma kata_cases (ch author : Z) (word : list char) (reg : Sessions) (g : GameData) :
  (exists r, kata ch author word reg g = (r, reg, g) /\ ~ accepted r) \/
  (exists st c,
     sambung_kata_active reg !! ch = Some st /\
     (3 <= length (clean_word word))%nat /\
     ((clean_word word) ∉ chain_used st) /\
     last (chain_last st) = Some c /\ head (clean_word word) = Some c /\
     kata ch author word reg g =
       (Valid (clean_word word) (add_points author 2 g).1,
        mkSessions (tebak_kata_active reg) (tebak_gambar_active reg) (trivia_active reg)
          (<[ch := mkChain (clean_word word) ({[clean_word word]} ∪ chain_used st)]>
             (sambung_kata_active reg)),
        (add_points author 2 g).2)).
Proof.
  unfold Registry.kata.
  destruct (sambung_kata_active reg !! ch) as [st|] eqn:Hst;
    [|left; eexists; split; [reflexivity | simpl; tauto]].
  destruct (length (clean_word word) <? 3)%nat eqn:Hlen;
    [left; eexists; split; [reflexivity | simpl; tauto]|].
  apply Nat.ltb_ge in Hlen.
  case_decide as Hin; [left; eexists; split; [reflexivity | simpl; tauto]|].
  destruct (last (chain_last st)) as [c|] eqn:Hc;
    [|left; eexists; split; [reflexivity | simpl; tauto]].
  case_decide as Hhead; [left; eexists; split; [reflexivity | simpl; tauto]|].
  assert (Hh : head (clean_word word) = Some c)
    by (destruct (decide (head (clean_word word) = Some c)); [assumption|contradiction]).
  right. exists st, c. repeat split; assumption.
Qed.

(** However many words are submitted to a chain, the accepted ones are
    all different, none was used before, each has at least 3 characters,
    each starts with the last character of the word accepted before it
    (the first with that of the session's last word), and the session ends
    up with the last accepted word as its last word and the accepted words
    added to its used set; every submission gets one reply. *)
Theorem kata_many_chain (ch : Z) (subs : list (Z * list char)) (reg : Sessions)
  (g : GameData) (st : ChainState) :
  sambung_kata_active reg !! ch = Some st ->
  let out := kata_many ch subs reg g in
  let ws := accepted_words out.1.1 in
  NoDup ws /\
  (forall w, w ∈ ws -> (w ∉ chain_used st) /\ (3 <= length w)%nat) /\
  linked (chain_last st) ws /\
  length out.1.1 = length subs /\
  sambung_kata_active out.1.2 !! ch =
    Some (mkChain (default (chain_last st) (last ws)) (chain_used st ∪ list_to_set ws)).
Proof.
  revert reg g st. induction subs as [|[author word] subs IH]; intros reg g st Hst.
  - simpl. split; [constructor|]. split; [intros w Hw; inversion Hw|].
    split; [exact I|]. split; [reflexivity|].
    rewrite Hst. destruct st. simpl. f_equal. f_equal.
    rewrite (right_id_L ∅ (∪)). reflexivity.
  - cbn [Registry.kata_many].
    destruct (kata_cases ch author word reg g)
      as [(r & -> & Hr) | (st0 & c & Hst0 & Hlen & Hnew & Hc & Hhead & ->)].
    + specialize (IH reg g st Hst). cbv zeta in IH.
      destruct (kata_many ch subs reg g) as [[rs reg'] g'].
      cbn [fst snd] in *. unfold accepted_words in *. cbn [omap].
      destruct IH as (Hnd & Hall & Hlink & Hlength & Hfinal).
      destruct r; simpl in Hr; try (exfalso; apply Hr; exact I);
        cbn [list_omap length]; repeat split; auto; apply Hall; assumption.
    + assert (st0 = st) as -> by congruence.
      set (w := clean_word word) in *.
      set (st1 := mkChain w ({[w]} ∪ chain_used st)).
      set (reg1 := mkSessions _ _ _ _).
      assert (Hst1 : sambung_kata_active reg1 !! ch = Some st1)
        by apply lookup_insert_eq.
      specialize (IH reg1 (add_points author 2 g).2 st1 Hst1). cbv zeta in IH.
      destruct (kata_many ch subs reg1 (add_points author 2 g).2) as [[rs reg'] g'].
      cbn [fst snd] in *. unfold accepted_words in *. cbn [omap list_omap length].
      destruct IH as (Hnd & Hall & Hlink & Hlength & Hfinal).
      set (ws := omap _ rs) in *.
      split; [|split; [|split; [|split]]].
      * constructor; [|exact Hnd]. intros Hin.
        destruct (Hall w Hin) as [Hnot _]. apply Hnot. simpl.
        apply elem_of_union. left. apply elem_of_singleton. reflexivity.
      * intros w' Hw'. apply elem_of_cons in Hw' as [->|Hw'].
        -- split; [exact Hnew | exact Hlen].
        -- destruct (Hall w' Hw') as [Hnot Hl]. split; [|exact Hl].
           intros Hin. apply Hnot. simpl. apply elem_of_union. right. exact Hin.
      * simpl. split; [exists c; auto | exact Hlink].
      * simpl. f_equal. exact Hlength.
      * rewrite Hfinal. simpl. f_equal. f_equal.
        -- rewrite last_cons. destruct (last ws); reflexivity.
        -- rewrite (comm_L (∪) {[w]} (chain_used st)).
           rewrite <- (assoc_L (∪)). reflexivity.
Qed.

Lemma is_prompt_Some (id : Z) (state : option (GuessState (char := char)))
  (st : GuessState) :
  is_prompt id state = Some st <-> state = Some st /\ id = prompt_id st.
Proof.
  unfold is_prompt. destruct state as [st0|]; [|split; [discriminate | intros [? _]; discriminate]].
  case_decide as Hid; split.
  - intros [= ->]. split; [reflexivity | exact Hid].
  - intros [[= ->] _]. reflexivity.
  - discriminate.
  - intros [[= ->] Heq]. contradiction.
Qed.


(** When a second [tebak_kata] has replaced the round of a channel, the
    prompt of the first round is dead: [clue] and [surrend] in reply to it
    are turned down and leave the new round alone, while in reply to the new
    prompt [clue] shows the clue of the new answer and [surrend] reveals it
    and ends the round, after which answers are told that no game is
    active. *)
Theorem replaced_prompt_is_dead (ch : Z) (w1 w2 : list char) (p1 p2 : Z)
  (reg : Sessions) :
  p1 <> p2 ->
  (forall st, tebak_gambar_active reg !! ch = Some st -> prompt_id st <> p1) ->
  let reg2 := tebak_kata ch w2 p2 (tebak_kata ch w1 p1 reg) in
  clue ch (Some (p1, true)) reg2 = NotActivePrompt /\
  surrend ch (Some (p1, true)) reg2 = (NotActivePrompt, reg2) /\
  clue ch (Some (p2, true)) reg2 = WordClueShown (build_word_clue (str_lower w2)) /\
  let out := surrend ch (Some (p2, true)) reg2 in
  out.1 = WordRevealed (str_lower w2) /\
  tebak_kata_active out.2 !! ch = None /\
  forall a j g, jawab_kata ch a j out.2 g = (NoActiveGame, out.2, g).
Proof.
  intros Hp Himg. cbv zeta.
  unfold clue, surrend, Registry.tebak_kata.
  cbn [tebak_kata_active tebak_gambar_active].
  rewrite !lookup_insert_eq.
  assert (Hnew : forall a : list char,
            is_prompt p2 (Some (mkGuess a p2)) = Some (mkGuess a p2)).
  { intros a. unfold is_prompt. cbn [prompt_id].
    rewrite decide_True by reflexivity. reflexivity. }
  assert (Hold : forall a : list char, is_prompt p1 (Some (mkGuess a p2)) = None).
  { intros a. unfold is_prompt. cbn [prompt_id].
    rewrite decide_False by exact Hp. reflexivity. }
  rewrite !Hnew, !Hold. cbn [answer].
  assert (Hg : is_prompt p1 (tebak_gambar_active reg !! ch) = None).
  { destruct (is_prompt p1 (tebak_gambar_active reg !! ch)) as [st|] eqn:Hst;
      [|reflexivity].
    apply is_prompt_Some in Hst as [Hst Heq]. symmetry in Heq.
    destruct (Himg st Hst Heq). }
  rewrite Hg. cbn [fst snd tebak_kata_active].
  split; [reflexivity|]. split; [reflexivity|]. split; [reflexivity|].
  split; [reflexivity|]. split; [apply lookup_delete_eq|].
  intros a j g. unfold Registry.jawab_kata. cbn [tebak_kata_active].
  rewrite lookup_delete_eq. reflexivity.
Qed.

End Sessions.

(** [kata_many_chain] after the seed "kata": "ayam" and "makan" are
    accepted, the second "ayam" is not. *)
Lemma kata_many_chain_example :
  let subs := [(5, chars "ayam"); (6, chars "Makan!"); (5, chars "ayam"); (7, chars "nasi")] in
  let out := kata_many Puzzle.lower_ascii strip_ascii ascii_isalpha 1 subs chain_kata
               empty_data in
  sambung_kata_active chain_kata !! 1 = Some (mkChain (chars "kata") {[chars "kata"]}) /\
  NoDup (accepted_words out.1.1) /\
  accepted_words out.1.1 = [chars "ayam"; chars "makan"; chars "nasi"].
Proof.
  intros subs out.
  assert (Hst : sambung_kata_active chain_kata !! 1
                = Some (mkChain (chars "kata") {[chars "kata"]}))
    by apply lookup_insert_eq.
  split; [exact Hst|]. split.
  - exact (proj1 (kata_many_chain Puzzle.lower_ascii strip_ascii ascii_isalpha
                    1 subs chain_kata empty_data _ Hst)).
  - vm_compute. reflexivity.
Defined.

(** [replaced_prompt_is_dead] when "discord" (prompt 8) replaces
    "python" (prompt 7) in channel 1. *)
Lemma replaced_prompt_is_dead_example :
  let reg2 := Registry.tebak_kata Puzzle.lower_ascii 1 (chars "Discord") 8 guess_python in
  surrend 1 (Some (7, true)) reg2 = (NotActivePrompt, reg2) /\
  (surrend 1 (Some (8, true)) reg2).1 = WordRevealed (chars "discord").
Proof.
  intros reg2.
  assert (H7 : 7 <> 8) by lia.
  assert (Hg : forall st : GuessState (char := ascii),
            tebak_gambar_active no_sessions !! 1 = Some st -> prompt_id st <> 7)
    by (intros st Hst; unfold no_sessions in Hst; cbn [tebak_gambar_active] in Hst;
        rewrite lookup_empty in Hst; discriminate).
  destruct (replaced_prompt_is_dead Puzzle.lower_ascii strip_ascii 1 (chars "python")
              (chars "Discord") 7 8 no_sessions H7 Hg)
    as (_ & Hold & _ & Hnew & _).
  split; [exact Hold | exact Hnew].
Defined.

End RegistryExtra.

(** ** Mood detector *)

Module MoodTheory.

Import Mood.

Local Open Scope Z_scope.

Lemma plus_zero_r (out : Counts) : plus out zero = out.
Proof. destruct out; unfold plus; simpl; f_equal; lia. Qed.

Lemma plus_tally (out d sc : Counts) : plus out (tally d sc) = tally (plus out d) sc.
Proof. unfold plus, tally; simpl; f_equal; lia. Qed.

Lemma tally_plus (x a sc : Counts) : plus (tally x sc) a = tally (plus x a) sc.
Proof. unfold plus, tally; simpl; f_equal; lia. Qed.

Lemma tally_times_tally (n : nat) (s sc : Counts) :
  tally_times n (tally s sc) sc = tally (tally_times n s sc) sc.
Proof. induction n as [|n IH]; [reflexivity|]. cbn [tally_times]. rewrite IH. reflexivity. Qed.

Lemma sum_over_empty (days : list Z) (out : Counts) : sum_over ∅ days out = out.
Proof.
  revert out. induction days as [|d days IH]; intros out; [reflexivity|].
  unfold sum_over in *. cbn [foldl]. rewrite lookup_empty. apply IH.
Qed.

Lemma sum_over_tally (m : gmap Z Counts) (days : list Z) (x sc : Counts) :
  sum_over m days (tally x sc) = tally (sum_over m days x) sc.
Proof.
  revert x. induction days as [|d days IH]; intros x; [reflexivity|].
  unfold sum_over in *. cbn [foldl].
  destruct (m !! d) as [a|]; [rewrite tally_plus|]; apply IH.
Qed.

(** The sum over a list of days after one day's counters were tallied:
    the message counts once for every occurrence of its day. *)
Lemma sum_over_insert (m : gmap Z Counts) (day : Z) (days : list Z) (out sc : Counts) :
  sum_over (<[day := tally (default zero (m !! day)) sc]> m) days out =
  tally_times (length (filter (fun d => d = day) days)) (sum_over m days out) sc.
Proof.
  revert out. induction days as [|d days IH]; intros out; [reflexivity|].
  change (sum_over ?m (d :: days) out)
    with (sum_over m days
            (match m !! d with
             | Some day_data => plus out day_data
             | None => out
             end)).
  destruct (decide (d = day)) as [->|Hne].
  - rewrite filter_cons_True by reflexivity. cbn [length tally_times].
    rewrite lookup_insert_eq, IH, plus_tally, sum_over_tally, tally_times_tally.
    destruct (m !! day) as [d0|]; cbn [default id]; [reflexivity|].
    rewrite plus_zero_r. reflexivity.
  - rewrite filter_cons_False by exact Hne.
    rewrite lookup_insert_ne by congruence. apply IH.
Qed.

(** The loop returns when no iteration overflows, and only then. *)
Lemma sum_days_Some (m : gmap Z Counts) (clock : Z -> Z) (offsets : list Z)
  (out : Counts) :
  (forall i, i ∈ offsets -> i <= 999999999 /\ 1 <= clock i - i) ->
  sum_days m clock offsets out
    = Some (sum_over m ((fun i => clock i - i) <$> offsets) out).
Proof.
  revert out. induction offsets as [|i offsets IH]; intros out Hok; [reflexivity|].
  cbn [sum_days]. unfold day_back.
  destruct (Hok i ltac:(apply elem_of_cons; left; reflexivity)) as [Hi Hday].
  replace (999999999 <? i) with false by (symmetry; apply Z.ltb_ge; lia).
  replace (clock i - i <? 1) with false by (symmetry; apply Z.ltb_ge; lia).
  cbn [orb]. rewrite IH by (intros j Hj; apply Hok, elem_of_cons; right; exact Hj).
  reflexivity.
Qed.

Lemma sum_days_is_Some (m : gmap Z Counts) (clock : Z -> Z) (offsets : list Z)
  (out : Counts) :
  is_Some (sum_days m clock offsets out) ->
  forall i, i ∈ offsets -> i <= 999999999 /\ 1 <= clock i - i.
Proof.
  revert out. induction offsets as [|i offsets IH]; intros out Hs j Hj.
  - apply elem_of_nil in Hj. contradiction.
  - cbn [sum_days] in Hs. unfold day_back in Hs.
    destruct (Z.ltb_spec 999999999 i); cbn [orb] in Hs;
      [destruct Hs; discriminate|].
    destruct (Z.ltb_spec (clock i - i) 1); [destruct Hs; discriminate|].
    apply elem_of_cons in Hj as [->|Hj]; [lia|]. exact (IH _ Hs j Hj).
Qed.

Lemma in_range_offsets (clock : Z -> Z) (days : Z) :
  in_range clock days <->
  forall i, i ∈ seqZ 0 (Z.max 1 days) -> i <= 999999999 /\ 1 <= clock i - i.
Proof.
  unfold in_range. split; intros Hr i Hi.
  - apply elem_of_seqZ in Hi. apply Hr. lia.
  - apply Hr, elem_of_seqZ. lia.
Qed.

(** [mood_summary] returns for a guild without data and when no
    iteration overflows, and only then; what it returns then is the sum
    over the days visited. *)
Lemma mood_summary_returns (clock : Z -> Z) (g days : Z) (mood_data : MoodData) :
  (is_Some (mood_summary clock g days mood_data)
   <-> mood_data !! g = None \/ in_range clock days) /\
  (in_range clock days ->
   mood_summary clock g days mood_data
     = Some (sum_over (default ∅ (mood_data !! g)) (days_visited clock days) zero)).
Proof.
  unfold mood_summary, days_visited. split.
  - destruct (mood_data !! g) as [by_day|]; split.
    + intros Hs. right. apply in_range_offsets. eapply sum_days_is_Some, Hs.
    + intros [Hn|Hr]; [discriminate|].
      rewrite sum_days_Some by (apply in_range_offsets, Hr). eexists. reflexivity.
    + intros _. left. reflexivity.
    + intros _. eexists. reflexivity.
  - intros Hr. destruct (mood_data !! g) as [by_day|]; cbn [default id].
    + apply sum_days_Some, in_range_offsets, Hr.
    + rewrite sum_over_empty. reflexivity.
Qed.

Lemma counted_zero (words : Z) : counted words zero.
Proof. unfold counted, zero; simpl. lia. Qed.

Lemma counted_plus (words : Z) (a b : Counts) :
  counted words a -> counted words b -> counted words (plus a b).
Proof. unfold counted, plus; simpl. intros Ha Hb. nia. Qed.

Lemma sum_days_counted (m : gmap Z Counts) (clock : Z -> Z) (offsets : list Z)
  (out s : Counts) :
  (forall day d, m !! day = Some d -> counted 32 d) ->
  counted 32 out -> sum_days m clock offsets out = Some s -> counted 32 s.
Proof.
  intros Hm. revert out. induction offsets as [|i offsets IH]; intros out Hout Hs.
  - injection Hs as <-. exact Hout.
  - cbn [sum_days] in Hs. destruct (day_back clock i) as [day|]; [|discriminate].
    revert Hs. apply IH.
    destruct (m !! day) as [a|] eqn:Ha; [|exact Hout].
    apply counted_plus; [exact Hout | exact (Hm _ _ Ha)].
Qed.

Lemma mood_summary_counted (clock : Z -> Z) (g days : Z) (mood_data : MoodData)
  (s : Counts) :
  recorded mood_data -> mood_summary clock g days mood_data = Some s -> counted 32 s.
Proof.
  intros Hrec. unfold mood_summary.
  destruct (mood_data !! g) as [by_day|] eqn:Hg.
  - apply sum_days_counted; [|apply counted_zero].
    intros day d Hd. exact (proj1 (Hrec _ _ _ _ Hg Hd)).
  - intros [= <-]. apply counted_zero.
Qed.

Lemma counted_no_messages (words : Z) (d : Counts) :
  counted words d -> messages d = 0 -> d = zero.
Proof.
  destruct d as [p u n t k]. unfold counted, zero; simpl. intros Hc ->.
  f_equal; lia.
Qed.

(** In a list without duplicates a value occurs once or not at all. *)
Lemma count_NoDup (x : Z) (l : list Z) :
  NoDup l ->
  length (filter (fun d => d = x) l) = if decide (x ∈ l) then 1%nat else 0%nat.
Proof.
  induction 1 as [|y l Hy Hnd IH]; [reflexivity|].
  destruct (decide (y = x)) as [->|Hne].
  - rewrite filter_cons_True by reflexivity. cbn [length]. rewrite IH.
    rewrite decide_False by exact Hy.
    rewrite decide_True by (apply elem_of_cons; left; reflexivity). reflexivity.
  - rewrite filter_cons_False by exact Hne. rewrite IH.
    destruct (decide (x ∈ l)) as [Hin|Hnin].
    + rewrite decide_True by (apply elem_of_cons; right; exact Hin). reflexivity.
    + rewrite decide_False; [reflexivity|].
      intros Hin. apply elem_of_cons in Hin as [->|Hin]; contradiction.
Qed.

(** With a clock that stands still the loop visits each day of the
    window once. *)
Lemma visits_steady (clock : Z -> Z) (days day : Z) :
  (forall i, 0 <= i < Z.max 1 days -> clock i = clock 0) ->
  visits clock days day =
  if decide (clock 0 - Z.max 1 days < day <= clock 0) then 1%nat else 0%nat.
Proof.
  intros Hsteady. unfold visits, days_visited.
  assert (Heq : (fun i => clock i - i) <$> seqZ 0 (Z.max 1 days)
                = (fun i => clock 0 - i) <$> seqZ 0 (Z.max 1 days)).
  { apply list_fmap_ext. intros k i Hi. apply list_elem_of_lookup_2 in Hi.
    apply elem_of_seqZ in Hi. rewrite Hsteady by lia. reflexivity. }
  rewrite Heq, count_NoDup.
  2:{ apply NoDup_fmap_2_strong; [intros i j _ _ Hij; lia | apply NoDup_seqZ]. }
  assert (Hin : day ∈ (fun i => clock 0 - i) <$> seqZ 0 (Z.max 1 days)
                <-> clock 0 - Z.max 1 days < day <= clock 0).
  { rewrite list_elem_of_fmap. split.
    - intros (i & -> & Hi). apply elem_of_seqZ in Hi. lia.
    - intros Hd. exists (clock 0 - day). split; [lia|]. apply elem_of_seqZ. lia. }
  destruct (decide (day ∈ _)) as [Hd|Hd].
  - rewrite decide_True by (apply Hin, Hd). reflexivity.
  - rewrite decide_False by (intros Hw; apply Hd, Hin, Hw). reflexivity.
Qed.

Lemma max_by_first (data : Counts) :
  let p := positive data in
  let u := neutral data in
  let n := negative data in
  let t := toxic data in
  (dominant_mood data = POSITIF <-> u <= p /\ n <= p /\ t <= p) /\
  (dominant_mood data = NETRAL <-> p < u /\ n <= u /\ t <= u) /\
  (dominant_mood data = NEGATIF <-> p < n /\ u < n /\ t <= n) /\
  (dominant_mood data = TOXIC <-> p < t /\ u < t /\ n < t).
Proof.
  destruct data as [p u n t k]. unfold dominant_mood, max_by. cbn.
  destruct (Z.ltb_spec p u); cbn;
    [destruct (Z.ltb_spec u n) | destruct (Z.ltb_spec p n)]; cbn;
    match goal with
    | |- context [?a <? ?b] => destruct (Z.ltb_spec a b)
    end; cbn;
    repeat split; intros; try discriminate; try lia.
Qed.

Section Detector.

Context {char : Type} `{EqDecision char}.
Variable str_lower : list char -> list char.
Variable literal : string -> list char.

Local Abbreviation score := (Mood.score str_lower literal).
Local Abbreviation record_mood := (Mood.record_mood str_lower literal).
Local Abbreviation record_all := (Mood.record_all str_lower literal).

(** [contains] is the substring test. *)
Lemma contains_spec (w text : list char) :
  contains w text = true <-> exists a b, text = a ++ w ++ b.
Proof.
  induction text as [|c text IH]; cbn [contains].
  - rewrite bool_decide_eq_true. split.
    + intros ->. exists [], []. reflexivity.
    + intros (a & b & Hab). symmetry in Hab.
      apply app_eq_nil in Hab as [_ Hab]. apply app_eq_nil in Hab as [Hw _].
      exact Hw.
  - rewrite orb_true_iff, bool_decide_eq_true, IH. split.
    + intros [[b Hb] | (a & b & ->)].
      * exists [], b. exact Hb.
      * exists (c :: a), b. reflexivity.
    + intros (a & b & Hab). destruct a as [|c' a].
      * left. exists b. exact Hab.
      * right. injection Hab as _ ->. eauto.
Qed.

Lemma hits_acc (words : list (list char)) (text_low : list char) (n : Z) :
  n <= foldl (fun n w => if contains w text_low then n + 1 else n) n words
    <= n + Z.of_nat (length words).
Proof.
  revert n. induction words as [|w words IH]; intros n; cbn [foldl length]; [lia|].
  destruct (contains w text_low); [specialize (IH (n + 1)) | specialize (IH n)]; lia.
Qed.

Lemma hits_range (words : list (list char)) (text_low : list char) :
  0 <= hits words text_low <= Z.of_nat (length words).
Proof. unfold hits. pose proof (hits_acc words text_low 0). lia. Qed.

(** The score of one message: at least one and at most 32 class hits,
    and the neutral hit exactly when no listed word occurs. *)
Lemma score_range (text : list char) :
  let sc := score text in
  0 <= positive sc <= 15 /\ 0 <= negative sc <= 11 /\ 0 <= toxic sc <= 6 /\
  (neutral sc = 1 /\ positive sc = 0 /\ negative sc = 0 /\ toxic sc = 0 \/
   neutral sc = 0 /\ 1 <= positive sc + negative sc + toxic sc).
Proof.
  cbv zeta. unfold Mood.score. cbn [positive neutral negative toxic].
  pose proof (hits_range (POSITIVE_WORDS literal) (str_lower text)) as Hp.
  pose proof (hits_range (NEGATIVE_WORDS literal) (str_lower text)) as Hn.
  pose proof (hits_range (TOXIC_WORDS literal) (str_lower text)) as Ht.
  change (length (POSITIVE_WORDS literal)) with 15%nat in Hp.
  change (length (NEGATIVE_WORDS literal)) with 11%nat in Hn.
  change (length (TOXIC_WORDS literal)) with 6%nat in Ht.
  repeat split; try lia.
  destruct (Z.eqb_spec (hits (POSITIVE_WORDS literal) (str_lower text)) 0);
    destruct (Z.eqb_spec (hits (NEGATIVE_WORDS literal) (str_lower text)) 0);
    destruct (Z.eqb_spec (hits (TOXIC_WORDS literal) (str_lower text)) 0);
    cbn [andb]; lia.
Qed.

Lemma tally_counted (d : Counts) (text : list char) :
  counted 32 d ->
  counted 32 (tally d (score text)) /\ 1 <= messages (tally d (score text)).
Proof.
  intros Hd. pose proof (score_range text) as Hs. cbv zeta in Hs.
  unfold counted in *. unfold tally. cbn [positive neutral negative toxic messages].
  lia.
Qed.

Lemma record_mood_recorded (today g : Z) (text : list char) (mood_data : MoodData) :
  recorded mood_data -> recorded (record_mood today g text mood_data).
Proof.
  intros Hrec g' by_day' day' d'. unfold Mood.record_mood, MoodData in *. cbv zeta.
  destruct (decide (g' = g)) as [->|Hg].
  - rewrite lookup_insert_eq. intros [= <-].
    destruct (decide (day' = today)) as [->|Hday].
    + rewrite lookup_insert_eq. intros [= <-]. apply tally_counted.
      destruct (mood_data !! g) as [by_day|] eqn:Hg; cbn [default id].
      * destruct (by_day !! today) as [d|] eqn:Hd; cbn [default id].
        -- exact (proj1 (Hrec _ _ _ _ Hg Hd)).
        -- apply counted_zero.
      * rewrite lookup_empty. apply counted_zero.
    + rewrite lookup_insert_ne by congruence.
      destruct (mood_data !! g) as [by_day|] eqn:Hg; cbn [default id].
      * intros Hd. exact (Hrec _ _ _ _ Hg Hd).
      * rewrite lookup_empty. discriminate.
  - rewrite lookup_insert_ne by congruence. apply Hrec.
Qed.

Lemma record_all_recorded (msgs : list (Z * Z * list char)) (mood_data : MoodData) :
  recorded mood_data -> recorded (record_all msgs mood_data).
Proof.
  revert mood_data. induction msgs as [|m msgs IH]; intros mood_data Hrec;
    [exact Hrec|].
  unfold Mood.record_all in *. cbn [foldl]. apply IH, record_mood_recorded, Hrec.
Qed.

(** Whatever is recorded, every day entry holds at least one message.
    [mood_summary] returns a summary for a guild without data and when no
    iteration leaves the range of dates, and raises otherwise; in every
    summary it returns, as in every day entry, each message is counted in
    at least one class and in at most 32, the neutral count never exceeds
    the number of messages, no counter is negative, and a summary without
    messages is all zero. *)
Theorem mood_counts (msgs : list (Z * Z * list char)) (mood_data : MoodData) :
  recorded mood_data ->
  let data := record_all msgs mood_data in
  recorded data /\
  forall clock g days,
    (is_Some (mood_summary clock g days data)
     <-> data !! g = None \/ in_range clock days) /\
    forall s, mood_summary clock g days data = Some s ->
      counted 32 s /\
      (messages s = 0 -> s = zero) /\
      (messages s <> 0 -> total s = positive s + neutral s + negative s + toxic s).
Proof.
  intros Hrec data.
  assert (Hdata : recorded data) by (apply record_all_recorded, Hrec).
  split; [exact Hdata|]. intros clock g days.
  split; [exact (proj1 (mood_summary_returns clock g days data))|].
  intros s Hsum.
  assert (Hs : counted 32 s) by (eapply mood_summary_counted; eassumption).
  split; [exact Hs|]. split.
  - apply (counted_no_messages 32), Hs.
  - intros Hne. unfold total. unfold counted in Hs. lia.
Qed.

(** When no iteration of [mood_summary] leaves the range of dates, a
    message recorded on day [today] for guild [g] adds its score and one
    message to a summary of [g] once for every iteration that looks up
    [today], and changes no summary of another guild.  With a clock that
    stands still during the call that is once when [today] is among the
    [max(1, days)] days that end on the day of the call, and not at all
    otherwise; a clock that passes midnight during the call makes the loop
    look up one day twice. *)
Theorem record_then_summary (today g : Z) (text : list char) (mood_data : MoodData)
  (clock : Z -> Z) (g' days : Z) :
  in_range clock days ->
  exists s,
    mood_summary clock g' days mood_data = Some s /\
    mood_summary clock g' days (record_mood today g text mood_data) =
      Some (if decide (g' = g)
            then tally_times (visits clock days today) s (score text)
            else s) /\
    ((forall i, 0 <= i < Z.max 1 days -> clock i = clock 0) ->
     visits clock days today =
     if decide (clock 0 - Z.max 1 days < today <= clock 0) then 1%nat else 0%nat).
Proof.
  intros Hr.
  exists (sum_over (default ∅ (mood_data !! g')) (days_visited clock days) zero).
  split; [exact (proj2 (mood_summary_returns clock g' days mood_data) Hr)|].
  split; [|apply visits_steady].
  rewrite (proj2 (mood_summary_returns clock g' days _) Hr).
  f_equal. unfold Mood.record_mood, MoodData in *. cbv zeta.
  destruct (decide (g' = g)) as [->|Hg].
  - rewrite lookup_insert_eq. cbn [default id]. apply sum_over_insert.
  - rewrite lookup_insert_ne by congruence. reflexivity.
Qed.

End Detector.

(** [dominant_mood] names the class with the highest count; among equal
    counts the first of positive, neutral, negative, toxic wins, so a
    summary without any hit, as for a guild without data, is POSITIF. *)
Theorem dominant_mood_spec (data : Counts) :
  let p := positive data in
  let u := neutral data in
  let n := negative data in
  let t := toxic data in
  (dominant_mood data = POSITIF <-> u <= p /\ n <= p /\ t <= p) /\
  (dominant_mood data = NETRAL <-> p < u /\ n <= u /\ t <= u) /\
  (dominant_mood data = NEGATIF <-> p < n /\ u < n /\ t <= n) /\
  (dominant_mood data = TOXIC <-> p < t /\ u < t /\ n < t) /\
  (forall clock g days (mood_data : MoodData),
     mood_data !! g = None ->
     dominant_mood <$> mood_summary clock g days mood_data = Some POSITIF).
Proof.
  cbv zeta. pose proof (max_by_first data) as (H1 & H2 & H3 & H4).
  repeat (split; [assumption|]).
  intros clock g days mood_data Hg. unfold mood_summary. rewrite Hg. reflexivity.
Qed.

Lemma recorded_empty : recorded ∅.
Proof.
  unfold recorded, MoodData. intros g by_day day d Hg.
  rewrite lookup_empty in Hg. discriminate.
Qed.

(** [mood_counts] on three messages of guild 1 on day 20000; on day 2
    of year 1 a summary of 3 days raises. *)
Lemma mood_counts_example :
  let msgs := [(20000, 1, Registry.chars "Mantap, keren!");
               (20000, 1, Registry.chars "capek");
               (20000, 1, Registry.chars "halo")] in
  recorded (record_ascii msgs ∅) /\
  mood_summary (fun _ => 20000) 1 1 (record_ascii msgs ∅) = Some (mkCounts 2 1 2 0 3) /\
  counted 32 (mkCounts 2 1 2 0 3) /\
  mood_summary (fun _ => 2) 1 3 (record_ascii msgs ∅) = None.
Proof.
  intros msgs.
  destruct (mood_counts Puzzle.lower_ascii Registry.chars msgs ∅ recorded_empty)
    as [Hrec Hsum].
  assert (Hs : mood_summary (fun _ => 20000) 1 1 (record_ascii msgs ∅)
               = Some (mkCounts 2 1 2 0 3)) by (vm_compute; reflexivity).
  split; [exact Hrec|]. split; [exact Hs|].
  split; [exact (proj1 (proj2 (Hsum (fun _ => 20000) 1 1) _ Hs))|].
  vm_compute. reflexivity.
Defined.

(** [record_then_summary] when the clock passes midnight after the first
    iteration: a message of day 20000 is counted twice in the summary of 3
    days. *)
Lemma record_then_summary_example :
  in_range over_midnight 3 /\
  visits over_midnight 3 20000 = 2%nat /\
  mood_summary over_midnight 1 3
    (record_ascii [(20000, 1, Registry.chars "capek")] ∅) = Some (mkCounts 0 0 4 0 2).
Proof.
  assert (Hr : in_range over_midnight 3).
  { intros i Hi. unfold over_midnight. destruct (Z.ltb_spec i 1); lia. }
  split; [exact Hr|]. split; [reflexivity|].
  destruct (record_then_summary Puzzle.lower_ascii Registry.chars 20000 1
              (Registry.chars "capek") ∅ over_midnight 1 3 Hr)
    as (s & Hold & Hnew & _).
  injection Hold as <-. exact Hnew.
Defined.

End MoodTheory.

(** ** Debate referee: rosters and the running flag *)

Module DebateExtra.

Import Debate DebateRunners.

Local Open Scope Z_scope.

Lemma filter_absent (x : Z) (l : list Z) :
  x ∉ l -> filter (fun y => y <> x) l = l.
Proof.
  induction l as [|z l IH]; intros Hx; [reflexivity|].
  apply not_elem_of_cons in Hx as [Hxz Hx].
  rewrite filter_cons_True by congruence. f_equal. apply IH, Hx.
Qed.

(** On a list without duplicates [remove_first] removes every occurrence. *)
Lemma remove_first_filter (x : Z) (l : list Z) :
  NoDup l -> remove_first x l = filter (fun y => y <> x) l.
Proof.
  induction l as [|y l IH]; intros Hnd; [reflexivity|].
  apply NoDup_cons in Hnd as [Hy Hnd]. cbn [remove_first].
  destruct (decide (x = y)) as [->|Hne].
  - rewrite filter_cons_False by (intros Hn; apply Hn; reflexivity).
    symmetry. apply filter_absent, Hy.
  - rewrite filter_cons_True by congruence. f_equal. apply IH, Hnd.
Qed.

Lemma NoDup_joined (author : Z) (l : list Z) :
  NoDup l -> NoDup (filter (fun u => u <> author) l ++ [author]).
Proof.
  intros Hnd. apply NoDup_app. split; [apply NoDup_filter, Hnd|]. split.
  - intros u Hu Hin. apply list_elem_of_filter in Hu as [Hne _].
    apply list_elem_of_singleton in Hin. contradiction.
  - apply NoDup_singleton.
Qed.

(** The session that [debat_join] stores. *)
Lemma join_rosters (author : Z) (sd : Side) (s : DebateSession) :
  well_formed s ->
  let p := remove_first author (pro s) in
  let k := remove_first author (kontra s) in
  let s' := match sd with
            | PRO => set_rosters (p ++ [author]) k s
            | KONTRA => set_rosters p (k ++ [author]) s
            end in
  well_formed s' /\
  lineup s' sd = filter (fun u => u <> author) (lineup s sd) ++ [author] /\
  lineup s' (opposite sd) = filter (fun u => u <> author) (lineup s (opposite sd)) /\
  points s' = points s /\ running s' = running s /\ channel_id s' = channel_id s.
Proof.
  intros (Hp & Hk & Hdis & Hsec & Hr). cbv zeta.
  rewrite !remove_first_filter by assumption.
  destruct sd; cbn [lineup opposite set_rosters pro kontra points running channel_id];
    (split; [|repeat split; reflexivity]); unfold well_formed;
    cbn [set_rosters pro kontra turn_seconds rounds].
  - split; [apply NoDup_joined, Hp|]. split; [apply NoDup_filter, Hk|].
    split; [|split; assumption].
    intros u Hu Hin. apply list_elem_of_filter in Hin as [Hne Hin].
    apply elem_of_app in Hu as [Hu|Hu].
    + apply list_elem_of_filter in Hu as [_ Hu]. exact (Hdis u Hu Hin).
    + apply list_elem_of_singleton in Hu. contradiction.
  - split; [apply NoDup_filter, Hp|]. split; [apply NoDup_joined, Hk|].
    split; [|split; assumption].
    intros u Hu Hin. apply list_elem_of_filter in Hu as [Hne Hu].
    apply elem_of_app in Hin as [Hin|Hin].
    + apply list_elem_of_filter in Hin as [_ Hin]. exact (Hdis u Hu Hin).
    + apply list_elem_of_singleton in Hin. contradiction.
Qed.

(** The runner writes no field but [running]. *)
Lemma runner_step_fields (found : bool) (s : DebateSession) (pc : Pc) :
  let s' := (runner_step found s pc).1.1 in
  pro s' = pro s /\ kontra s' = kontra s /\ turn_seconds s' = turn_seconds s /\
  rounds s' = rounds s /\ points s' = points s.
Proof.
  cbv zeta. destruct pc; simpl; try (repeat split; reflexivity).
  - destruct found; repeat split; reflexivity.
  - unfold turn_or_finish.
    destruct (enter_round _ _ _) as [[[[? ?] ?] ?]|]; [|repeat split; reflexivity].
    destruct (running s); repeat split; reflexivity.
  - unfold turn_or_finish.
    destruct (next_turn _ _ _ _ _) as [[[[? ?] ?] ?]|]; [|repeat split; reflexivity].
    destruct (running s); repeat split; reflexivity.
Qed.

Lemma well_formed_fields (s s' : DebateSession) :
  pro s' = pro s -> kontra s' = kontra s -> turn_seconds s' = turn_seconds s ->
  rounds s' = rounds s -> well_formed s -> well_formed s'.
Proof. unfold well_formed. intros -> -> -> ->. tauto. Qed.

Lemma store_well_formed (l : nat) (s : DebateSession) (w : World) :
  sessions_well_formed w -> well_formed s -> sessions_well_formed (store l s w).
Proof.
  intros Hw Hs l' s' Hl'. unfold store in Hl'. cbn [heap] in Hl'.
  apply list_lookup_insert_Some in Hl' as [(-> & <- & _)|[_ Hl']];
    [exact Hs | exact (Hw _ _ Hl')].
Qed.

Lemma exec_well_formed (a : Action) (w : World) :
  sessions_well_formed w -> sessions_well_formed (exec a w).
Proof.
  intros Hw.
  destruct a as [ch guild secs nrounds title|ch author side|ch|ch author|ch|tid found|tid];
    cbn [exec].
  - unfold debat_mulai. destruct (_ || _) eqn:Hbad; [exact Hw|].
    apply orb_false_iff in Hbad as [Hsecs Hrounds].
    apply Z.ltb_ge in Hsecs, Hrounds.
    intros l s Hl. cbn [snd heap] in Hl.
    apply lookup_app_Some in Hl as [Hl|[_ Hl]]; [exact (Hw _ _ Hl)|].
    apply list_lookup_singleton_Some in Hl as [_ <-].
    unfold well_formed; cbn. repeat split; try constructor; try assumption.
    intros uid Hin. apply elem_of_nil in Hin. contradiction.
  - unfold debat_join. destruct (session_at w ch) as [[l s]|] eqn:Hat; [|exact Hw].
    destruct (running s); [exact Hw|]. destruct side as [sd|]; [|exact Hw].
    apply session_at_Some in Hat as [_ Hl]. cbn [snd].
    apply store_well_formed; [exact Hw|].
    exact (proj1 (join_rosters author sd s (Hw _ _ Hl))).
  - destruct (reply_eq_dec (debat_start ch w).1 TimerStarted) as [Hs|Hs].
    + destruct (debat_start_spawned ch w Hs) as (l & s & _ & ->). exact Hw.
    + rewrite (debat_start_refused ch w Hs). exact Hw.
  - unfold debat_poin. destruct (session_at w ch) as [[l s]|] eqn:Hat; [|exact Hw].
    destruct (_side_of_user s author); [|exact Hw].
    apply session_at_Some in Hat as [_ Hl]. cbn [snd].
    apply store_well_formed; [exact Hw|].
    apply (well_formed_fields s); try reflexivity. exact (Hw _ _ Hl).
  - unfold debat_stop. destruct (session_at w ch) as [[l s]|] eqn:Hat; [|exact Hw].
    apply session_at_Some in Hat as [_ Hl]. cbn [snd].
    intros l' s' Hl'. cbn [heap] in Hl'.
    destruct (cancel_task_fields ch (store l (set_running false s) w)) as (Hh & _).
    rewrite Hh in Hl'. revert l' s' Hl'.
    apply store_well_formed; [exact Hw|].
    apply (well_formed_fields s); try reflexivity. exact (Hw _ _ Hl).
  - unfold resume. destruct (tasks w !! tid) as [t|]; [|exact Hw].
    destruct (done t); [exact Hw|]. destruct (t_cancel t); [exact Hw|].
    destruct (heap w !! t_session t) as [s|] eqn:Hl; [|exact Hw].
    pose proof (runner_step_fields found s (t_pc t)) as Hf. cbv zeta in Hf.
    destruct (runner_step found s (t_pc t)) as [[s' pc'] evs]. cbn [fst] in Hf.
    destruct Hf as (Hp & Hk & Hsec & Hr & _).
    intros l' s'' Hl'. cbn [heap] in Hl'.
    apply list_lookup_insert_Some in Hl' as [(_ & <- & _)|[_ Hl']];
      [|exact (Hw _ _ Hl')].
    exact (well_formed_fields s s' Hp Hk Hsec Hr (Hw _ _ Hl)).
  - unfold fail. destruct (tasks w !! tid) as [t|]; [|exact Hw].
    destruct (t_pc t); exact Hw.
Qed.

Lemma run_well_formed (acts : list Action) (w : World) :
  sessions_well_formed w -> sessions_well_formed (run acts w).
Proof.
  revert w. induction acts as [|a acts IH]; intros w Hw; [exact Hw|].
  unfold run in *. cbn [foldl]. apply IH, exec_well_formed, Hw.
Qed.

Lemma init_well_formed : sessions_well_formed init.
Proof. intros l s Hl. cbn in Hl. discriminate. Qed.

Lemma side_of_user_spec (s : DebateSession) (uid : Z) :
  well_formed s ->
  (_side_of_user s uid = Some PRO <-> uid ∈ pro s) /\
  (_side_of_user s uid = Some KONTRA <-> uid ∈ kontra s) /\
  (_side_of_user s uid = None <-> (uid ∉ pro s) /\ (uid ∉ kontra s)).
Proof.
  intros (_ & _ & Hdis & _). unfold _side_of_user.
  destruct (decide (uid ∈ pro s)) as [Hp|Hp];
    [|destruct (decide (uid ∈ kontra s)) as [Hk|Hk]].
  - pose proof (Hdis uid Hp). repeat split; intros; try discriminate; tauto.
  - repeat split; intros; try discriminate; tauto.
  - repeat split; intros; try discriminate; tauto.
Qed.

(** Whatever commands are given and however the runners are scheduled,
    no session ever lists a user twice on a side or on both sides, so
    [_side_of_user] gives the one side a user is on, and every session has
    turns of at least 10 seconds and at least one round. *)
Theorem rosters_never_overlap (acts : list Action) (l : nat) (s : DebateSession) :
  heap (run acts init) !! l = Some s ->
  well_formed s /\
  forall uid,
    (_side_of_user s uid = Some PRO <-> uid ∈ pro s) /\
    (_side_of_user s uid = Some KONTRA <-> uid ∈ kontra s) /\
    (_side_of_user s uid = None <-> (uid ∉ pro s) /\ (uid ∉ kontra s)).
Proof.
  intros Hl.
  assert (Hs : well_formed s) by exact (run_well_formed acts init init_well_formed l s Hl).
  split; [exact Hs|]. intros uid. apply side_of_user_spec, Hs.
Qed.

(** In a session that is not running, [debat_join] with a valid side
    always succeeds: the author becomes the last of that side, is on no
    other side, everybody else keeps side and place, and nothing else in
    the session changes. *)
Theorem debat_join_moves (acts : list Action) (ch author : Z) (sd : Side)
  (l : nat) (s : DebateSession) :
  let w := run acts init in
  session_at w ch = Some (l, s) -> running s = false ->
  exists s',
    debat_join ch author (Some sd) w = (Joined sd, store l s' w) /\
    session_at (store l s' w) ch = Some (l, s') /\
    lineup s' sd = filter (fun u => u <> author) (lineup s sd) ++ [author] /\
    lineup s' (opposite sd) = filter (fun u => u <> author) (lineup s (opposite sd)) /\
    _side_of_user s' author = Some sd /\
    (forall u, u <> author -> _side_of_user s' u = _side_of_user s u) /\
    points s' = points s /\ running s' = false.
Proof.
  intros w Hat Hrun.
  pose proof (session_at_Some w ch l s Hat) as [Hreg Hl].
  assert (Hs : well_formed s) by exact (run_well_formed acts init init_well_formed l s Hl).
  pose proof (join_rosters author sd s Hs) as Hj. cbv zeta in Hj.
  set (s' := match sd with
             | PRO => set_rosters (remove_first author (pro s) ++ [author])
                        (remove_first author (kontra s)) s
             | KONTRA => set_rosters (remove_first author (pro s))
                           (remove_first author (kontra s) ++ [author]) s
             end) in *.
  destruct Hj as (Hs' & Hside & Hopp & Hpts & Hrun' & _).
  exists s'. split.
  { unfold debat_join. rewrite Hat, Hrun. reflexivity. }
  split.
  { unfold session_at, store. cbn [debate_sessions heap]. rewrite Hreg.
    rewrite list_lookup_insert_eq by (eapply lookup_lt_Some; exact Hl). reflexivity. }
  split; [exact Hside|]. split; [exact Hopp|].
  assert (Hin : forall sd' u, u ∈ lineup s' sd' <->
                  (u <> author /\ u ∈ lineup s sd') \/ (u = author /\ sd' = sd)).
  { intros sd' u. destruct (decide (sd' = sd)) as [->|Hne].
    - rewrite Hside, elem_of_app, list_elem_of_filter, list_elem_of_singleton. tauto.
    - assert (sd' = opposite sd) as -> by (destruct sd, sd'; simpl; congruence).
      rewrite Hopp, list_elem_of_filter. tauto. }
  pose proof (Hin PRO) as Hinp. pose proof (Hin KONTRA) as Hink.
  cbn [lineup] in Hinp, Hink.
  split; [|split; [|split; [exact Hpts | congruence]]].
  - destruct (side_of_user_spec s' author Hs') as (Hp & Hk & _).
    destruct sd; [apply Hp, Hinp | apply Hk, Hink]; right; split; reflexivity.
  - intros u Hne. unfold _side_of_user.
    destruct (decide (u ∈ pro s')) as [Hp'|Hp'];
      destruct (decide (u ∈ pro s)) as [Hp|Hp]; try reflexivity.
    + apply Hinp in Hp' as [[_ Hp']|[Heq _]]; contradiction.
    + exfalso. apply Hp', Hinp. left. split; assumption.
    + destruct (decide (u ∈ kontra s')) as [Hk'|Hk'];
        destruct (decide (u ∈ kontra s)) as [Hk|Hk]; try reflexivity.
      * apply Hink in Hk' as [[_ Hk']|[Heq _]]; contradiction.
      * exfalso. apply Hk', Hink. left. split; assumption.
Qed.

(** [rosters_never_overlap] on the second session of [two_starts]. *)
Lemma rosters_never_overlap_example :
  let s := mkSession 9 1 "dua" 30 1 [103] [104] [] false in
  heap (run two_starts init) !! 1%nat = Some s /\ well_formed s.
Proof.
  intros s.
  assert (Hl : heap (run two_starts init) !! 1%nat = Some s) by (vm_compute; reflexivity).
  split; [exact Hl|]. exact (proj1 (rosters_never_overlap two_starts 1 s Hl)).
Defined.

(** [debat_join_moves] when user 101, on PRO, joins KONTRA. *)
Lemma debat_join_moves_example :
  let acts := [Mulai 1 9 30 2 "satu"; Join 1 101 (Some PRO); Join 1 102 (Some KONTRA)] in
  let s := mkSession 9 1 "satu" 30 2 [101] [102] [] false in
  session_at (run acts init) 1 = Some (0%nat, s) /\
  exists s',
    debat_join 1 101 (Some KONTRA) (run acts init)
      = (Joined KONTRA, store 0 s' (run acts init)) /\
    _side_of_user s' 101 = Some KONTRA.
Proof.
  intros acts s.
  assert (Hat : session_at (run acts init) 1 = Some (0%nat, s))
    by (vm_compute; reflexivity).
  split; [exact Hat|].
  destruct (debat_join_moves acts 1 101 KONTRA 0 s Hat eq_refl)
    as (s' & Hjoin & _ & _ & _ & Hside & _).
  exists s'. split; assumption.
Defined.

Lemma other_object (w : World) (ch c : Z) (l l' : nat) (s s' : DebateSession) :
  sessions_registered w ->
  session_at w ch = Some (l, s) -> session_at w c = Some (l', s') ->
  c <> ch -> l' <> l.
Proof.
  intros Hsess Hat Hat' Hne ->.
  apply session_at_Some in Hat as [Hreg _]. apply session_at_Some in Hat' as [Hreg' _].
  destruct (Hsess ch l Hreg) as (s0 & Hl & Hc).
  destruct (Hsess c l Hreg') as (s1 & Hl' & Hc'). congruence.
Qed.

Lemma session_at_frame (w w' : World) (ch : Z) (l : nat) (s : DebateSession) :
  debate_sessions w' !! ch = debate_sessions w !! ch ->
  heap w' !! l = heap w !! l ->
  session_at w ch = Some (l, s) -> session_at w' ch = Some (l, s).
Proof.
  intros Hd Hh Hat. apply session_at_Some in Hat as [Hreg Hl].
  unfold session_at. rewrite Hd, Hreg, Hh, Hl. reflexivity.
Qed.

(** While a registered session is flagged as running, no step gives its
    object a runner. *)
Lemma no_runner_exec (a : Action) (w : World) (ch : Z) (l : nat) (s : DebateSession) :
  sessions_registered w ->
  session_at w ch = Some (l, s) -> running s = true ->
  no_runner w l -> no_runner (exec a w) l.
Proof.
  intros Hsess Hat Hrun Hno tid t' Ht' Hl'.
  destruct (decide (tid < length (tasks w))%nat) as [Hlt|Hge].
  - destruct (lookup_lt_is_Some_2 _ _ Hlt) as [t Ht].
    destruct (exec_extends a w) as [_ Htasks].
    destruct (Htasks tid t Ht) as (t'' & Ht'' & Hsame & _).
    assert (t'' = t') as -> by congruence.
    apply (extends_not_alive w (exec a w) tid (exec_extends a w)); [eauto|].
    apply (Hno tid t Ht). congruence.
  - apply lookup_lt_Some in Ht' as Hlen.
    destruct (exec_tasks_length a w) as [Heq|(c & -> & Hs)]; [lia|].
    cbn [exec] in *.
    destruct (decide (c = ch)) as [->|Hne].
    { rewrite (debat_start_while_running ch w l s Hat Hrun) in Hs. discriminate. }
    destruct (debat_start_spawned c w Hs) as (l0 & s0 & Hat0 & Hw).
    rewrite Hw in Ht', Hlen. cbn [tasks] in Ht', Hlen.
    destruct (cancel_task_fields c w) as (_ & _ & _ & _ & Hcl).
    rewrite length_app in Hlen. cbn [length] in Hlen.
    assert (tid = length (tasks (cancel_task c w))) as -> by lia.
    rewrite list_lookup_middle in Ht' by reflexivity.
    injection Ht' as <-. cbn [t_session] in Hl'.
    exfalso. exact (other_object w ch c l l0 s s0 Hsess Hat Hat0 Hne Hl').
Qed.

Lemma stuck_step (a : Action) (w : World) (ch : Z) (l : nat) (s : DebateSession) :
  sessions_registered w ->
  session_at w ch = Some (l, s) -> running s = true ->
  no_runner w l -> keeps_session ch a = true ->
  exists s', session_at (exec a w) ch = Some (l, s') /\ running s' = true /\
             pro s' = pro s /\ kontra s' = kontra s.
Proof.
  intros Hsess Hat Hrun Hno Hkeep.
  pose proof (session_at_Some w ch l s Hat) as [Hreg Hl].
  assert (Hsame : forall w',
             debate_sessions w' !! ch = debate_sessions w !! ch ->
             heap w' !! l = heap w !! l ->
             exists s', session_at w' ch = Some (l, s') /\ running s' = true /\
                        pro s' = pro s /\ kontra s' = kontra s).
  { intros w' Hd Hh. exists s.
    split; [exact (session_at_frame w w' ch l s Hd Hh Hat)|auto]. }
  destruct a as [c guild secs nrounds title|c author side|c|c author|c|tid found|tid];
    cbn [exec keeps_session] in *.
  - apply negb_true_iff, bool_decide_eq_false in Hkeep.
    unfold debat_mulai. destruct (_ || _); cbn [snd]; [apply Hsame; reflexivity|].
    apply Hsame; cbn [debate_sessions heap].
    + apply lookup_insert_ne. exact Hkeep.
    + apply lookup_app_l. eapply lookup_lt_Some. exact Hl.
  - unfold debat_join. destruct (decide (c = ch)) as [->|Hne].
    + rewrite Hat, Hrun. apply Hsame; reflexivity.
    + destruct (session_at w c) as [[l0 s0]|] eqn:Hat0; [|apply Hsame; reflexivity].
      destruct (running s0); [apply Hsame; reflexivity|].
      destruct side as [sd|]; [|apply Hsame; reflexivity].
      cbn [snd]. apply Hsame; [reflexivity|]. unfold store; cbn [heap].
      apply list_lookup_insert_ne.
      exact (other_object w ch c l l0 s s0 Hsess Hat Hat0 Hne).
  - destruct (reply_eq_dec (debat_start c w).1 TimerStarted) as [Hs|Hs].
    + destruct (debat_start_spawned c w Hs) as (l0 & s0 & _ & ->).
      apply Hsame; reflexivity.
    + rewrite (debat_start_refused c w Hs). apply Hsame; reflexivity.
  - unfold debat_poin. destruct (decide (c = ch)) as [->|Hne].
    + rewrite Hat. destruct (_side_of_user s author) as [side|];
        [|apply Hsame; reflexivity].
      cbn [snd]. exists (add_point author side s). split; [|auto].
      unfold session_at, store; cbn [debate_sessions heap]. rewrite Hreg.
      rewrite list_lookup_insert_eq by (eapply lookup_lt_Some; exact Hl).
      reflexivity.
    + destruct (session_at w c) as [[l0 s0]|] eqn:Hat0; [|apply Hsame; reflexivity].
      destruct (_side_of_user s0 author); [|apply Hsame; reflexivity].
      cbn [snd]. apply Hsame; [reflexivity|]. unfold store; cbn [heap].
      apply list_lookup_insert_ne.
      exact (other_object w ch c l l0 s s0 Hsess Hat Hat0 Hne).
  - apply negb_true_iff, bool_decide_eq_false in Hkeep.
    unfold debat_stop.
    destruct (session_at w c) as [[l0 s0]|] eqn:Hat0; [|apply Hsame; reflexivity].
    cbn [snd].
    destruct (cancel_task_fields c (store l0 (set_running false s0) w))
      as (Hh & Hd & _).
    apply Hsame; cbn [debate_sessions heap].
    + rewrite Hd. unfold store; cbn [debate_sessions].
      apply lookup_delete_ne. exact Hkeep.
    + rewrite Hh. unfold store; cbn [heap]. apply list_lookup_insert_ne.
      exact (other_object w ch c l l0 s s0 Hsess Hat Hat0 Hkeep).
  - unfold resume. destruct (tasks w !! tid) as [t|] eqn:Ht; [|apply Hsame; reflexivity].
    destruct (done t) eqn:Hdone; [apply Hsame; reflexivity|].
    destruct (t_cancel t) eqn:Hc; [apply Hsame; reflexivity|].
    destruct (heap w !! t_session t) as [s0|] eqn:Hl0; [|apply Hsame; reflexivity].
    destruct (runner_step found s0 (t_pc t)) as [[s1 pc'] evs].
    apply Hsame; [reflexivity|]. cbn [heap]. apply list_lookup_insert_ne.
    intros Heq. pose proof (Hno tid t Ht Heq) as Hdead.
    unfold alive in Hdead. rewrite Ht, Hdone, Hc in Hdead. discriminate.
  - unfold fail. destruct (tasks w !! tid) as [t|]; [|apply Hsame; reflexivity].
    destruct (t_pc t); apply Hsame; reflexivity.
Qed.

Lemma stuck_run (more : list Action) (w : World) (ch : Z) (l : nat) (s : DebateSession) :
  sessions_registered w ->
  session_at w ch = Some (l, s) -> running s = true -> no_runner w l ->
  forallb (keeps_session ch) more = true ->
  exists s', session_at (run more w) ch = Some (l, s') /\ running s' = true /\
             pro s' = pro s /\ kontra s' = kontra s /\ no_runner (run more w) l.
Proof.
  revert w s. induction more as [|a more IH]; intros w s Hsess Hat Hrun Hno Hkeep.
  - exists s. auto.
  - cbn [forallb] in Hkeep. apply andb_true_iff in Hkeep as [Ha Hmore].
    destruct (stuck_step a w ch l s Hsess Hat Hrun Hno Ha) as (s1 & Hat1 & Hrun1 & Hp1 & Hk1).
    pose proof (no_runner_exec a w ch l s Hsess Hat Hrun Hno) as Hno1.
    pose proof (exec_sessions_registered a w Hsess) as Hsess1.
    destruct (IH (exec a w) s1 Hsess1 Hat1 Hrun1 Hno1 Hmore)
      as (s' & Hat' & Hrun' & Hp' & Hk' & Hno').
    exists s'. unfold run in *. cbn [foldl].
    split; [exact Hat'|]. split; [exact Hrun'|].
    split; [congruence|]. split; [congruence|exact Hno'].
Qed.

(** A session left flagged as running with no runner working on it (its
    runner's send failed) stays that way: until [debat_stop] or a new
    [debat_mulai] in its channel, whatever else happens, the session object
    stays registered with its flag set and its rosters unchanged, no runner
    is ever attached to it, and [debat_start] and [debat_join] are refused
    as already running. *)
Theorem running_flag_stuck (acts more : list Action) (ch : Z) (l : nat)
  (s : DebateSession) :
  let w := run acts init in
  session_at w ch = Some (l, s) -> running s = true -> no_runner w l ->
  forallb (keeps_session ch) more = true ->
  let w' := run more w in
  exists s',
    session_at w' ch = Some (l, s') /\ running s' = true /\
    pro s' = pro s /\ kontra s' = kontra s /\ no_runner w' l /\
    debat_start ch w' = (AlreadyRunning, w') /\
    forall author side, debat_join ch author side w' = (AlreadyRunning, w').
Proof.
  intros w Hat Hrun Hno Hkeep w'.
  assert (Hsess : sessions_registered w)
    by exact (proj1 (run_registered acts init init_registered)).
  destruct (stuck_run more w ch l s Hsess Hat Hrun Hno Hkeep)
    as (s' & Hat' & Hrun' & Hp & Hk & Hno').
  exists s'. repeat (split; [assumption|]). split.
  - exact (debat_start_while_running ch w' l s' Hat' Hrun').
  - intros author side. unfold debat_join. subst w'. rewrite Hat', Hrun'. reflexivity.
Qed.

(** [running_flag_stuck] after [failed_start]. *)
Lemma running_flag_stuck_example :
  let s := mkSession 9 1 "satu" 30 2 [101] [102] [] true in
  let more := [Start 1; Join 1 103 (Some PRO); Resume 0 true; Poin 1 101; Start 1] in
  session_at (run failed_start init) 1 = Some (0%nat, s) /\
  no_runner (run failed_start init) 0 /\
  (debat_start 1 (run more (run failed_start init))).1 = AlreadyRunning.
Proof.
  intros s more.
  assert (Hat : session_at (run failed_start init) 1 = Some (0%nat, s))
    by (vm_compute; reflexivity).
  assert (Hno : no_runner (run failed_start init) 0).
  { intros [|tid] t Ht _; [reflexivity|]. vm_compute in Ht. discriminate. }
  split; [exact Hat|]. split; [exact Hno|].
  destruct (running_flag_stuck failed_start more 1 0 s Hat eq_refl Hno eq_refl)
    as (s' & _ & _ & _ & _ & _ & Hstart & _).
  rewrite Hstart. reflexivity.
Defined.

End DebateExtra.
